(** * supertux-trainer: pattern matching, scanning and hook lifecycle

    A shallow embedding of the core of the trainer:
    - [Memory]  : [memory::Pattern] (src/memory/Pattern.cpp),
    - [Scanner] : [scanner::PatternScanner] (src/scanner/PatternScanner.cpp),
    - [Hooks]   : [hooks::MinHookWrapper] and [hooks::FunctionHook]
                  (src/hooks/MinHookWrapper.cpp).

    Bytes ([uint8_t]) and addresses ([uintptr_t]) are integers in [Z];
    where the C++ code wraps around, the wrap-around is written out.
    Sizes and indices ([size_t]) are natural numbers.  C++ exceptions are
    values of type [exn] returned on the left of a sum. *)

From Stdlib Require Import ZArith List Ascii String Lia Bool.
From stdpp Require Import base decidable option numbers list strings sorting gmap.
Import ListNotations.

Local Open Scope Z_scope.
Local Open Scope list_scope.

(** The two exception classes the core throws, with their messages. *)
Inductive exn : Type :=
| invalid_argument (what : string)
| out_of_range (what : string).

(* ===================================================================== *)
(** * namespace memory *)
(* ===================================================================== *)

Module Memory.

(** [class Pattern]: the byte values, the mask ([true] = must match,
    [false] = wildcard) and a descriptive name. *)
Record Pattern : Type := mkPattern {
  m_bytes : list Z;
  m_mask : list bool;
  m_name : string
}.

(** [Pattern::size()]. *)
Definition size (p : Pattern) : nat := length (m_bytes p).

(** [Pattern::getBytes], [Pattern::getMask], [Pattern::getName]. *)
Definition getBytes (p : Pattern) : list Z := m_bytes p.
Definition getMask (p : Pattern) : list bool := m_mask p.
Definition getName (p : Pattern) : string := m_name p.

(** [Pattern::Pattern(bytes, mask, name)]: throws when the two vectors
    differ in length, and performs no other check. *)
Definition Pattern_of_bytes (bytes : list Z) (mask : list bool) (name : string)
  : exn + Pattern :=
  if negb (length bytes =? length mask)%nat
  then inl (invalid_argument "Byte array and mask must have same size")
  else inr (mkPattern bytes mask name).

(** The class invariant both constructors establish: one mask bit per
    byte, and every stored byte is a [uint8_t]. *)
Definition is_uint8 (b : Z) : Prop := 0 <= b < 256.

Definition wf_pattern (p : Pattern) : Prop :=
  length (m_mask p) = length (m_bytes p) /\ Forall is_uint8 (m_bytes p).

(** ** Text form: [parsePatternString] and [toString] *)

(** Whitespace of the classic locale, as [operator>>] and [strtoul] see
    it: space, and the control characters 9 to 13. *)
Definition isspace (c : ascii) : bool :=
  let n := Z.of_N (N_of_ascii c) in
  (n =? 32) || ((9 <=? n) && (n <=? 13)).

(** Value of a hexadecimal digit, upper or lower case. *)
Definition hex_digit_value (c : ascii) : option Z :=
  let n := Z.of_N (N_of_ascii c) in
  if (48 <=? n) && (n <=? 57) then Some (n - 48)
  else if (97 <=? n) && (n <=? 102) then Some (n - 87)
  else if (65 <=? n) && (n <=? 70) then Some (n - 55)
  else None.

Definition is_hex_digit (c : ascii) : bool :=
  match hex_digit_value c with Some _ => true | None => false end.

(** The loop [while (iss >> token)]: each extraction skips leading
    whitespace and reads up to the next whitespace character or the end
    of the input; the loop ends when only whitespace is left.  [tok] is
    the token being read; the function returns the tokens in the order
    the loop sees them. *)
Fixpoint tokens_from (tok : list ascii) (iss : list ascii) : list (list ascii) :=
  match iss with
  | [] => match tok with [] => [] | _ :: _ => [tok] end
  | c :: rest =>
      if isspace c
      then match tok with
           | [] => tokens_from [] rest
           | _ :: _ => tok :: tokens_from [] rest
           end
      else tokens_from (tok ++ [c]) rest
  end.

Definition tokens (patternString : list ascii) : list (list ascii) :=
  tokens_from [] patternString.

(** [strtoul(s, &end, 16)], on which [std::stoul(token, nullptr, 16)]
    rests: leading whitespace is skipped, one sign is accepted, a
    [0x]/[0X] prefix is accepted when a hexadecimal digit follows it,
    and then the longest run of hexadecimal digits is converted; what
    follows the run is ignored ([stoul] is called with a null [pos]). *)
Fixpoint skip_ws (s : list ascii) : list ascii :=
  match s with
  | c :: rest => if isspace c then skip_ws rest else s
  | [] => []
  end.

Definition strip_sign (s : list ascii) : bool * list ascii :=
  match s with
  | "-"%char :: rest => (true, rest)
  | "+"%char :: rest => (false, rest)
  | _ => (false, s)
  end.

Definition strip_0x (s : list ascii) : list ascii :=
  match s with
  | "0"%char :: x :: d :: rest =>
      if (Ascii.eqb x "x" || Ascii.eqb x "X") && is_hex_digit d
      then d :: rest
      else s
  | _ => s
  end.

Fixpoint hex_run_from (acc : Z) (s : list ascii) : Z :=
  match s with
  | c :: rest =>
      match hex_digit_value c with
      | Some d => hex_run_from (acc * 16 + d) rest
      | None => acc
      end
  | [] => acc
  end.

(** Value of the leading run of hexadecimal digits; [None] when the
    string does not start with one (no conversion can be performed). *)
Definition hex_run (s : list ascii) : option Z :=
  match s with
  | c :: rest =>
      match hex_digit_value c with
      | Some d => Some (hex_run_from d rest)
      | None => None
      end
  | [] => None
  end.

(** Sign and magnitude [strtoul] reads, before the range check. *)
Definition strtoul_scan (s : list ascii) : option (bool * Z) :=
  let '(neg, body) := strip_sign (skip_ws s) in
  match hex_run (strip_0x body) with
  | Some v => Some (neg, v)
  | None => None
  end.

Section Parsing.

(** [ULONG_MAX], the largest [unsigned long] of the platform
    ([2^32 - 1] or [2^64 - 1]); the sources do not fix it. *)
Variable ULONG_MAX : Z.

(** [std::stoul(str, nullptr, 16)]: [invalid_argument] when no
    conversion can be performed, [out_of_range] when the magnitude does
    not fit an [unsigned long]; a minus sign negates the value in
    [unsigned long]. *)
Definition stoul (str : list ascii) : exn + Z :=
  match strtoul_scan str with
  | None => inl (invalid_argument "stoul")
  | Some (neg, v) =>
      if ULONG_MAX <? v then inl (out_of_range "stoul")
      else inr (if neg then (- v) mod (ULONG_MAX + 1) else v)
  end.

(** The wildcard marker. *)
Definition wildcard_token : list ascii := ["?"%char; "?"%char].

(** The body of the parsing loop, for one token: the byte and the mask
    bit to push back, or the exception thrown.  [static_cast<uint8_t>]
    keeps the low eight bits. *)
Definition parse_token (token : list ascii) : exn + (Z * bool) :=
  if decide (token = wildcard_token) then inr (0x00, false)
  else match stoul token with
       | inr v => inr (v mod 256, true)
       | inl _ =>
           inl (invalid_argument
                  ("Invalid pattern token: " ++ string_of_list_ascii token))
       end.

(** The loop over the tokens; [p] holds the members as filled so far,
    [push_back] appends at the end. *)
Fixpoint parse_loop (toks : list (list ascii)) (p : Pattern) : exn + Pattern :=
  match toks with
  | [] => inr p
  | token :: rest =>
      match parse_token token with
      | inl e => inl e
      | inr (byte, fixed) =>
          parse_loop rest
            (mkPattern (m_bytes p ++ [byte]) (m_mask p ++ [fixed]) (m_name p))
      end
  end.

(** [Pattern::parsePatternString], run on the members of [p]. *)
Definition parsePatternString (p : Pattern) (patternString : string)
  : exn + Pattern :=
  match parse_loop (tokens (list_ascii_of_string patternString)) p with
  | inl e => inl e
  | inr p' =>
      match m_bytes p' with
      | [] => inl (invalid_argument "Pattern string cannot be empty")
      | _ :: _ => inr p'
      end
  end.

(** [Pattern::Pattern(patternString, name)]. *)
Definition Pattern_of_string (patternString : string) (name : string)
  : exn + Pattern :=
  parsePatternString (mkPattern [] [] name) patternString.

End Parsing.

(** [ULONG_MAX] of an LP64 platform, for running the parser. *)
Definition ULONG_MAX_LP64 : Z := 2 ^ 64 - 1.

(** [oss << std::hex << std::setw(2) << std::setfill('0') << int(b)]:
    the digits of the value in lower case, without leading zeros, padded
    on the left with ['0'] to two characters.  An [int] has at most
    eight hexadecimal digits. *)
Definition hex_char (d : Z) : ascii :=
  nth (Z.to_nat d) (list_ascii_of_string "0123456789abcdef") "0"%char.

Fixpoint hex_digits_upto (n : nat) (v : Z) : list ascii :=
  match n with
  | O => []
  | S n' =>
      if v <? 16 then [hex_char v]
      else hex_digits_upto n' (v / 16) ++ [hex_char (v mod 16)]
  end.

Definition hex_digits (v : Z) : list ascii := hex_digits_upto 8 v.

Definition put_hex_setw2 (v : Z) : list ascii :=
  let ds := hex_digits v in
  repeat "0"%char (2 - length ds) ++ ds.

(** [Pattern::toString()]: the loop over [i], appending to [oss]. *)
Fixpoint toString_loop (p : Pattern) (i n : nat) (oss : list ascii) : list ascii :=
  match n with
  | O => oss
  | S n' =>
      let oss1 := if (0 <? i)%nat then oss ++ [" "%char] else oss in
      let oss2 :=
        if nth i (m_mask p) false
        then oss1 ++ put_hex_setw2 (nth i (m_bytes p) 0)
        else oss1 ++ wildcard_token in
      toString_loop p (S i) n' oss2
  end.

Definition toString (p : Pattern) : string :=
  string_of_list_ascii (toString_loop p 0 (size p) []).

(** [Pattern::isWildcard(pos)]. *)
Definition isWildcard (p : Pattern) (pos : nat) : exn + bool :=
  if (length (m_mask p) <=? pos)%nat
  then inl (out_of_range "Position out of range")
  else inr (negb (nth pos (m_mask p) false)).

(** [Pattern::matches(data)].  [data] is the memory the pointer refers
    to; [data[i]] is [nth i data 0].  The loop runs [i] from [0] to
    [m_bytes.size() - 1] and returns [false] at the first fixed position
    that differs; [n] counts the iterations that remain.  (Reading
    [data[i]] beyond the buffer is undefined in C++; the contract asks
    for at least [size()] bytes.) *)
Fixpoint matches_loop (p : Pattern) (data : list Z) (i n : nat) : bool :=
  match n with
  | O => true
  | S n' =>
      if nth i (m_mask p) false && negb (nth i data 0 =? nth i (m_bytes p) 0)
      then false
      else matches_loop p data (S i) n'
  end.

Definition matches (p : Pattern) (data : list Z) : bool :=
  matches_loop p data 0 (size p).

(** [struct PatternResult]. *)
Record PatternResult : Type := mkPatternResult {
  address : Z;
  patternName : string;
  matchedBytes : list Z
}.

(** ** Vocabulary of the statements about the text form *)

(** What the text grammar of the interface allows: a token of exactly
    two hexadecimal digits, or the wildcard marker. *)
Definition in_grammar (token : list ascii) : bool :=
  match token with
  | [c1; c2] =>
      (is_hex_digit c1 && is_hex_digit c2)
      || bool_decide (token = wildcard_token)
  | _ => false
  end.

(** What the parsing loop accepts: the wildcard marker, or a token from
    which [stoul] converts a value: after an optional sign and an
    optional [0x] prefix it starts with a hexadecimal digit, and its run
    of digits fits an [unsigned long]. *)
Definition token_accepted (ULONG_MAX : Z) (token : list ascii) : bool :=
  bool_decide (token = wildcard_token)
  || match strtoul_scan token with
     | Some (_, v) => v <=? ULONG_MAX
     | None => false
     end.

(** The byte and mask bit a token stands for, when it is accepted. *)
Definition token_byte (ULONG_MAX : Z) (token : list ascii) : Z :=
  match parse_token ULONG_MAX token with
  | inr (b, _) => b
  | inl _ => 0
  end.

Definition token_fixed (token : list ascii) : bool :=
  negb (bool_decide (token = wildcard_token)).

(** The value of a token of two hexadecimal digits. *)
Definition two_digit_value (token : list ascii) : Z :=
  match token with
  | [c1; c2] =>
      match hex_digit_value c1, hex_digit_value c2 with
      | Some d1, Some d2 => d1 * 16 + d2
      | _, _ => 0
      end
  | _ => 0
  end.

(** The token [toString] prints at position [i]. *)
Definition token_at (p : Pattern) (i : nat) : list ascii :=
  if nth i (m_mask p) false
  then put_hex_setw2 (nth i (m_bytes p) 0)
  else wildcard_token.

(** Tokens separated by single spaces. *)
Fixpoint render (first : bool) (toks : list (list ascii)) : list ascii :=
  match toks with
  | [] => []
  | t :: rest =>
      (if first then [] else [" "%char]) ++ t ++ render false rest
  end.

Definition clean_token (t : list ascii) : Prop :=
  t <> [] /\ Forall (fun c => isspace c = false) t.

(** The two characters printed for a byte: a clean token of the grammar
    that is not the wildcard marker and reads back as the byte. *)
Definition hex_pair_ok (b : Z) : bool :=
  in_grammar (put_hex_setw2 b)
  && negb (bool_decide (put_hex_setw2 b = wildcard_token))
  && (two_digit_value (put_hex_setw2 b) =? b)
  && forallb (fun c => negb (isspace c)) (put_hex_setw2 b)
  && negb (bool_decide (put_hex_setw2 b = [])).

(** ** [PatternResult]: offsets *)

Section Offsets.

(** Width of [uintptr_t] in bits.  In [address + offset] the [int] is
    converted to [uintptr_t] and the sum wraps around. *)
Variable uintptr_bits : Z.

(** [PatternResult::calculateOffset]. *)
Definition calculateOffset (r : PatternResult) (offset : Z) : Z :=
  (address r + offset) mod 2 ^ uintptr_bits.

(** [PatternResult::readPointerChain]: the [bool] returned and the value
    stored in the [result] parameter.  The loop adds the offsets to
    [current], one after the other. *)
Definition readPointerChain (r : PatternResult) (offsets : list Z)
  : bool * Z :=
  match offsets with
  | [] => (true, address r)
  | _ :: _ =>
      let current :=
        fold_left (fun current offset => (current + offset) mod 2 ^ uintptr_bits)
          offsets (address r) in
      (true, current)
  end.

End Offsets.

(** The default arguments of [PatternResult(addr = 0, name = "")]. *)
Definition PatternResult_new : PatternResult := mkPatternResult 0 "" [].

(** The pattern ["48 8B ?? 90"] and a buffer it matches. *)
Definition example_pattern : Pattern :=
  mkPattern [0x48; 0x8B; 0x00; 0x90] [true; true; false; true] "example".

Definition example_buffer : list Z := [0x48; 0x8B; 0x12; 0x90; 0x55].

End Memory.

(* ===================================================================== *)
(** * namespace scanner *)
(* ===================================================================== *)

Module Scanner.
Import Memory.

(** [class IMemoryProvider].  [readMemory address size] is [None] when
    the C++ call returns [false], and [Some ws] when it returns [true]
    after storing the bytes [ws] at the start of the caller's buffer. *)
Record IMemoryProvider : Type := mkProvider {
  readMemory : Z -> nat -> option (list Z);
  getModuleBase : string -> Z;
  getModuleSize : string -> nat;
  isValidAddress : Z -> bool
}.

(** [class PatternScanner]; the provider is held through a pointer that
    may be null. *)
Record PatternScanner : Type := mkScanner {
  m_memoryProvider : option IMemoryProvider;
  m_useBoyerMoore : bool
}.

(** [setUseBoyerMoore]. *)
Definition setUseBoyerMoore (useBoyerMoore : bool) (s : PatternScanner)
  : PatternScanner :=
  mkScanner (m_memoryProvider s) useBoyerMoore.

(** The buffer [std::vector<uint8_t> buffer(size)] after a provider
    stored [ws] at its start: the vector keeps its [size] elements. *)
Definition store_at_start (buffer ws : list Z) : list Z :=
  take (length buffer) ws ++ drop (length ws) buffer.

(** [PatternScanner::readMemoryRegion]: the snapshot, or the empty vector
    when the read fails. *)
Definition readMemoryRegion (prov : IMemoryProvider) (address : Z) (size : nat)
  : list Z :=
  let buffer := repeat 0 size in
  match readMemory prov address size with
  | Some ws => store_at_start buffer ws
  | None => []
  end.

Section Scan.

(** Width of [uintptr_t] in bits; [startAddress + i] wraps around. *)
Variable uintptr_bits : Z.

Definition uintptr_add (a : Z) (i : nat) : Z :=
  (a + Z.of_nat i) mod 2 ^ uintptr_bits.

(** The loop of [naiveScan]: [i] is the offset tried next, [n] the
    number of offsets left; the answer is the offset of the first match. *)
Fixpoint naiveScan_loop (pattern : Pattern) (memory : list Z) (i n : nat)
  : option nat :=
  match n with
  | O => None
  | S n' =>
      if matches pattern (drop i memory) then Some i
      else naiveScan_loop pattern memory (S i) n'
  end.

(** [PatternScanner::naiveScan].  [result] is the caller's object; it is
    written only when a match is found. *)
Definition naiveScan (prov : IMemoryProvider) (pattern : Pattern)
    (startAddress : Z) (size : nat) (result : PatternResult)
  : bool * PatternResult :=
  let memory := readMemoryRegion prov startAddress size in
  match memory with
  | [] => (false, result)
  | _ :: _ =>
      let patternSize := Memory.size pattern in
      if (length memory <? patternSize)%nat then (false, result)
      else
        match naiveScan_loop pattern memory 0
                (length memory - patternSize + 1) with
        | Some i =>
            (true,
             mkPatternResult (uintptr_add startAddress i) (getName pattern)
               (take patternSize (drop i memory)))
        | None => (false, result)
        end
  end.

(** [PatternScanner::boyerMooreScan]: the source forwards to the naive
    scan. *)
Definition boyerMooreScan (prov : IMemoryProvider) (pattern : Pattern)
    (startAddress : Z) (size : nat) (result : PatternResult)
  : bool * PatternResult :=
  naiveScan prov pattern startAddress size result.

(** [PatternScanner::scanSingle]. *)
Definition scanSingle (s : PatternScanner) (pattern : Pattern)
    (startAddress : Z) (size : nat) (result : PatternResult)
  : bool * PatternResult :=
  match m_memoryProvider s with
  | None => (false, result)
  | Some prov =>
      if negb (isValidAddress prov startAddress) then (false, result)
      else if m_useBoyerMoore s
           then boyerMooreScan prov pattern startAddress size result
           else naiveScan prov pattern startAddress size result
  end.

End Scan.

(** ** The other scans *)

Section ScanModules.

Variable uintptr_bits : Z.

(** [PatternScanner::scanModule].  The function calls through
    [m_memoryProvider] without testing it: with a null provider the
    behaviour is undefined, which the model returns as [None]. *)
Definition scanModule (s : PatternScanner) (pattern : Pattern)
    (moduleName : string) (result : PatternResult)
  : option (bool * PatternResult) :=
  match m_memoryProvider s with
  | None => None
  | Some prov =>
      let baseAddress := getModuleBase prov moduleName in
      if baseAddress =? 0 then Some (false, result)
      else
        let moduleSize := getModuleSize prov moduleName in
        if (moduleSize =? 0)%nat then Some (false, result)
        else Some (scanSingle uintptr_bits s pattern baseAddress moduleSize result)
  end.

(** The loop of [scanMultiple]: each pattern is scanned into a fresh
    [PatternResult], which is pushed back when the scan succeeds. *)
Definition scanMultiple_step (s : PatternScanner) (startAddress : Z)
    (size : nat) (results : list PatternResult) (pattern : Pattern)
  : list PatternResult :=
  let '(found, result) :=
    scanSingle uintptr_bits s pattern startAddress size PatternResult_new in
  if found then results ++ [result] else results.

(** [PatternScanner::scanMultiple]. *)
Definition scanMultiple (s : PatternScanner) (patterns : list Pattern)
    (startAddress : Z) (size : nat) : list PatternResult :=
  fold_left (scanMultiple_step s startAddress size) patterns [].

(** [PatternScanner::scanEntireProcess]. *)
Definition scanEntireProcess (s : PatternScanner) (pattern : Pattern)
    (result : PatternResult) : option (bool * PatternResult) :=
  scanModule s pattern "supertux.exe" result.

End ScanModules.

(** [naiveScan] is a function of the snapshot: the provider matters
    only through the bytes it returned. *)
Definition scan_snapshot (uintptr_bits : Z) (pattern : Pattern)
    (startAddress : Z) (memory : list Z) (result : PatternResult)
  : bool * PatternResult :=
  match memory with
  | [] => (false, result)
  | _ :: _ =>
      if (length memory <? Memory.size pattern)%nat then (false, result)
      else
        match naiveScan_loop pattern memory 0
                (length memory - Memory.size pattern + 1) with
        | Some i =>
            (true,
             mkPatternResult (uintptr_add uintptr_bits startAddress i)
               (getName pattern)
               (take (Memory.size pattern) (drop i memory)))
        | None => (false, result)
        end
  end.

(** A provider over one region [data] based at [base], for running the
    scanner: reads inside the region succeed, others fail. *)
Definition region_provider (base : Z) (data : list Z) : IMemoryProvider :=
  mkProvider
    (fun address size =>
       if (base <=? address)
          && (address + Z.of_nat size <=? base + Z.of_nat (length data))
       then Some (take size (drop (Z.to_nat (address - base)) data))
       else None)
    (fun _ => base)
    (fun _ => length data)
    (fun address =>
       (base <=? address) && (address <? base + Z.of_nat (length data))).

Definition example_region : list Z :=
  [0x90; 0x90; 0x8B; 0x05; 0x78; 0x90; 0x8B; 0x05; 0x79].

Definition example_scanner (useBoyerMoore : bool) : PatternScanner :=
  mkScanner (Some (region_provider 0x400000 example_region)) useBoyerMoore.

Definition empty_result : PatternResult := mkPatternResult 0 "" [].

(** The pattern ["8B 05 ??"], which first occurs at offset 2 of
    [example_region]. *)
Definition example_scan_pattern : Pattern :=
  mkPattern [0x8B; 0x05; 0x00] [true; true; false] "mov".

End Scanner.

(* ===================================================================== *)
(** * [scanner::MockMemoryProvider] *)
(* ===================================================================== *)

Module Mock.
Import Scanner.

(** [std::map<uintptr_t, std::vector<uint8_t>>]: the entries in the
    order of the map, that is by ascending key, one per key. *)
Definition region_map : Type := list (Z * list Z).

(** [map[key] = data]: overwrite the entry of the key, or insert one at
    its place in the order. *)
Fixpoint map_assign (key : Z) (data : list Z) (m : region_map) : region_map :=
  match m with
  | [] => [(key, data)]
  | (k, d) :: rest =>
      if key <? k then (key, data) :: (k, d) :: rest
      else if key =? k then (key, data) :: rest
      else (k, d) :: map_assign key data rest
  end.

(** [map.lower_bound(address)]: the first entry whose key is not less
    than [address]; [None] for [end()]. *)
Definition lower_bound (address : Z) (m : region_map) : option (Z * list Z) :=
  find (fun entry => address <=? fst entry) m.

(** The members of [MockMemoryProvider]. *)
Record MockMemoryProvider : Type := mkMock {
  m_memoryRegions : region_map;
  m_moduleBases : gmap string Z;
  m_moduleSizes : gmap string nat
}.

Section MockProvider.

(** Width in bits of [uintptr_t] and of [size_t], which the targets of
    the trainer give the same width; sums of the two wrap around. *)
Variable uintptr_bits : Z.

Definition wrap (v : Z) : Z := v mod 2 ^ uintptr_bits.

(** [MockMemoryProvider::readMemory]: [None] for [false]; [Some ws] for
    [true], [ws] being the bytes [memcpy] stores in the buffer.  (When
    the sums wrap around, [memcpy] can be asked for bytes beyond the
    region, which C++ leaves undefined; the model then copies the bytes
    the region has.) *)
Definition readMemory (m : MockMemoryProvider) (address : Z) (size : nat)
  : option (list Z) :=
  match lower_bound address (m_memoryRegions m) with
  | None => None
  | Some (regionStart, regionData) =>
      if (address <? regionStart)
         || (wrap (regionStart + Z.of_nat (length regionData))
             <? wrap (address + Z.of_nat size))
      then None
      else
        let offset := wrap (address - regionStart) in
        Some (take size (drop (Z.to_nat offset) regionData))
  end.

(** [MockMemoryProvider::getModuleBase] and [getModuleSize]. *)
Definition getModuleBase (m : MockMemoryProvider) (moduleName : string) : Z :=
  match m_moduleBases m !! moduleName with
  | Some base => base
  | None => 0
  end.

Definition getModuleSize (m : MockMemoryProvider) (moduleName : string) : nat :=
  match m_moduleSizes m !! moduleName with
  | Some size => size
  | None => 0%nat
  end.

(** [MockMemoryProvider::isValidAddress]: the loop over the regions. *)
Definition isValidAddress (m : MockMemoryProvider) (address : Z) : bool :=
  existsb
    (fun region =>
       (fst region <=? address)
       && (address <? wrap (fst region + Z.of_nat (length (snd region)))))
    (m_memoryRegions m).

(** The object seen through [IMemoryProvider]. *)
Definition provider (m : MockMemoryProvider) : IMemoryProvider :=
  mkProvider (readMemory m) (getModuleBase m) (getModuleSize m)
    (isValidAddress m).

End MockProvider.

(** [MockMemoryProvider::addMemoryRegion]. *)
Definition addMemoryRegion (baseAddress : Z) (data : list Z)
    (m : MockMemoryProvider) : MockMemoryProvider :=
  mkMock (map_assign baseAddress data (m_memoryRegions m))
    (m_moduleBases m) (m_moduleSizes m).

(** [MockMemoryProvider::addModule]. *)
Definition addModule (name : string) (baseAddress : Z) (size : nat)
    (m : MockMemoryProvider) : MockMemoryProvider :=
  mkMock (m_memoryRegions m)
    (<[name := baseAddress]> (m_moduleBases m))
    (<[name := size]> (m_moduleSizes m)).

(** The members before [initializeMockMemory] runs. *)
Definition empty_mock : MockMemoryProvider := mkMock [] ∅ ∅.

(** [MockMemoryProvider::initializeMockMemory]: the module
    ["supertux.exe"], its region filled with [0x90] that holds three
    byte sequences, and a heap region holding two 32-bit values (stored
    low byte first, as the targets of the trainer do). *)
Definition initializeMockMemory (m : MockMemoryProvider) : MockMemoryProvider :=
  let supertuxBase := 0x400000 in
  let supertuxSize := Z.to_nat 0x100000 in
  let m1 := addModule "supertux.exe" supertuxBase supertuxSize m in
  let mockMemory :=
    list_inserts (Z.to_nat 0x34567) [0x55; 0x8B; 0xEC]
      (list_inserts (Z.to_nat 0x23456) [0x01; 0x1D; 0xBC; 0x9A; 0x78; 0x56]
         (list_inserts (Z.to_nat 0x12345) [0x8B; 0x05; 0x78; 0x56; 0x34; 0x12]
            (repeat 0x90 supertuxSize))) in
  let m2 := addMemoryRegion supertuxBase mockMemory m1 in
  let heapData :=
    list_inserts (Z.to_nat 0x1004) [50; 0; 0; 0]
      (list_inserts (Z.to_nat 0x1000) [100; 0; 0; 0]
         (repeat 0x00 (Z.to_nat 0x10000))) in
  addMemoryRegion 0x500000 heapData m2.

(** The constructor [MockMemoryProvider()]. *)
Definition MockMemoryProvider_new : MockMemoryProvider :=
  initializeMockMemory empty_mock.

(** The mocks a program can hold: the constructor, followed by calls of
    [addMemoryRegion] and [addModule]. *)
Inductive constructed : MockMemoryProvider -> Prop :=
| constructed_new : constructed MockMemoryProvider_new
| constructed_region (baseAddress : Z) (data : list Z) (m : MockMemoryProvider) :
    constructed m -> constructed (addMemoryRegion baseAddress data m)
| constructed_module (name : string) (baseAddress : Z) (size : nat)
    (m : MockMemoryProvider) :
    constructed m -> constructed (addModule name baseAddress size m).

(** The order of the map: keys strictly ascending. *)
Definition ordered (m : region_map) : Prop :=
  StronglySorted Z.lt (fst <$> m).

(** The regions lie in the address space: keys are [uintptr_t] values
    and no region runs past the last address. *)
Definition regions_in_range (uintptr_bits : Z) (m : region_map) : Prop :=
  Forall (fun region =>
            0 <= fst region /\
            fst region + Z.of_nat (length (snd region)) < 2 ^ uintptr_bits) m.

(** A small mock for running the functions: a code region and a heap
    region, and the module of the code region. *)
Definition example_mock : MockMemoryProvider :=
  addModule "game.exe" 0x400000 8
    (addMemoryRegion 0x400000 [0x55; 0x8B; 0xEC; 0x90; 0x8B; 0x05; 0x78; 0xC3]
       (addMemoryRegion 0x500000 [100; 0; 0; 0; 50; 0; 0; 0] empty_mock)).

End Mock.

(* ===================================================================== *)
(** * namespace hooks *)
(* ===================================================================== *)

Module Hooks.

(** [enum class MHStatus]. *)
Inductive MHStatus : Type :=
| MH_OK
| MH_ERROR_ALREADY_INITIALIZED
| MH_ERROR_NOT_INITIALIZED
| MH_ERROR_ALREADY_CREATED
| MH_ERROR_NOT_CREATED
| MH_ERROR_ENABLED
| MH_ERROR_DISABLED
| MH_ERROR_NOT_EXECUTABLE
| MH_ERROR_UNSUPPORTED_FUNCTION
| MH_ERROR_MEMORY_ALLOC
| MH_ERROR_MEMORY_PROTECT
| MH_ERROR_MODULE_NOT_FOUND
| MH_ERROR_FUNCTION_NOT_FOUND.

#[global] Instance MHStatus_eq_dec : EqDecision MHStatus.
Proof. solve_decision. Defined.

(** [enum class HookType]. *)
Inductive HookType : Type := HOOK_JMP | HOOK_CALL | HOOK_VTABLE.

(** [struct HookInfo]. *)
Record HookInfo : Type := mkHookInfo {
  name : string;
  targetAddress : Z;
  hookFunction : Z;
  originalFunction : Z;
  type : HookType;
  enabled : bool
}.

(** The constructor [HookInfo(n, target, hook, t = HOOK_JMP)]. *)
Definition HookInfo_new (n : string) (target hook : Z) : HookInfo :=
  mkHookInfo n target hook 0 HOOK_JMP false.

Definition set_originalFunction (v : Z) (h : HookInfo) : HookInfo :=
  mkHookInfo (name h) (targetAddress h) (hookFunction h) v (type h) (enabled h).

Definition set_enabled (v : bool) (h : HookInfo) : HookInfo :=
  mkHookInfo (name h) (targetAddress h) (hookFunction h) (originalFunction h)
    (type h) v.

(** The static members of [MinHookWrapper]: the process-wide state every
    operation reads and writes. *)
Record State : Type := mkState {
  s_initialized : bool;
  s_lastError : string;
  s_hooks : list HookInfo
}.

(** The values of the static member initialisation. *)
Definition initial_state : State := mkState false "" [].

Definition set_lastError (msg : string) (st : State) : State :=
  mkState (s_initialized st) msg (s_hooks st).

(** [std::find_if(s_hooks.begin(), s_hooks.end(), h.targetAddress ==
    targetAddr)]: position and value of the first record of the target,
    [None] for [s_hooks.end()]. *)
Definition find_hook (targetAddr : Z) (hooks : list HookInfo)
  : option (nat * HookInfo) :=
  list_find (fun h => targetAddress h = targetAddr) hooks.

(** [MinHookWrapper::initialize]. *)
Definition initialize (st : State) : MHStatus * State :=
  if s_initialized st
  then (MH_ERROR_ALREADY_INITIALIZED,
        set_lastError "MinHook already initialized" st)
  else (MH_OK,
        mkState true "Initialized successfully (mock implementation)"
          (s_hooks st)).

(** [MinHookWrapper::createHook(target, hook, original)].  The second
    component of the answer is the value stored through [original], when
    the call stores one (the pointer is written only on success). *)
Definition createHook (target hook : Z) (st : State)
  : MHStatus * option Z * State :=
  if negb (s_initialized st)
  then (MH_ERROR_NOT_INITIALIZED, None,
        set_lastError "MinHook not initialized" st)
  else
    match find_hook target (s_hooks st) with
    | Some _ =>
        (MH_ERROR_ALREADY_CREATED, None,
         set_lastError "Hook already exists for this address" st)
    | None =>
        let hookInfo := set_originalFunction target (HookInfo_new "" target hook) in
        (MH_OK, Some (originalFunction hookInfo),
         mkState (s_initialized st) "Hook created successfully (mock)"
           (s_hooks st ++ [hookInfo]))
    end.

(** [MinHookWrapper::enableHook]. *)
Definition enableHook (target : Z) (st : State) : MHStatus * State :=
  if negb (s_initialized st)
  then (MH_ERROR_NOT_INITIALIZED, set_lastError "MinHook not initialized" st)
  else
    match find_hook target (s_hooks st) with
    | None => (MH_ERROR_NOT_CREATED, set_lastError "Hook not found" st)
    | Some (i, h) =>
        if enabled h
        then (MH_ERROR_ENABLED, set_lastError "Hook already enabled" st)
        else (MH_OK,
              mkState (s_initialized st) "Hook enabled successfully (mock)"
                (alter (set_enabled true) i (s_hooks st)))
    end.

(** [MinHookWrapper::disableHook]. *)
Definition disableHook (target : Z) (st : State) : MHStatus * State :=
  if negb (s_initialized st)
  then (MH_ERROR_NOT_INITIALIZED, set_lastError "MinHook not initialized" st)
  else
    match find_hook target (s_hooks st) with
    | None => (MH_ERROR_NOT_CREATED, set_lastError "Hook not found" st)
    | Some (i, h) =>
        if negb (enabled h)
        then (MH_ERROR_DISABLED, set_lastError "Hook already disabled" st)
        else (MH_OK,
              mkState (s_initialized st) "Hook disabled successfully (mock)"
                (alter (set_enabled false) i (s_hooks st)))
    end.

(** [MinHookWrapper::removeHook] up to the call of [erase]: the two
    guards, the lookup, and the call of [disableHook] on an enabled
    record.  The answer is the status and state of the guard that
    returns, or the position of the iterator together with the static
    state in which [s_hooks.erase(it)] then runs. *)
Definition removeHook_lookup (target : Z) (st : State)
  : (MHStatus * State) + (nat * State) :=
  if negb (s_initialized st)
  then inl (MH_ERROR_NOT_INITIALIZED,
            set_lastError "MinHook not initialized" st)
  else
    match find_hook target (s_hooks st) with
    | None => inl (MH_ERROR_NOT_CREATED, set_lastError "Hook not found" st)
    | Some (i, h) =>
        inr (i, if enabled h then snd (disableHook target st) else st)
    end.

(** The rest of [removeHook]: the record under the iterator is erased. *)
Definition removeHook_erase (i : nat) (st : State) : MHStatus * State :=
  (MH_OK,
   mkState (s_initialized st) "Hook removed successfully"
     (delete i (s_hooks st))).

(** [MinHookWrapper::removeHook]: an enabled record is disabled through
    [disableHook] before the iterator is erased. *)
Definition removeHook (target : Z) (st : State) : MHStatus * State :=
  match removeHook_lookup target st with
  | inl returned => returned
  | inr (i, st1) => removeHook_erase i st1
  end.

(** The loop of [uninitialize] over [s_hooks]: [i] is the position of
    the record visited next, [n] the number of records left. *)
Fixpoint uninitialize_loop (i n : nat) (st : State) : State :=
  match n with
  | O => st
  | S n' =>
      let st' :=
        match s_hooks st !! i with
        | Some hook =>
            if enabled hook then snd (disableHook (targetAddress hook) st)
            else st
        | None => st
        end in
      uninitialize_loop (S i) n' st'
  end.

(** [MinHookWrapper::uninitialize]. *)
Definition uninitialize (st : State) : MHStatus * State :=
  if negb (s_initialized st)
  then (MH_ERROR_NOT_INITIALIZED, set_lastError "MinHook not initialized" st)
  else
    (* the writes of the loop are overwritten by [clear] and the two
       assignments that follow it *)
    let st1 := uninitialize_loop 0 (length (s_hooks st)) st in
    (MH_OK, mkState false "Uninitialized successfully" []).

(** [MinHookWrapper::isInitialized], [MinHookWrapper::getLastError]. *)
Definition isInitialized (st : State) : bool := s_initialized st.
Definition getLastError (st : State) : string := s_lastError st.

(** [class FunctionHook]. *)
Record FunctionHook : Type := mkFunctionHook {
  m_name : string;
  m_targetAddress : Z;
  m_hookFunction : Z;
  m_originalFunction : Z;
  m_type : HookType;
  m_installed : bool;
  m_enabled : bool
}.

(** The constructor of [FunctionHook]. *)
Definition FunctionHook_new (n : string) (targetAddress hookFunction : Z)
    (t : HookType) : FunctionHook :=
  mkFunctionHook n targetAddress hookFunction 0 t false false.

Definition isInstalled (fh : FunctionHook) : bool := m_installed fh.
Definition isEnabled (fh : FunctionHook) : bool := m_enabled fh.
Definition getOriginal (fh : FunctionHook) : Z := m_originalFunction fh.

Definition set_m_installed (v : bool) (fh : FunctionHook) : FunctionHook :=
  mkFunctionHook (m_name fh) (m_targetAddress fh) (m_hookFunction fh)
    (m_originalFunction fh) (m_type fh) v (m_enabled fh).

Definition set_m_enabled (v : bool) (fh : FunctionHook) : FunctionHook :=
  mkFunctionHook (m_name fh) (m_targetAddress fh) (m_hookFunction fh)
    (m_originalFunction fh) (m_type fh) (m_installed fh) v.

Definition set_m_originalFunction (v : Z) (fh : FunctionHook) : FunctionHook :=
  mkFunctionHook (m_name fh) (m_targetAddress fh) (m_hookFunction fh)
    v (m_type fh) (m_installed fh) (m_enabled fh).

(** The methods of [FunctionHook] act on the object and on the static
    state of [MinHookWrapper]; each returns its [bool] and both. *)
Definition method (A : Type) : Type :=
  FunctionHook -> State -> A * FunctionHook * State.

(** [FunctionHook::install].  [createHook] receives
    [&m_originalFunction]. *)
Definition install : method bool := fun fh st =>
  if m_installed fh then (true, fh, st)
  else
    let '(status, original, st') :=
      createHook (m_targetAddress fh) (m_hookFunction fh) st in
    let fh' :=
      match original with
      | Some v => set_m_originalFunction v fh
      | None => fh
      end in
    if decide (status = MH_OK)
    then (true, set_m_installed true fh', st')
    else (false, fh', st').

(** [FunctionHook::enable]. *)
Definition enable : method bool := fun fh st =>
  if negb (m_installed fh) then (false, fh, st)
  else if m_enabled fh then (true, fh, st)
  else
    let '(status, st') := enableHook (m_targetAddress fh) st in
    if decide (status = MH_OK)
    then (true, set_m_enabled true fh, st')
    else (false, fh, st').

(** [FunctionHook::disable]. *)
Definition disable : method bool := fun fh st =>
  if negb (m_installed fh) || negb (m_enabled fh) then (true, fh, st)
  else
    let '(status, st') := disableHook (m_targetAddress fh) st in
    if decide (status = MH_OK)
    then (true, set_m_enabled false fh, st')
    else (false, fh, st').

(** [FunctionHook::remove]. *)
Definition remove : method bool := fun fh st =>
  if negb (m_installed fh) then (true, fh, st)
  else
    let '(fh1, st1) :=
      if m_enabled fh
      then let '(_, fh1, st1) := disable fh st in (fh1, st1)
      else (fh, st) in
    let '(status, st2) := removeHook (m_targetAddress fh1) st1 in
    if decide (status = MH_OK)
    then (true, set_m_originalFunction 0 (set_m_installed false fh1), st2)
    else (false, fh1, st2).

(** [FunctionHook::~FunctionHook]: the object is gone afterwards; what
    remains is the static state. *)
Definition destroy (fh : FunctionHook) (st : State) : State :=
  if m_installed fh
  then let '(_, _, st') := remove fh st in st'
  else st.

(** ** Reachable states of the hook table *)

(** The operations of [MinHookWrapper] that write the static state; the
    methods of [FunctionHook] reach it only through them. *)
Inductive operation : Type :=
| OpInitialize
| OpUninitialize
| OpCreateHook (target hook : Z)
| OpEnableHook (target : Z)
| OpDisableHook (target : Z)
| OpRemoveHook (target : Z).

Definition run (o : operation) (st : State) : State :=
  match o with
  | OpInitialize => snd (initialize st)
  | OpUninitialize => snd (uninitialize st)
  | OpCreateHook target hook => snd (createHook target hook st)
  | OpEnableHook target => snd (enableHook target st)
  | OpDisableHook target => snd (disableHook target st)
  | OpRemoveHook target => snd (removeHook target st)
  end.

(** The states a program can be in: the initial values of the static
    members, followed by any sequence of operations. *)
Inductive reachable : State -> Prop :=
| reachable_initial : reachable initial_state
| reachable_step (o : operation) (st : State) :
    reachable st -> reachable (run o st).

(** The records of a target in the table. *)
Definition records_of (target : Z) (st : State) : list HookInfo :=
  filter (fun h => targetAddress h = target) (s_hooks st).

(** The invariant of the static state: the targets of the table are
    pairwise distinct, and the table is empty while uninitialized. *)
Definition table_invariant (st : State) : Prop :=
  NoDup (targetAddress <$> s_hooks st) /\
  (s_initialized st = false -> s_hooks st = []).

(** The state after [initialize], and a hook object for the target
    [0x400000] with the routine [0x401000]. *)
Definition ready_state : State := snd (initialize initial_state).

Definition example_hook : FunctionHook :=
  FunctionHook_new "health_hook" 0x400000 0x401000 HOOK_JMP.

(** The state after [createHook(0x400000, 0x401000, _)], and after
    [enableHook(0x400000)] on top of it. *)
Definition created_state : State :=
  run (OpCreateHook 0x400000 0x401000) (run OpInitialize initial_state).

Definition enabled_state : State := run (OpEnableHook 0x400000) created_state.

(** [example_hook] after [install()] and after [install(); enable()],
    with the static state each call leaves. *)
Definition installed_example : FunctionHook * State :=
  let '(_, fh, st) := install example_hook ready_state in (fh, st).

Definition enabled_example : FunctionHook * State :=
  let '(_, fh, st) := enable (fst installed_example) (snd installed_example)
  in (fh, st).

End Hooks.

(* ===================================================================== *)
(** * namespace ui *)
(* ===================================================================== *)

Module UI.
Import Memory Scanner Hooks.

(** The members of [ConsoleUI]; the scanner is held through a pointer. *)
Record ConsoleUI : Type := mkConsoleUI {
  m_scanner : option PatternScanner;
  m_scanResults : list PatternResult;
  m_hooks : list FunctionHook;
  m_running : bool
}.

(** [std::endl], as the character it writes. *)
Definition endl : string := String (ascii_of_nat 10) EmptyString.

Definition set_m_hooks (hooks : list FunctionHook) (ui : ConsoleUI) : ConsoleUI :=
  mkConsoleUI (m_scanner ui) (m_scanResults ui) hooks (m_running ui).

(** [ConsoleUI::ConsoleUI(scanner)]: the text written on [std::cerr],
    the object and the static state of the engine. *)
Definition ConsoleUI_new (scanner : option PatternScanner) (st : State)
  : string * ConsoleUI * State :=
  let '(status, st1) := initialize st in
  let err :=
    if decide (status = MH_OK) then ""%string
    else ("Failed to initialize MinHook: " ++ getLastError st1 ++ endl)%string in
  (err, mkConsoleUI scanner [] [] true, st1).

(** The loop of the destructor: [hook->remove()] on every hook. *)
Fixpoint remove_all (hooks : list FunctionHook) (st : State)
  : list FunctionHook * State :=
  match hooks with
  | [] => ([], st)
  | hook :: rest =>
      let '(_, hook', st1) := remove hook st in
      let '(rest', st2) := remove_all rest st1 in
      (hook' :: rest', st2)
  end.

(** The destruction of the member [m_hooks]: the destructor of each
    [FunctionHook] it owns. *)
Definition destroy_all (hooks : list FunctionHook) (st : State) : State :=
  fold_left (fun st hook => destroy hook st) hooks st.

(** [ConsoleUI::~ConsoleUI]: the body, then the members. *)
Definition ConsoleUI_destroy (ui : ConsoleUI) (st : State) : State :=
  let '(hooks, st1) := remove_all (m_hooks ui) st in
  let st2 := snd (uninitialize st1) in
  destroy_all hooks st2.

Section Commands.

(** [ULONG_MAX] and the width of [uintptr_t] of the platform. *)
Variable ULONG_MAX : Z.
Variable uintptr_bits : Z.

(** [std::cout << std::hex << address]: the digits, in lower case. *)
Definition put_hex_address (address : Z) : string :=
  string_of_list_ascii (hex_digits_upto (Z.to_nat uintptr_bits) address).

(** The text of the exception, as [e.what()] gives it. *)
Definition what (e : exn) : string :=
  match e with
  | invalid_argument msg => msg
  | out_of_range msg => msg
  end.

(** [ConsoleUI::processHookCommand(iss)]: the text written on
    [std::cout], the object and the static state.  [iss] is what is
    left of the command line.  The hook object lives until the end of
    the [try] block unless it is moved into [m_hooks]. *)
Definition processHookCommand (iss : list ascii) (ui : ConsoleUI) (st : State)
  : string * ConsoleUI * State :=
  let addrStr := nth 0 (tokens iss) [] in
  let hookName := nth 1 (tokens iss) [] in
  match addrStr with
  | [] =>
      (("Usage: hook <address> <hook_name>" ++ endl ++
        "Example: hook 0x12345678 health_hook" ++ endl)%string, ui, st)
  | _ :: _ =>
      match stoul ULONG_MAX addrStr with
      | inl e => (("Error: " ++ what e ++ endl)%string, ui, st)
      | inr value =>
          let address := value mod 2 ^ uintptr_bits in
          let hookFunction := (address + 0x1000) mod 2 ^ uintptr_bits in
          let hook :=
            FunctionHook_new
              (match hookName with
               | [] => "unnamed_hook"%string
               | _ :: _ => string_of_list_ascii hookName
               end)
              address hookFunction HOOK_JMP in
          let '(installed, hook1, st1) := install hook st in
          if installed then
            let '(enabled, hook2, st2) := enable hook1 st1 in
            if enabled then
              (("Hook created and enabled at 0x" ++ put_hex_address address
                ++ endl)%string,
               set_m_hooks (m_hooks ui ++ [hook2]) ui, st2)
            else
              (("Hook created but failed to enable" ++ endl)%string,
               ui, destroy hook2 st2)
          else
            (("Failed to create hook: " ++ getLastError st1 ++ endl)%string,
             ui, destroy hook1 st1)
      end
  end.

End Commands.

End UI.

(* ===================================================================== *)
(** * Properties of [memory::Pattern] *)
(* ===================================================================== *)

Module PatternFacts.
Import Memory.

(** ** Lemmas on [matches] *)

Lemma matches_loop_true (p : Pattern) (data : list Z) (n i : nat) :
  matches_loop p data i n = true <->
  (forall j, (i <= j < i + n)%nat ->
             nth j (m_mask p) false = true ->
             nth j data 0 = nth j (m_bytes p) 0).
Proof.
  revert i. induction n as [|n IH]; intros i; simpl.
  - split; [intros _ j Hj; lia | reflexivity].
  - destruct (nth i (m_mask p) false) eqn:Hm; simpl.
    + destruct (Z.eqb_spec (nth i data 0) (nth i (m_bytes p) 0)) as [He|He]; simpl.
      * rewrite IH. split; intros H j Hj Hmj.
        -- destruct (Nat.eq_dec j i) as [->|Hne]; [exact He|].
           apply H; [lia | exact Hmj].
        -- apply H; [lia | exact Hmj].
      * split; [discriminate|].
        intros H. exfalso. apply He. apply H; [lia | exact Hm].
    + rewrite IH. split; intros H j Hj Hmj.
      * destruct (Nat.eq_dec j i) as [->|Hne]; [congruence|].
        apply H; [lia | exact Hmj].
      * apply H; [lia | exact Hmj].
Qed.

Lemma matches_true (p : Pattern) (data : list Z) :
  matches p data = true <->
  (forall i, (i < size p)%nat ->
             nth i (m_mask p) false = true ->
             nth i data 0 = nth i (m_bytes p) 0).
Proof.
  unfold matches. rewrite matches_loop_true.
  split; intros H i Hi; apply H; lia.
Qed.

(** C1.  For a pattern [p] and a buffer [B] of at least [size p] bytes,
    [matches p B] is [true] exactly when every fixed position [i] (mask
    [true]) has [B[i]] equal to the stored byte; and two buffers that
    agree on the fixed positions get the same answer, whatever they hold
    at the wildcard positions. *)
Theorem matches_iff_fixed_positions (p : Pattern) (B : list Z) :
  (size p <= length B)%nat ->
  (matches p B = true <->
   forall i, (i < size p)%nat -> nth i (m_mask p) false = true ->
             nth i B 0 = nth i (m_bytes p) 0)
  /\
  (forall B' : list Z,
     (size p <= length B')%nat ->
     (forall i, (i < size p)%nat -> nth i (m_mask p) false = true ->
                nth i B' 0 = nth i B 0) ->
     matches p B' = matches p B).
Proof.
  intros _. split; [apply matches_true|].
  intros B' _ Hagree.
  apply eq_true_iff_eq. rewrite !matches_true.
  split; intros H i Hi Hm.
  - rewrite <- (Hagree i Hi Hm). apply H; assumption.
  - rewrite (Hagree i Hi Hm). apply H; assumption.
Qed.

Lemma matches_iff_fixed_positions_witness :
  (size example_pattern <= length example_buffer)%nat /\
  matches example_pattern example_buffer = true.
Proof.
  assert (Hlen : (size example_pattern <= length example_buffer)%nat)
    by (vm_compute; lia).
  split; [exact Hlen|].
  apply (proj1 (matches_iff_fixed_positions example_pattern example_buffer Hlen)).
  intros [|[|[|[|i]]]] Hi Hm; vm_compute in Hi, Hm |- *;
    try reflexivity; try discriminate; lia.
Defined.

(** The scenarios of the simple test: ["48 8B 05"] against two
    buffers, and a pattern with wildcards. *)
Example scenario_fixed_pattern :
  exists p,
    Pattern_of_string ULONG_MAX_LP64 "48 8B 05" "Simple Pattern" = inr p /\
    matches p [0x48; 0x8B; 0x05; 0x12] = true /\
    matches p [0x48; 0x8B; 0x06; 0x12] = false.
Proof. eexists. split; [reflexivity|]. split; reflexivity. Qed.

Example scenario_wildcard_pattern :
  exists p,
    Pattern_of_string ULONG_MAX_LP64 "48 8B ?? ?? ?? ?? 90" "Wildcard Pattern"
      = inr p /\
    matches p [0x48; 0x8B; 0x12; 0x34; 0x56; 0x78; 0x90] = true /\
    isWildcard p 2 = inr true /\
    isWildcard p 0 = inr false /\
    toString p = "48 8b ?? ?? ?? ?? 90"%string.
Proof. eexists. split; [reflexivity|]. repeat split. Qed.

(** ** The parsing loop *)

Lemma parse_token_accepted (M : Z) (t : list ascii) :
  token_accepted M t = true ->
  parse_token M t = inr (token_byte M t, token_fixed t).
Proof.
  unfold token_accepted, token_byte, token_fixed, parse_token, stoul.
  destruct (decide (t = wildcard_token)) as [->|Hne].
  - intros _. reflexivity.
  - rewrite bool_decide_eq_false_2 by exact Hne. simpl.
    destruct (strtoul_scan t) as [[neg v]|]; [|discriminate].
    intros Hle. apply Z.leb_le in Hle.
    destruct (Z.ltb_spec M v); [lia|]. reflexivity.
Qed.

Lemma parse_token_rejected (M : Z) (t : list ascii) :
  token_accepted M t = false ->
  parse_token M t =
  inl (invalid_argument ("Invalid pattern token: " ++ string_of_list_ascii t)).
Proof.
  unfold token_accepted, parse_token, stoul.
  destruct (decide (t = wildcard_token)) as [->|Hne].
  - rewrite bool_decide_eq_true_2 by reflexivity. discriminate.
  - rewrite bool_decide_eq_false_2 by exact Hne. simpl.
    destruct (strtoul_scan t) as [[neg v]|]; [|reflexivity].
    intros Hle. apply Z.leb_gt in Hle.
    destruct (Z.ltb_spec M v); [reflexivity|lia].
Qed.

Lemma parse_loop_accepted (M : Z) (toks : list (list ascii)) (p : Pattern) :
  Forall (fun t => token_accepted M t = true) toks ->
  parse_loop M toks p =
  inr (mkPattern (m_bytes p ++ map (token_byte M) toks)
                 (m_mask p ++ map token_fixed toks) (m_name p)).
Proof.
  revert p. induction toks as [|t toks IH]; intros p Hall; simpl.
  - rewrite !app_nil_r. destruct p; reflexivity.
  - inversion Hall as [|? ? Ht Hrest]; subst.
    rewrite (parse_token_accepted _ _ Ht).
    rewrite (IH _ Hrest). simpl.
    rewrite <- !app_assoc. reflexivity.
Qed.

Lemma parse_loop_rejected (M : Z) (toks : list (list ascii)) (p : Pattern) :
  Exists (fun t => token_accepted M t = false) toks ->
  exists msg, parse_loop M toks p = inl (invalid_argument msg).
Proof.
  revert p. induction toks as [|t toks IH]; intros p Hex; simpl.
  - inversion Hex.
  - destruct (token_accepted M t) eqn:Ht.
    + rewrite (parse_token_accepted _ _ Ht).
      apply IH. inversion Hex; subst; [congruence|assumption].
    + rewrite (parse_token_rejected _ _ Ht). eauto.
Qed.

Lemma accepted_or_rejected (M : Z) (toks : list (list ascii)) :
  Forall (fun t => token_accepted M t = true) toks \/
  Exists (fun t => token_accepted M t = false) toks.
Proof.
  induction toks as [|t toks [IH|IH]].
  - left. constructor.
  - destruct (token_accepted M t) eqn:Ht.
    + left. constructor; assumption.
    + right. apply Exists_cons_hd. exact Ht.
  - right. apply Exists_cons_tl. exact IH.
Qed.

(** The constructor from a string, as a function of the tokens. *)
Lemma Pattern_of_string_accepted (M : Z) (s name : string) :
  let toks := tokens (list_ascii_of_string s) in
  toks <> [] ->
  Forall (fun t => token_accepted M t = true) toks ->
  Pattern_of_string M s name =
  inr (mkPattern (map (token_byte M) toks) (map token_fixed toks) name).
Proof.
  intros toks Hne Hall.
  unfold Pattern_of_string, parsePatternString. fold toks.
  rewrite (parse_loop_accepted _ _ _ Hall). simpl.
  destruct toks as [|t toks']; [congruence|]. reflexivity.
Qed.

Lemma Pattern_of_string_fails_iff (M : Z) (s name : string) :
  let toks := tokens (list_ascii_of_string s) in
  (exists msg, Pattern_of_string M s name = inl (invalid_argument msg)) <->
  (toks = [] \/ Exists (fun t => token_accepted M t = false) toks).
Proof.
  intros toks. split.
  - intros [msg Hfail].
    destruct toks as [|t toks'] eqn:Htoks; [left; reflexivity|].
    right. destruct (accepted_or_rejected M (t :: toks')) as [Hall|Hex];
      [|exact Hex].
    rewrite Pattern_of_string_accepted in Hfail.
    + discriminate.
    + fold toks. rewrite Htoks. discriminate.
    + fold toks. rewrite Htoks. exact Hall.
  - intros [Hnil|Hex].
    + unfold Pattern_of_string, parsePatternString. fold toks.
      rewrite Hnil. simpl. eauto.
    + unfold Pattern_of_string, parsePatternString. fold toks.
      destruct (parse_loop_rejected M toks (mkPattern [] [] name) Hex)
        as [msg ->].
      eauto.
Qed.

Lemma hex_digit_value_range (c : ascii) (d : Z) :
  hex_digit_value c = Some d -> 0 <= d < 16.
Proof.
  destruct c as [[] [] [] [] [] [] [] []]; vm_compute;
    intros [= <-]; split; congruence.
Qed.

Lemma hex_digit_not_special (c : ascii) :
  is_hex_digit c = true ->
  isspace c = false /\ c <> "-"%char /\ c <> "+"%char /\
  c <> "x"%char /\ c <> "X"%char /\ c <> "?"%char.
Proof.
  destruct c as [[] [] [] [] [] [] [] []]; vm_compute;
    intros H; try discriminate H; repeat split; discriminate.
Qed.

Lemma in_grammar_accepted (M : Z) (t : list ascii) :
  255 <= M ->
  in_grammar t = true ->
  token_accepted M t = true /\
  (t <> wildcard_token ->
   parse_token M t = inr (two_digit_value t, true)).
Proof.
  intros HM Hg. unfold in_grammar in Hg.
  destruct t as [|c1 [|c2 [|c3 t]]]; try discriminate.
  destruct (decide ([c1; c2] = wildcard_token)) as [Hw|Hw].
  { split; [|congruence].
    unfold token_accepted. rewrite bool_decide_eq_true_2 by exact Hw.
    reflexivity. }
  rewrite (bool_decide_eq_false_2 _ Hw), orb_false_r in Hg.
  apply andb_true_iff in Hg as [H1 H2].
  destruct (hex_digit_not_special c1 H1) as (Hs1 & Hm1 & Hp1 & _).
  assert (Hscan : strtoul_scan [c1; c2] = Some (false, two_digit_value [c1; c2])).
  { unfold strtoul_scan. simpl skip_ws. rewrite Hs1.
    assert (Hsign : strip_sign [c1; c2] = (false, [c1; c2])).
    { unfold strip_sign.
      destruct c1 as [[] [] [] [] [] [] [] []]; try reflexivity; congruence. }
    rewrite Hsign.
    assert (H0x : strip_0x [c1; c2] = [c1; c2]).
    { unfold strip_0x.
      destruct c1 as [[] [] [] [] [] [] [] []]; reflexivity. }
    rewrite H0x. unfold hex_run, two_digit_value, is_hex_digit in *.
    destruct (hex_digit_value c1) as [d1|]; [|discriminate].
    simpl. destruct (hex_digit_value c2) as [d2|]; [|discriminate].
    reflexivity. }
  assert (Hrange : 0 <= two_digit_value [c1; c2] < 256).
  { unfold two_digit_value, is_hex_digit in *.
    destruct (hex_digit_value c1) as [d1|] eqn:E1; [|discriminate].
    destruct (hex_digit_value c2) as [d2|] eqn:E2; [|discriminate].
    apply hex_digit_value_range in E1, E2. lia. }
  split.
  - unfold token_accepted. rewrite Hscan.
    rewrite (proj2 (Z.leb_le _ _)) by lia. apply orb_true_r.
  - intros _. unfold parse_token, stoul.
    destruct (decide ([c1; c2] = wildcard_token)); [contradiction|].
    rewrite Hscan. destruct (Z.ltb_spec M (two_digit_value [c1; c2])); [lia|].
    rewrite Z.mod_small by lia. reflexivity.
Qed.

(** C3 (as amended).  Construction from a string throws, and always
    [invalid_argument], exactly when the string has no token or some
    token is neither the wildcard marker nor a token [stoul] converts;
    it succeeds on every string with at least one token whose tokens all
    belong to the grammar, and yields their values.  Tokens outside the
    grammar are not all rejected. *)
Theorem Pattern_of_string_fails_exactly_when
    (ULONG_MAX : Z) (s name : string) :
  255 <= ULONG_MAX ->
  ((exists e, Pattern_of_string ULONG_MAX s name = inl e) <->
   (tokens (list_ascii_of_string s) = [] \/
    Exists (fun t => token_accepted ULONG_MAX t = false)
      (tokens (list_ascii_of_string s))))
  /\
  (forall e, Pattern_of_string ULONG_MAX s name = inl e ->
             exists msg, e = invalid_argument msg)
  /\
  (tokens (list_ascii_of_string s) <> [] ->
   Forall (fun t => in_grammar t = true) (tokens (list_ascii_of_string s)) ->
   Pattern_of_string ULONG_MAX s name =
   inr (mkPattern
          (map (fun t => if token_fixed t then two_digit_value t else 0)
             (tokens (list_ascii_of_string s)))
          (map token_fixed (tokens (list_ascii_of_string s)))
          name)).
Proof.
  intros HM.
  pose proof (Pattern_of_string_fails_iff ULONG_MAX s name) as Hiff.
  simpl in Hiff.
  assert (Hkind : forall e, Pattern_of_string ULONG_MAX s name = inl e ->
                            exists msg, e = invalid_argument msg).
  { intros e He.
    destruct (tokens (list_ascii_of_string s)) as [|t toks] eqn:Htoks.
    - destruct (proj2 Hiff (or_introl eq_refl)) as [msg Hmsg].
      exists msg. congruence.
    - destruct (accepted_or_rejected ULONG_MAX (t :: toks)) as [Hall|Hex].
      + rewrite Pattern_of_string_accepted in He; [discriminate| |];
          rewrite Htoks; [discriminate|exact Hall].
      + destruct (proj2 Hiff (or_intror Hex)) as [msg Hmsg].
        exists msg. congruence. }
  split; [|split].
  - rewrite <- Hiff. split.
    + intros [e He]. destruct (Hkind e He) as [msg ->]. eauto.
    + intros [msg Hmsg]. eauto.
  - exact Hkind.
  - intros Hne Hall.
    rewrite Pattern_of_string_accepted; [|exact Hne|].
    + f_equal. f_equal.
      apply map_ext_in. intros t Ht.
      rewrite List.Forall_forall in Hall.
      destruct (in_grammar_accepted ULONG_MAX t HM (Hall t Ht)) as [_ Hval].
      unfold token_byte, token_fixed.
      destruct (decide (t = wildcard_token)) as [->|Hw].
      * reflexivity.
      * rewrite (Hval Hw), bool_decide_eq_false_2 by exact Hw. reflexivity.
    + rewrite List.Forall_forall in *. intros t Ht.
      apply (in_grammar_accepted ULONG_MAX t HM (Hall t Ht)).
Qed.

Lemma Pattern_of_string_fails_exactly_when_witness :
  255 <= ULONG_MAX_LP64 /\
  Pattern_of_string ULONG_MAX_LP64 "48 ?? 8b" "w" =
  inr (mkPattern [0x48; 0x00; 0x8B] [true; false; true] "w").
Proof.
  assert (HM : 255 <= ULONG_MAX_LP64) by (vm_compute; discriminate).
  split; [exact HM|].
  refine (proj2 (proj2 (Pattern_of_string_fails_exactly_when
                          ULONG_MAX_LP64 "48 ?? 8b" "w" HM)) _ _).
  - vm_compute. discriminate.
  - vm_compute. repeat constructor.
Defined.

(** C3, the input that refutes the claim as first stated: the token
    ["4"] is outside the grammar, and the string parses. *)
Lemma token_outside_grammar_is_parsed :
  tokens (list_ascii_of_string "4") = [list_ascii_of_string "4"] /\
  in_grammar (list_ascii_of_string "4") = false /\
  Pattern_of_string ULONG_MAX_LP64 "4" "" = inr (mkPattern [4] [true] "").
Proof. vm_compute. repeat split. Qed.

(** ** Printing and parsing back *)

Lemma toString_loop_render (p : Pattern) (n i : nat) (oss : list ascii) :
  toString_loop p i n oss =
  oss ++ render (i =? 0)%nat (map (token_at p) (seq i n)).
Proof.
  revert i oss. induction n as [|n IH]; intros i oss; simpl.
  - symmetry. apply app_nil_r.
  - rewrite IH. simpl. unfold token_at.
    destruct i as [|i]; simpl;
      destruct (nth _ (m_mask p) false); rewrite <- ?app_assoc; reflexivity.
Qed.

Lemma tokens_from_word (w tok rest : list ascii) :
  Forall (fun c => isspace c = false) w ->
  tokens_from tok (w ++ rest) = tokens_from (tok ++ w) rest.
Proof.
  intros Hw. revert tok. induction Hw as [|c w Hc Hw IH]; intros tok; simpl.
  - rewrite app_nil_r. reflexivity.
  - rewrite Hc, IH, <- app_assoc. reflexivity.
Qed.

Lemma tokens_from_render (toks : list (list ascii)) (tok : list ascii) :
  tok <> [] ->
  Forall clean_token toks ->
  tokens_from tok (render false toks) = tok :: toks.
Proof.
  intros Htok Hall. revert tok Htok.
  induction Hall as [|t toks [Ht Hws] Hall IH]; intros tok Htok; simpl.
  - destruct tok; [contradiction|reflexivity].
  - change (isspace " "%char) with true. cbv iota.
    destruct tok as [|c tok]; [contradiction|].
    f_equal. rewrite (tokens_from_word _ _ _ Hws). simpl.
    apply IH. exact Ht.
Qed.

Lemma tokens_render (toks : list (list ascii)) :
  Forall clean_token toks ->
  tokens (render true toks) = toks.
Proof.
  intros Hall. unfold tokens.
  destruct Hall as [|t toks [Ht Hws] Hall]; [reflexivity|].
  simpl. rewrite (tokens_from_word _ _ _ Hws). simpl.
  apply tokens_from_render; assumption.
Qed.

Lemma hex_pair_ok_all (b : Z) : is_uint8 b -> hex_pair_ok b = true.
Proof.
  intros Hb.
  assert (Hall : forallb hex_pair_ok (map Z.of_nat (seq 0 256)) = true)
    by (vm_compute; reflexivity).
  rewrite forallb_forall in Hall. apply Hall.
  apply in_map_iff. exists (Z.to_nat b). unfold is_uint8 in Hb.
  split; [lia|]. apply in_seq. lia.
Qed.

Lemma put_hex_setw2_facts (M b : Z) :
  255 <= M -> is_uint8 b ->
  clean_token (put_hex_setw2 b) /\
  token_accepted M (put_hex_setw2 b) = true /\
  token_fixed (put_hex_setw2 b) = true /\
  token_byte M (put_hex_setw2 b) = b.
Proof.
  intros HM Hb. pose proof (hex_pair_ok_all b Hb) as Hok.
  unfold hex_pair_ok in Hok.
  repeat (apply andb_true_iff in Hok as [Hok ?]).
  match goal with H : negb (bool_decide (_ = [])) = true |- _ =>
    apply negb_true_iff, bool_decide_eq_false in H; rename H into Hne end.
  match goal with H : negb (bool_decide (_ = wildcard_token)) = true |- _ =>
    apply negb_true_iff, bool_decide_eq_false in H; rename H into Hw end.
  match goal with H : forallb _ _ = true |- _ =>
    rewrite forallb_forall in H; rename H into Hws end.
  match goal with H : (_ =? _) = true |- _ =>
    apply Z.eqb_eq in H; rename H into Hval end.
  destruct (in_grammar_accepted M _ HM Hok) as [Hacc Hparse].
  repeat split.
  - exact Hne.
  - apply List.Forall_forall. intros c Hc. apply negb_true_iff, Hws, Hc.
  - exact Hacc.
  - unfold token_fixed. rewrite bool_decide_eq_false_2 by exact Hw. reflexivity.
  - unfold token_byte. rewrite (Hparse Hw). exact Hval.
Qed.

Lemma wildcard_token_facts (M : Z) :
  clean_token wildcard_token /\
  token_accepted M wildcard_token = true /\
  token_fixed wildcard_token = false /\
  token_byte M wildcard_token = 0.
Proof.
  repeat split; try reflexivity; try discriminate.
  repeat constructor.
Qed.

Lemma map_nth_seq_id {A : Type} (l : list A) (d : A) :
  map (fun i => nth i l d) (seq 0 (length l)) = l.
Proof.
  induction l as [|a l IH]; simpl; [reflexivity|].
  f_equal. rewrite <- seq_shift, map_map. exact IH.
Qed.

Lemma token_at_facts (M : Z) (p : Pattern) (i : nat) :
  255 <= M -> wf_pattern p -> (i < size p)%nat ->
  clean_token (token_at p i) /\
  token_accepted M (token_at p i) = true /\
  token_fixed (token_at p i) = nth i (m_mask p) false /\
  token_byte M (token_at p i) =
    (if nth i (m_mask p) false then nth i (m_bytes p) 0 else 0).
Proof.
  intros HM [Hlen Hbytes] Hi. unfold token_at.
  destruct (nth i (m_mask p) false).
  - apply put_hex_setw2_facts; [exact HM|].
    rewrite List.Forall_forall in Hbytes. apply Hbytes, nth_In. exact Hi.
  - apply wildcard_token_facts.
Qed.

Lemma tokens_toString (M : Z) (p : Pattern) :
  255 <= M -> wf_pattern p ->
  tokens (list_ascii_of_string (toString p)) =
  map (token_at p) (seq 0 (size p)).
Proof.
  intros HM Hwf. unfold toString.
  rewrite list_ascii_of_string_of_list_ascii, toString_loop_render.
  simpl. apply tokens_render.
  apply List.Forall_forall. intros t Ht.
  apply in_map_iff in Ht as (i & <- & Hi). apply in_seq in Hi.
  apply (token_at_facts M p i HM Hwf). lia.
Qed.

(** C4 (as amended).  For a pattern with one mask bit per byte and at
    least one byte, parsing [toString p] succeeds and gives a pattern
    with the same mask, the same bytes at the fixed positions and [0] at
    the wildcard positions; it matches exactly the buffers [p] matches. *)
Theorem toString_parse_roundtrip (ULONG_MAX : Z) (p : Pattern) (name : string) :
  255 <= ULONG_MAX ->
  wf_pattern p ->
  (0 < size p)%nat ->
  exists p',
    Pattern_of_string ULONG_MAX (toString p) name = inr p' /\
    m_mask p' = m_mask p /\
    length (m_bytes p') = length (m_bytes p) /\
    (forall i, (i < size p)%nat ->
       nth i (m_bytes p') 0 =
       if nth i (m_mask p) false then nth i (m_bytes p) 0 else 0) /\
    (forall data, matches p' data = matches p data).
Proof.
  intros HM Hwf Hpos.
  set (toks := map (token_at p) (seq 0 (size p))).
  assert (Htoks : tokens (list_ascii_of_string (toString p)) = toks)
    by exact (tokens_toString ULONG_MAX p HM Hwf).
  assert (Hfacts : forall i, (i < size p)%nat ->
            token_accepted ULONG_MAX (token_at p i) = true /\
            token_fixed (token_at p i) = nth i (m_mask p) false /\
            token_byte ULONG_MAX (token_at p i) =
              (if nth i (m_mask p) false then nth i (m_bytes p) 0 else 0)).
  { intros i Hi. apply (token_at_facts ULONG_MAX p i HM Hwf Hi). }
  exists (mkPattern (map (token_byte ULONG_MAX) toks) (map token_fixed toks) name).
  assert (Hmask : map token_fixed toks = m_mask p).
  { unfold toks. rewrite map_map.
    destruct Hwf as [Hlen _]. unfold size. rewrite <- Hlen.
    transitivity (map (fun i => nth i (m_mask p) false)
                    (seq 0 (length (m_mask p))));
      [|apply map_nth_seq_id].
    apply map_ext_in. intros i Hi. apply in_seq in Hi.
    apply Hfacts. unfold size. lia. }
  assert (Hbyte : forall i, (i < size p)%nat ->
            nth i (map (token_byte ULONG_MAX) toks) 0 =
            if nth i (m_mask p) false then nth i (m_bytes p) 0 else 0).
  { intros i Hi. unfold toks. rewrite map_map.
    rewrite (nth_indep _ 0 (token_byte ULONG_MAX (token_at p 0)))
      by (rewrite length_map, length_seq; exact Hi).
    rewrite (map_nth (fun j => token_byte ULONG_MAX (token_at p j))).
    rewrite seq_nth by exact Hi. simpl. apply Hfacts. exact Hi. }
  assert (Hsize : length (map (token_byte ULONG_MAX) toks) = length (m_bytes p)).
  { unfold toks. rewrite !length_map, length_seq. reflexivity. }
  split; [|split; [|split; [|split]]].
  - rewrite <- Htoks. apply Pattern_of_string_accepted.
    + rewrite Htoks. unfold toks, size in *.
      destruct (m_bytes p); [simpl in Hpos; lia|discriminate].
    + rewrite Htoks. apply List.Forall_forall. intros t Ht.
      apply in_map_iff in Ht as (i & <- & Hi). apply in_seq in Hi.
      apply Hfacts. lia.
  - exact Hmask.
  - exact Hsize.
  - exact Hbyte.
  - intros data. apply eq_true_iff_eq. rewrite !matches_true.
    unfold size at 1. simpl m_bytes. simpl m_mask.
    rewrite Hsize, Hmask. fold (size p).
    split; intros H i Hi Hm.
    + specialize (H i Hi Hm). rewrite (Hbyte i Hi), Hm in H. exact H.
    + rewrite (Hbyte i Hi), Hm. apply H; assumption.
Qed.

Lemma toString_parse_roundtrip_witness :
  255 <= ULONG_MAX_LP64 /\ wf_pattern example_pattern /\
  (0 < size example_pattern)%nat /\
  exists p',
    Pattern_of_string ULONG_MAX_LP64 (toString example_pattern) "again"
      = inr p' /\
    m_mask p' = m_mask example_pattern.
Proof.
  assert (HM : 255 <= ULONG_MAX_LP64) by (vm_compute; discriminate).
  assert (Hwf : wf_pattern example_pattern).
  { split; [reflexivity|]. unfold is_uint8. repeat constructor; simpl; lia. }
  assert (Hpos : (0 < size example_pattern)%nat) by (vm_compute; lia).
  split; [exact HM|]. split; [exact Hwf|]. split; [exact Hpos|].
  destruct (toString_parse_roundtrip ULONG_MAX_LP64 example_pattern "again"
              HM Hwf Hpos) as (p' & Hp & Hmask & _).
  exists p'. split; assumption.
Defined.

(** C4, the input that refutes the claim as first stated: a pattern
    built from bytes and mask with a non-zero byte under a wildcard
    prints as ["??"], and parsing that stores the byte [0]. *)
Lemma wildcard_byte_not_restored :
  Pattern_of_bytes [0x12] [false] "" = inr (mkPattern [0x12] [false] "") /\
  toString (mkPattern [0x12] [false] "") = "??"%string /\
  Pattern_of_string ULONG_MAX_LP64 (toString (mkPattern [0x12] [false] "")) ""
    = inr (mkPattern [0x00] [false] "") /\
  m_bytes (mkPattern [0x00] [false] "") <> m_bytes (mkPattern [0x12] [false] "").
Proof. vm_compute. repeat split. discriminate. Qed.

(** ** What the constructors establish *)

Lemma token_byte_range (M : Z) (t : list ascii) : is_uint8 (token_byte M t).
Proof.
  unfold token_byte, parse_token, is_uint8.
  destruct (decide (t = wildcard_token)); [lia|].
  destruct (stoul M t) as [e|v]; [lia|].
  apply Z.mod_pos_bound. lia.
Qed.

Lemma token_wildcard_byte (M : Z) (t : list ascii) :
  token_fixed t = false -> token_byte M t = 0.
Proof.
  unfold token_fixed, token_byte, parse_token. intros H.
  apply negb_false_iff, bool_decide_eq_true in H.
  destruct (decide (t = wildcard_token)); [reflexivity|contradiction].
Qed.

(** A successful parse, in full. *)
Lemma Pattern_of_string_inr (M : Z) (s name : string) (p : Pattern) :
  Pattern_of_string M s name = inr p ->
  tokens (list_ascii_of_string s) <> [] /\
  Forall (fun t => token_accepted M t = true) (tokens (list_ascii_of_string s)) /\
  p = mkPattern (map (token_byte M) (tokens (list_ascii_of_string s)))
        (map token_fixed (tokens (list_ascii_of_string s))) name.
Proof.
  intros Hp.
  destruct (tokens (list_ascii_of_string s)) as [|t toks] eqn:Htoks.
  - unfold Pattern_of_string, parsePatternString in Hp.
    rewrite Htoks in Hp. discriminate.
  - destruct (accepted_or_rejected M (t :: toks)) as [Hall|Hex].
    + split; [discriminate|]. split; [exact Hall|].
      rewrite Pattern_of_string_accepted in Hp;
        rewrite ?Htoks; [|discriminate|exact Hall].
      rewrite Htoks in Hp. congruence.
    + rewrite <- Htoks in Hex.
      destruct (proj2 (Pattern_of_string_fails_iff M s name) (or_intror Hex))
        as [msg Hmsg].
      congruence.
Qed.

Lemma parsed_pattern_facts (M : Z) (s name : string) (p : Pattern) :
  Pattern_of_string M s name = inr p ->
  wf_pattern p /\
  (0 < size p)%nat /\
  size p = length (tokens (list_ascii_of_string s)) /\
  m_name p = name /\
  (forall i, nth i (m_mask p) false = false -> nth i (m_bytes p) 0 = 0).
Proof.
  intros Hp. apply Pattern_of_string_inr in Hp as (Hne & _ & ->).
  set (toks := tokens (list_ascii_of_string s)) in *.
  unfold wf_pattern, size. simpl.
  split; [split|split; [|split; [|split]]].
  - rewrite !length_map. reflexivity.
  - apply List.Forall_forall. intros b Hb.
    apply in_map_iff in Hb as (t & <- & _). apply token_byte_range.
  - rewrite length_map. destruct toks; [congruence|simpl; lia].
  - rewrite length_map. reflexivity.
  - reflexivity.
  - intros i Hi.
    change false with (token_fixed wildcard_token) in Hi.
    rewrite (map_nth token_fixed) in Hi.
    change 0 with (token_byte M wildcard_token).
    rewrite (map_nth (token_byte M)).
    apply token_wildcard_byte. exact Hi.
Qed.

(** X1.  A pattern constructed from a string has one mask bit per byte,
    at least one byte, one byte per token of the string, the name it
    was given, bytes that are [uint8_t] values, and the byte [0] at each
    wildcard position. *)
Theorem Pattern_of_string_establishes_invariant
    (ULONG_MAX : Z) (s name : string) (p : Pattern) :
  Pattern_of_string ULONG_MAX s name = inr p ->
  wf_pattern p /\
  (0 < size p)%nat /\
  size p = length (tokens (list_ascii_of_string s)) /\
  m_name p = name /\
  (forall i, nth i (m_mask p) false = false -> nth i (m_bytes p) 0 = 0).
Proof. apply parsed_pattern_facts. Qed.

Lemma Pattern_of_string_establishes_invariant_witness :
  Pattern_of_string ULONG_MAX_LP64 "8B 05 ?? ??" "Health Access" =
    inr (mkPattern [0x8B; 0x05; 0; 0] [true; true; false; false]
           "Health Access") /\
  (0 < size (mkPattern [0x8B; 0x05; 0; 0]%Z [true; true; false; false]
               "Health Access"))%nat.
Proof.
  assert (Hp : Pattern_of_string ULONG_MAX_LP64 "8B 05 ?? ??" "Health Access" =
                 inr (mkPattern [0x8B; 0x05; 0; 0] [true; true; false; false]
                        "Health Access")) by reflexivity.
  split; [exact Hp|].
  apply (Pattern_of_string_establishes_invariant ULONG_MAX_LP64 _ _ _ Hp).
Defined.

(** The pattern read back from [toString p], in full. *)
Lemma reparse_toString (M : Z) (p : Pattern) (name : string) :
  255 <= M -> wf_pattern p -> (0 < size p)%nat ->
  Pattern_of_string M (toString p) name =
  inr (mkPattern
         (map (fun i => if nth i (m_mask p) false then nth i (m_bytes p) 0 else 0)
            (seq 0 (size p)))
         (m_mask p) name).
Proof.
  intros HM Hwf Hpos.
  pose proof (tokens_toString M p HM Hwf) as Htoks.
  assert (Hfacts : forall i, In i (seq 0 (size p)) ->
            token_accepted M (token_at p i) = true /\
            token_fixed (token_at p i) = nth i (m_mask p) false /\
            token_byte M (token_at p i) =
              (if nth i (m_mask p) false then nth i (m_bytes p) 0 else 0)).
  { intros i Hi. apply in_seq in Hi.
    apply (token_at_facts M p i HM Hwf). lia. }
  rewrite Pattern_of_string_accepted; rewrite Htoks.
  - rewrite !map_map. f_equal. f_equal.
    + apply map_ext_in. intros i Hi. apply Hfacts. exact Hi.
    + destruct Hwf as [Hlen _]. unfold size. rewrite <- Hlen.
      transitivity (map (fun i => nth i (m_mask p) false)
                      (seq 0 (length (m_mask p))));
        [|apply map_nth_seq_id].
      apply map_ext_in. intros i Hi. apply Hfacts.
      unfold size. rewrite <- Hlen. exact Hi.
  - unfold size in *. destruct (m_bytes p); [simpl in Hpos; lia|discriminate].
  - apply List.Forall_forall. intros t Ht.
    apply in_map_iff in Ht as (i & <- & Hi). apply Hfacts. exact Hi.
Qed.

(** X2.  Printing and parsing back is the identity on every pattern
    that holds [0] at its wildcard positions (one mask bit per byte, at
    least one byte): in particular on every pattern that was itself
    parsed from a string. *)
Theorem toString_parse_identity (ULONG_MAX : Z) (p : Pattern) :
  255 <= ULONG_MAX ->
  wf_pattern p ->
  (0 < size p)%nat ->
  (forall i, nth i (m_mask p) false = false -> nth i (m_bytes p) 0 = 0) ->
  Pattern_of_string ULONG_MAX (toString p) (m_name p) = inr p
  /\
  (forall s name q,
     Pattern_of_string ULONG_MAX s name = inr q ->
     Pattern_of_string ULONG_MAX (toString q) name = inr q).
Proof.
  intros HM.
  assert (Hid : forall q, wf_pattern q -> (0 < size q)%nat ->
            (forall i, nth i (m_mask q) false = false -> nth i (m_bytes q) 0 = 0) ->
            Pattern_of_string ULONG_MAX (toString q) (m_name q) = inr q).
  { intros q Hwf Hpos Hzero.
    rewrite (reparse_toString ULONG_MAX q (m_name q) HM Hwf Hpos).
    destruct q as [bytes mask name]. simpl in *. f_equal. f_equal.
    transitivity (map (fun i => nth i bytes 0) (seq 0 (length bytes)));
      [|apply map_nth_seq_id].
    apply map_ext. intros i.
    destruct (nth i mask false) eqn:Hm; [reflexivity|].
    symmetry. apply Hzero. exact Hm. }
  intros Hwf Hpos Hzero. split; [apply Hid; assumption|].
  intros s name q Hq.
  destruct (parsed_pattern_facts ULONG_MAX s name q Hq)
    as (Hwfq & Hposq & _ & Hname & Hzeroq).
  rewrite <- Hname. apply Hid; assumption.
Qed.

Lemma toString_parse_identity_witness :
  Pattern_of_string ULONG_MAX_LP64 (toString example_pattern) "example" =
    inr example_pattern.
Proof.
  assert (HM : 255 <= ULONG_MAX_LP64) by (vm_compute; discriminate).
  assert (Hwf : wf_pattern example_pattern).
  { split; [reflexivity|]. unfold is_uint8. repeat constructor; simpl; lia. }
  assert (Hpos : (0 < size example_pattern)%nat) by (vm_compute; lia).
  assert (Hzero : forall i, nth i (m_mask example_pattern) false = false ->
                            nth i (m_bytes example_pattern) 0 = 0).
  { intros [|[|[|[|[|i]]]]] H; simpl in *;
      try discriminate; try reflexivity. }
  exact (proj1 (toString_parse_identity ULONG_MAX_LP64 example_pattern
                  HM Hwf Hpos Hzero)).
Defined.

(** ** The printed form *)

Lemma in_grammar_length (t : list ascii) :
  in_grammar t = true -> length t = 2%nat.
Proof.
  destruct t as [|c1 [|c2 [|c3 t]]]; simpl; try discriminate. reflexivity.
Qed.

Lemma token_at_in_grammar (p : Pattern) (i : nat) :
  wf_pattern p -> (i < size p)%nat -> in_grammar (token_at p i) = true.
Proof.
  intros [_ Hbytes] Hi. unfold token_at.
  destruct (nth i (m_mask p) false); [|reflexivity].
  assert (Hb : is_uint8 (nth i (m_bytes p) 0)).
  { rewrite List.Forall_forall in Hbytes. apply Hbytes, nth_In. exact Hi. }
  pose proof (hex_pair_ok_all _ Hb) as Hok. unfold hex_pair_ok in Hok.
  repeat (apply andb_true_iff in Hok as [Hok _]). exact Hok.
Qed.

Lemma render_length (toks : list (list ascii)) :
  Forall (fun t => length t = 2%nat) toks ->
  length (render false toks) = (3 * length toks)%nat /\
  length (render true toks) = (3 * length toks - 1)%nat.
Proof.
  induction 1 as [|t toks Ht Hall [IH _]]; simpl; [split; reflexivity|].
  rewrite !length_app, IH, Ht. split; lia.
Qed.

Lemma length_string_of_list_ascii (l : list ascii) :
  String.length (string_of_list_ascii l) = length l.
Proof. induction l as [|c l IH]; simpl; [reflexivity|]. rewrite IH. reflexivity. Qed.

(** X3.  For a pattern with one mask bit per byte, [toString] prints
    one token per byte, each of them in the grammar of the text form,
    separated by single spaces: [3 * size - 1] characters, and no
    character at all for the empty pattern. *)
Theorem toString_prints_grammar_tokens (p : Pattern) :
  wf_pattern p ->
  length (tokens (list_ascii_of_string (toString p))) = size p /\
  Forall (fun t => in_grammar t = true)
    (tokens (list_ascii_of_string (toString p))) /\
  String.length (toString p) = (3 * size p - 1)%nat.
Proof.
  intros Hwf.
  assert (HM : 255 <= 255) by lia.
  rewrite (tokens_toString 255 p HM Hwf).
  assert (Hgrammar : Forall (fun t => in_grammar t = true)
                       (map (token_at p) (seq 0 (size p)))).
  { apply List.Forall_forall. intros t Ht.
    apply in_map_iff in Ht as (i & <- & Hi). apply in_seq in Hi.
    apply token_at_in_grammar; [exact Hwf|lia]. }
  split; [rewrite length_map, length_seq; reflexivity|].
  split; [exact Hgrammar|].
  unfold toString.
  rewrite length_string_of_list_ascii, toString_loop_render. simpl.
  assert (Hlen : Forall (fun t => length t = 2%nat)
                   (map (token_at p) (seq 0 (size p)))).
  { eapply List.Forall_impl; [|exact Hgrammar].
    intros t. apply in_grammar_length. }
  destruct (render_length _ Hlen) as [_ ->].
  rewrite length_map, length_seq. reflexivity.
Qed.

Lemma toString_prints_grammar_tokens_witness :
  wf_pattern example_pattern /\
  String.length (toString example_pattern) = 11%nat.
Proof.
  assert (Hwf : wf_pattern example_pattern).
  { split; [reflexivity|]. unfold is_uint8. repeat constructor; simpl; lia. }
  split; [exact Hwf|].
  exact (proj2 (proj2 (toString_prints_grammar_tokens example_pattern Hwf))).
Defined.

(** ** The constructor from bytes and mask *)

(** X4.  The constructor from bytes and mask throws [invalid_argument]
    exactly when the two lengths differ, and otherwise stores its
    arguments unchanged.  It accepts the empty pattern, which prints
    as the empty string, which in turn the constructor from a string
    rejects. *)
Theorem Pattern_of_bytes_checks_lengths_only
    (bytes : list Z) (mask : list bool) (name : string) :
  (length bytes <> length mask <->
   Pattern_of_bytes bytes mask name =
     inl (invalid_argument "Byte array and mask must have same size"))
  /\
  (length bytes = length mask <->
   Pattern_of_bytes bytes mask name = inr (mkPattern bytes mask name))
  /\
  (Pattern_of_bytes [] [] name = inr (mkPattern [] [] name) /\
   toString (mkPattern [] [] name) = ""%string /\
   forall ULONG_MAX name',
     Pattern_of_string ULONG_MAX (toString (mkPattern [] [] name)) name' =
       inl (invalid_argument "Pattern string cannot be empty")).
Proof.
  unfold Pattern_of_bytes.
  destruct (Nat.eqb_spec (length bytes) (length mask)) as [Heq|Hne]; simpl.
  - split; [split; [contradiction|discriminate]|].
    split; [split; [reflexivity|intros _; exact Heq]|].
    repeat split.
  - split; [split; [reflexivity|intros _; exact Hne]|].
    split; [split; [contradiction|discriminate]|].
    repeat split.
Qed.

(** ** [isWildcard] *)

Lemma nth_insert_ne (data : list Z) (pos i : nat) (b : Z) :
  i <> pos -> nth i (<[pos := b]> data) 0 = nth i data 0.
Proof.
  intros Hne. rewrite !nth_lookup, list_lookup_insert_ne by congruence.
  reflexivity.
Qed.

(** X5.  [isWildcard] throws [out_of_range] exactly when the position
    is not below the length of the mask.  When it answers [true], the
    byte of the data at that position has no influence on [matches];
    when it answers [false], every buffer that matches holds the stored
    byte there. *)
Theorem isWildcard_tells_what_matches_ignores (p : Pattern) (pos : nat) :
  ((length (m_mask p) <= pos)%nat <->
   isWildcard p pos = inl (out_of_range "Position out of range"))
  /\
  (forall w, isWildcard p pos = inr w ->
     (pos < length (m_mask p))%nat /\ w = negb (nth pos (m_mask p) false))
  /\
  (isWildcard p pos = inr true ->
   forall data b, matches p (<[pos := b]> data) = matches p data)
  /\
  (isWildcard p pos = inr false -> (pos < size p)%nat ->
   forall data, matches p data = true ->
     nth pos data 0 = nth pos (m_bytes p) 0).
Proof.
  unfold isWildcard.
  destruct (Nat.leb_spec (length (m_mask p)) pos) as [Hle|Hlt].
  - split; [split; [reflexivity|intros _; exact Hle]|].
    split; [discriminate|]. split; discriminate.
  - split; [split; [lia|discriminate]|].
    split; [intros w [= <-]; split; [exact Hlt|reflexivity]|].
    split.
    + intros [= Hw] data b. apply negb_true_iff in Hw.
      apply eq_true_iff_eq. rewrite !matches_true.
      split; intros H i Hi Hm.
      * rewrite <- (nth_insert_ne data pos i b) by congruence.
        apply H; assumption.
      * rewrite (nth_insert_ne data pos i b) by congruence.
        apply H; assumption.
    + intros [= Hw] Hpos data Hmatch. apply negb_false_iff in Hw.
      apply (proj1 (matches_true p data) Hmatch pos Hpos Hw).
Qed.

(** ** Offsets from a result *)

Lemma chain_fold (n : Z) (offsets : list Z) (a : Z) :
  fold_left (fun current offset => (current + offset) mod n) offsets (a mod n)
  = (a + fold_right Z.add 0 offsets) mod n.
Proof.
  revert a. induction offsets as [|o offsets IH]; intros a; simpl.
  - rewrite Z.add_0_r. reflexivity.
  - rewrite IH, <- Z.add_assoc, Zplus_mod_idemp_l. reflexivity.
Qed.

(** X6.  [readPointerChain] always returns [true] and reads no memory:
    for an address that is a [uintptr_t] value it stores the address
    plus the sum of the offsets, wrapped to the width of [uintptr_t];
    with one offset that is [calculateOffset], and a chain in two
    parts is the second part followed from the result of the first. *)
Theorem readPointerChain_adds_offsets
    (uintptr_bits : Z) (r : PatternResult) (offsets : list Z) :
  0 <= address r < 2 ^ uintptr_bits ->
  readPointerChain uintptr_bits r offsets =
    (true, (address r + fold_right Z.add 0 offsets) mod 2 ^ uintptr_bits)
  /\
  (forall offset,
     readPointerChain uintptr_bits r [offset] =
       (true, calculateOffset uintptr_bits r offset))
  /\
  (forall more,
     readPointerChain uintptr_bits r (offsets ++ more) =
     readPointerChain uintptr_bits
       (mkPatternResult (snd (readPointerChain uintptr_bits r offsets))
          (patternName r) (matchedBytes r))
       more).
Proof.
  intros Hrange.
  assert (Hsum : forall l,
            readPointerChain uintptr_bits r l =
            (true, (address r + fold_right Z.add 0 l) mod 2 ^ uintptr_bits)).
  { intros [|o l].
    - simpl. rewrite Z.add_0_r, Z.mod_small by exact Hrange. reflexivity.
    - unfold readPointerChain. cbn [fold_left].
      rewrite chain_fold. simpl. do 2 f_equal. lia. }
  split; [apply Hsum|]. split.
  - intros offset. reflexivity.
  - intros more. rewrite Hsum.
    destruct more as [|o more].
    + rewrite app_nil_r, Hsum. reflexivity.
    + rewrite Hsum. unfold readPointerChain. cbn [snd address fold_left].
      rewrite Zplus_mod_idemp_l, chain_fold.
      assert (Hfold : forall l z, fold_right Z.add z l
                                  = fold_right Z.add 0 l + z).
      { induction l as [|x l IH]; intros z; simpl; [lia|].
        rewrite IH. lia. }
      rewrite fold_right_app, (Hfold offsets). simpl. do 2 f_equal. lia.
Qed.

Lemma readPointerChain_adds_offsets_witness :
  0 <= address (mkPatternResult 0x412345 "Health Access" []) < 2 ^ 64 /\
  readPointerChain 64 (mkPatternResult 0x412345 "Health Access" [])
    [2; 0x10; -4] = (true, 0x412353).
Proof.
  assert (Hrange :
    0 <= address (mkPatternResult 0x412345 "Health Access" []) < 2 ^ 64)
    by (simpl; lia).
  split; [exact Hrange|].
  exact (proj1 (readPointerChain_adds_offsets 64 _ [2; 0x10; -4] Hrange)).
Defined.

End PatternFacts.

(* ===================================================================== *)
(** * Properties of [scanner::PatternScanner] *)
(* ===================================================================== *)

Module ScannerFacts.
Import Memory Scanner.

Lemma store_at_start_length (buffer ws : list Z) :
  length (store_at_start buffer ws) = length buffer.
Proof.
  unfold store_at_start.
  rewrite length_app, length_take, length_drop. lia.
Qed.

(** A successful read yields a snapshot of exactly [size] bytes. *)
Lemma readMemoryRegion_length (prov : IMemoryProvider) (a : Z) (size : nat)
    (ws : list Z) :
  readMemory prov a size = Some ws ->
  length (readMemoryRegion prov a size) = size.
Proof.
  intros Hread. unfold readMemoryRegion. rewrite Hread.
  rewrite store_at_start_length. apply repeat_length.
Qed.

(** The loop returns the least matching offset of the range it visits. *)
Lemma naiveScan_loop_Some (pattern : Pattern) (memory : list Z) (n i k : nat) :
  naiveScan_loop pattern memory i n = Some k <->
  ((i <= k < i + n)%nat /\
   matches pattern (drop k memory) = true /\
   forall j, (i <= j < k)%nat -> matches pattern (drop j memory) = false).
Proof.
  revert i. induction n as [|n IH]; intros i; simpl.
  - split; [discriminate | intros [? _]; lia].
  - destruct (matches pattern (drop i memory)) eqn:Hm.
    + split.
      * intros [= <-]. repeat split; [lia | lia | exact Hm | intros j Hj; lia].
      * intros (Hk & Hmk & Hmin).
        destruct (Nat.eq_dec k i) as [->|Hne]; [reflexivity|].
        rewrite (Hmin i) in Hm by lia. discriminate.
    + rewrite IH. split.
      * intros (Hk & Hmk & Hmin). repeat split; [lia | lia | exact Hmk |].
        intros j Hj. destruct (Nat.eq_dec j i) as [->|Hne]; [exact Hm|].
        apply Hmin. lia.
      * intros (Hk & Hmk & Hmin).
        assert (k <> i) by (intros ->; congruence).
        repeat split; [lia | lia | exact Hmk |].
        intros j Hj. apply Hmin. lia.
Qed.

Lemma naiveScan_loop_None (pattern : Pattern) (memory : list Z) (n i : nat) :
  naiveScan_loop pattern memory i n = None <->
  (forall j, (i <= j < i + n)%nat -> matches pattern (drop j memory) = false).
Proof.
  revert i. induction n as [|n IH]; intros i; simpl.
  - split; [intros _ j Hj; lia | reflexivity].
  - destruct (matches pattern (drop i memory)) eqn:Hm.
    + split; [discriminate|].
      intros H. rewrite (H i) in Hm by lia. discriminate.
    + rewrite IH. split; intros H j Hj.
      * destruct (Nat.eq_dec j i) as [->|Hne]; [exact Hm|].
        apply H. lia.
      * apply H. lia.
Qed.

Lemma naiveScan_snapshot (bits : Z) (prov : IMemoryProvider)
    (pattern : Pattern) (start : Z) (size : nat) (result : PatternResult) :
  naiveScan bits prov pattern start size result =
  scan_snapshot bits pattern start (readMemoryRegion prov start size) result.
Proof. reflexivity. Qed.

Lemma scanSingle_snapshot (bits : Z) (prov : IMemoryProvider) (useBM : bool)
    (pattern : Pattern) (start : Z) (size : nat) (result : PatternResult) :
  isValidAddress prov start = true ->
  scanSingle bits (mkScanner (Some prov) useBM) pattern start size result =
  scan_snapshot bits pattern start (readMemoryRegion prov start size) result.
Proof.
  intros Hvalid. unfold scanSingle. simpl. rewrite Hvalid. simpl.
  destruct useBM; reflexivity.
Qed.

Lemma scan_snapshot_short (bits : Z) (pattern : Pattern) (start : Z)
    (memory : list Z) (result : PatternResult) :
  (length memory < Memory.size pattern)%nat ->
  scan_snapshot bits pattern start memory result = (false, result).
Proof.
  intros Hshort. unfold scan_snapshot.
  destruct memory as [|b memory]; [reflexivity|].
  destruct (Nat.ltb_spec (length (b :: memory)) (Memory.size pattern));
    [reflexivity|lia].
Qed.

Lemma scan_snapshot_long (bits : Z) (pattern : Pattern) (start : Z)
    (memory : list Z) (result : PatternResult) :
  (0 < Memory.size pattern \/ 0 < length memory)%nat ->
  (Memory.size pattern <= length memory)%nat ->
  scan_snapshot bits pattern start memory result =
  match naiveScan_loop pattern memory 0
          (length memory - Memory.size pattern + 1) with
  | Some i =>
      (true,
       mkPatternResult (uintptr_add bits start i) (getName pattern)
         (take (Memory.size pattern) (drop i memory)))
  | None => (false, result)
  end.
Proof.
  intros Hne Hlong. unfold scan_snapshot.
  destruct memory as [|b memory]; [simpl in *; lia|].
  destruct (Nat.ltb_spec (length (b :: memory)) (Memory.size pattern));
    [lia|reflexivity].
Qed.

(** An empty snapshot (a failed read, or a region of size [0]) is a
    miss for every pattern. *)
Lemma scan_snapshot_empty (bits : Z) (pattern : Pattern) (start : Z)
    (result : PatternResult) :
  scan_snapshot bits pattern start [] result = (false, result).
Proof. reflexivity. Qed.

(** The address does not wrap when the region lies in the address
    space. *)
Lemma uintptr_add_no_wrap (bits start : Z) (i n : nat) :
  0 <= start -> start + Z.of_nat n <= 2 ^ bits -> (i < n)%nat ->
  uintptr_add bits start i = start + Z.of_nat i.
Proof.
  intros Hstart Hend Hi. unfold uintptr_add.
  apply Z.mod_small. lia.
Qed.

(** C2.  Let [memory] be the snapshot [scanSingle] takes of the region
    (the start address being valid).  An empty snapshot is a miss for
    every pattern, the empty pattern included; a pattern longer than the
    snapshot is a miss; in both cases the call returns [false] and
    leaves [result] alone.  On a non-empty snapshot that is at least as
    long as the pattern the call returns the least offset
    [i <= length memory - size pattern] at which the pattern matches, as
    the address [start + i] (in [uintptr_t]), and returns [false] when no
    such offset matches.  The answer depends on the provider through the
    snapshot only. *)
Theorem scanSingle_first_match
    (uintptr_bits : Z) (prov : IMemoryProvider) (useBoyerMoore : bool)
    (pattern : Pattern) (start : Z) (size : nat) (result : PatternResult) :
  isValidAddress prov start = true ->
  (* an empty snapshot: a miss, whatever the pattern *)
  (readMemoryRegion prov start size = [] ->
   scanSingle uintptr_bits (mkScanner (Some prov) useBoyerMoore)
     pattern start size result = (false, result))
  /\
  (* shorter than the pattern: a miss *)
  ((length (readMemoryRegion prov start size) < Memory.size pattern)%nat ->
   scanSingle uintptr_bits (mkScanner (Some prov) useBoyerMoore)
     pattern start size result = (false, result))
  /\
  (* first match *)
  ((0 < length (readMemoryRegion prov start size))%nat ->
   (Memory.size pattern <= length (readMemoryRegion prov start size))%nat ->
   (forall i,
      (i <= length (readMemoryRegion prov start size) - Memory.size pattern)%nat ->
      matches pattern (drop i (readMemoryRegion prov start size)) = true ->
      (forall j, (j < i)%nat ->
         matches pattern (drop j (readMemoryRegion prov start size)) = false) ->
      scanSingle uintptr_bits (mkScanner (Some prov) useBoyerMoore)
        pattern start size result =
      (true,
       mkPatternResult ((start + Z.of_nat i) mod 2 ^ uintptr_bits)
         (getName pattern)
         (take (Memory.size pattern)
            (drop i (readMemoryRegion prov start size)))))
   /\
   ((forall i,
       (i <= length (readMemoryRegion prov start size) - Memory.size pattern)%nat ->
       matches pattern (drop i (readMemoryRegion prov start size)) = false) ->
    scanSingle uintptr_bits (mkScanner (Some prov) useBoyerMoore)
      pattern start size result = (false, result)))
  /\
  (* determined by the snapshot *)
  (forall (prov' : IMemoryProvider) (useBoyerMoore' : bool) (size' : nat),
     isValidAddress prov' start = true ->
     readMemoryRegion prov' start size' = readMemoryRegion prov start size ->
     scanSingle uintptr_bits (mkScanner (Some prov') useBoyerMoore')
       pattern start size' result =
     scanSingle uintptr_bits (mkScanner (Some prov) useBoyerMoore)
       pattern start size result).
Proof.
  intros Hvalid.
  rewrite (scanSingle_snapshot _ _ _ _ _ _ _ Hvalid).
  set (memory := readMemoryRegion prov start size) in *.
  split; [|split; [|split]].
  - intros Hempty. rewrite Hempty. apply scan_snapshot_empty.
  - apply scan_snapshot_short.
  - intros Hne Hlong.
    rewrite (scan_snapshot_long _ _ _ _ _ (or_intror Hne) Hlong).
    split.
    + intros i Hi Hm Hmin.
      assert (Hloop : naiveScan_loop pattern memory 0
                        (length memory - Memory.size pattern + 1) = Some i).
      { apply naiveScan_loop_Some. repeat split; [lia | lia | exact Hm |].
        intros j Hj. apply Hmin. lia. }
      rewrite Hloop. reflexivity.
    + intros Hnone.
      assert (Hloop : naiveScan_loop pattern memory 0
                        (length memory - Memory.size pattern + 1) = None).
      { apply naiveScan_loop_None. intros j Hj. apply Hnone. lia. }
      rewrite Hloop. reflexivity.
  - intros prov' useBM' size' Hvalid' Hsame.
    rewrite (scanSingle_snapshot _ _ _ _ _ _ _ Hvalid'), Hsame. reflexivity.
Qed.

Lemma scanSingle_first_match_witness :
  isValidAddress (region_provider 0x400000 example_region) 0x400000 = true /\
  scanSingle 64 (example_scanner true) example_scan_pattern 0x400000 9
    empty_result =
  (true, mkPatternResult 0x400002 "mov" [0x8B; 0x05; 0x78]).
Proof.
  assert (Hvalid :
    isValidAddress (region_provider 0x400000 example_region) 0x400000 = true)
    by reflexivity.
  split; [exact Hvalid|].
  destruct (scanSingle_first_match 64 (region_provider 0x400000 example_region)
              true example_scan_pattern 0x400000 9 empty_result Hvalid)
    as (_ & _ & Hfirst & _).
  assert (Hne :
    (0 < length (readMemoryRegion (region_provider 0x400000 example_region)
                   0x400000 9))%nat)
    by (vm_compute; lia).
  assert (Hlong :
    (Memory.size example_scan_pattern <=
     length (readMemoryRegion (region_provider 0x400000 example_region)
               0x400000 9))%nat)
    by (vm_compute; lia).
  destruct (Hfirst Hne Hlong) as [Hhit _].
  apply (Hhit 2%nat).
  - vm_compute. lia.
  - reflexivity.
  - intros [|[|j]] Hj; [reflexivity | reflexivity | lia].
Defined.

(** C2, the input that refutes the claim as first stated: the empty
    pattern, which the bytes/mask constructor accepts, on the snapshot
    of a region of size [0].  The read succeeds, the pattern is not
    longer than the snapshot and matches at offset [0], the only offset
    in range; the scan reports a miss. *)
Lemma empty_pattern_on_empty_snapshot_is_missed :
  Pattern_of_bytes [] [] "" = inr (mkPattern [] [] "") /\
  isValidAddress (region_provider 0x400000 example_region) 0x400000 = true /\
  readMemory (region_provider 0x400000 example_region) 0x400000 0 = Some [] /\
  readMemoryRegion (region_provider 0x400000 example_region) 0x400000 0 = [] /\
  (Memory.size (mkPattern [] [] "") <=
   length (readMemoryRegion (region_provider 0x400000 example_region)
             0x400000 0))%nat /\
  matches (mkPattern [] [] "")
    (drop 0 (readMemoryRegion (region_provider 0x400000 example_region)
               0x400000 0)) = true /\
  scanSingle 64 (example_scanner false) (mkPattern [] [] "") 0x400000 0
    empty_result = (false, empty_result) /\
  scanSingle 64 (example_scanner true) (mkPattern [] [] "") 0x400000 0
    empty_result = (false, empty_result).
Proof. vm_compute. repeat split; lia. Qed.

(** C9.  The scan selected by the switch does not change the answer:
    [boyerMooreScan] and [naiveScan] return the same pair on every
    provider, pattern and region, and so does [scanSingle] with the
    switch on and off: the same first match, or a miss in both. *)
Theorem naive_and_boyerMoore_scans_agree
    (uintptr_bits : Z) (s : PatternScanner) (prov : IMemoryProvider)
    (pattern : Pattern) (start : Z) (size : nat) (result : PatternResult) :
  boyerMooreScan uintptr_bits prov pattern start size result =
  naiveScan uintptr_bits prov pattern start size result
  /\
  scanSingle uintptr_bits (setUseBoyerMoore true s) pattern start size result =
  scanSingle uintptr_bits (setUseBoyerMoore false s) pattern start size result.
Proof.
  split; [reflexivity|].
  unfold scanSingle, setUseBoyerMoore. simpl.
  destruct (m_memoryProvider s) as [p|]; [|reflexivity].
  destruct (isValidAddress p start); reflexivity.
Qed.

(** ** Misses and hits *)

(** [matches] looks at the first [size pattern] bytes only. *)
Lemma matches_take (pattern : Pattern) (data : list Z) :
  matches pattern (take (Memory.size pattern) data) = matches pattern data.
Proof.
  apply eq_true_iff_eq. rewrite !PatternFacts.matches_true.
  split; intros H i Hi Hm.
  - specialize (H i Hi Hm). rewrite nth_firstn in H.
    destruct (Nat.ltb_spec i (Memory.size pattern)); [exact H|lia].
  - rewrite nth_firstn.
    destruct (Nat.ltb_spec i (Memory.size pattern)); [|lia].
    apply H; assumption.
Qed.

Lemma readMemoryRegion_nonempty (prov : IMemoryProvider) (a : Z) (size : nat) :
  readMemoryRegion prov a size <> [] ->
  length (readMemoryRegion prov a size) = size.
Proof.
  intros Hne. destruct (readMemory prov a size) as [ws|] eqn:Hread.
  - exact (readMemoryRegion_length prov a size ws Hread).
  - unfold readMemoryRegion in Hne. rewrite Hread in Hne. contradiction.
Qed.

(** A hit of the scan over a snapshot, in full. *)
Lemma scan_snapshot_hit (bits : Z) (pattern : Pattern) (start : Z)
    (memory : list Z) (result r : PatternResult) :
  scan_snapshot bits pattern start memory result = (true, r) ->
  exists i,
    (i + Memory.size pattern <= length memory)%nat /\
    memory <> [] /\
    matches pattern (drop i memory) = true /\
    (forall j, (j < i)%nat -> matches pattern (drop j memory) = false) /\
    r = mkPatternResult (uintptr_add bits start i) (getName pattern)
          (take (Memory.size pattern) (drop i memory)).
Proof.
  unfold scan_snapshot.
  destruct memory as [|b memory]; [discriminate|].
  destruct (Nat.ltb_spec (length (b :: memory)) (Memory.size pattern));
    [discriminate|].
  destruct (naiveScan_loop pattern (b :: memory) 0
              (length (b :: memory) - Memory.size pattern + 1))
    as [i|] eqn:Hloop; [|discriminate].
  intros [= <-]. exists i.
  apply naiveScan_loop_Some in Hloop as (Hi & Hm & Hmin).
  split; [lia|]. split; [discriminate|]. split; [exact Hm|].
  split; [|reflexivity].
  intros j Hj. apply Hmin. lia.
Qed.

Lemma scan_snapshot_miss (bits : Z) (pattern : Pattern) (start : Z)
    (memory : list Z) (result : PatternResult) :
  fst (scan_snapshot bits pattern start memory result) = false ->
  scan_snapshot bits pattern start memory result = (false, result).
Proof.
  unfold scan_snapshot.
  destruct memory as [|b memory]; [reflexivity|].
  destruct (length (b :: memory) <? Memory.size pattern)%nat; [reflexivity|].
  destruct (naiveScan_loop _ _ _ _); [discriminate|reflexivity].
Qed.

Lemma scanSingle_cases (bits : Z) (s : PatternScanner) (pattern : Pattern)
    (start : Z) (size : nat) (result : PatternResult) :
  scanSingle bits s pattern start size result = (false, result) \/
  exists prov,
    m_memoryProvider s = Some prov /\
    isValidAddress prov start = true /\
    scanSingle bits s pattern start size result =
      scan_snapshot bits pattern start (readMemoryRegion prov start size) result.
Proof.
  unfold scanSingle.
  destruct (m_memoryProvider s) as [prov|]; [|left; reflexivity].
  destruct (isValidAddress prov start) eqn:Hvalid; [|left; reflexivity].
  right. exists prov. simpl.
  split; [reflexivity|]. split; [exact Hvalid|].
  destruct (m_useBoyerMoore s); reflexivity.
Qed.

(** X7.  A miss never writes the caller's result: whenever
    [scanSingle] returns [false], for whatever reason, [result] is as it
    was.  A null provider, an invalid start address and a failed read
    are all misses. *)
Theorem scanSingle_miss_leaves_result
    (uintptr_bits : Z) (s : PatternScanner) (pattern : Pattern)
    (start : Z) (size : nat) (result : PatternResult) :
  (fst (scanSingle uintptr_bits s pattern start size result) = false ->
   snd (scanSingle uintptr_bits s pattern start size result) = result)
  /\
  (m_memoryProvider s = None ->
   scanSingle uintptr_bits s pattern start size result = (false, result))
  /\
  (forall prov, m_memoryProvider s = Some prov ->
     isValidAddress prov start = false \/ readMemory prov start size = None ->
     scanSingle uintptr_bits s pattern start size result = (false, result)).
Proof.
  split; [|split].
  - destruct (scanSingle_cases uintptr_bits s pattern start size result)
      as [->|(prov & _ & _ & ->)]; [reflexivity|].
    intros Hmiss. rewrite (scan_snapshot_miss _ _ _ _ _ Hmiss). reflexivity.
  - intros Hnull. unfold scanSingle. rewrite Hnull. reflexivity.
  - intros prov Hprov Hfail. unfold scanSingle. rewrite Hprov.
    destruct (isValidAddress prov start) eqn:Hvalid; [|reflexivity].
    destruct Hfail as [Hinvalid|Hread]; [discriminate|]. simpl.
    unfold boyerMooreScan, naiveScan, readMemoryRegion. rewrite Hread.
    destruct (m_useBoyerMoore s); reflexivity.
Qed.

(** X8.  A hit is a real match inside the region: when [scanSingle]
    returns [true], the provider is present, the start address valid
    and the read succeeded; the address is [start + i] (in
    [uintptr_t]) for an offset [i] with [i + size pattern <= size]; the
    result carries the name of the pattern and the [size pattern] bytes
    of the snapshot at [i], and the pattern matches these bytes. *)
Theorem scanSingle_hit_is_a_match
    (uintptr_bits : Z) (s : PatternScanner) (pattern : Pattern)
    (start : Z) (size : nat) (result r : PatternResult) :
  scanSingle uintptr_bits s pattern start size result = (true, r) ->
  exists prov i,
    m_memoryProvider s = Some prov /\
    isValidAddress prov start = true /\
    is_Some (readMemory prov start size) /\
    (i + Memory.size pattern <= size)%nat /\
    address r = (start + Z.of_nat i) mod 2 ^ uintptr_bits /\
    patternName r = getName pattern /\
    matchedBytes r =
      take (Memory.size pattern) (drop i (readMemoryRegion prov start size)) /\
    length (matchedBytes r) = Memory.size pattern /\
    matches pattern (matchedBytes r) = true.
Proof.
  intros Hhit.
  destruct (scanSingle_cases uintptr_bits s pattern start size result)
    as [Hmiss|(prov & Hprov & Hvalid & Hscan)]; [congruence|].
  rewrite Hscan in Hhit.
  apply scan_snapshot_hit in Hhit as (i & Hi & Hne & Hm & _ & ->).
  pose proof (readMemoryRegion_nonempty prov start size Hne) as Hlen.
  exists prov, i. simpl.
  split; [exact Hprov|]. split; [exact Hvalid|]. split.
  { unfold readMemoryRegion in Hne.
    destruct (readMemory prov start size); [eauto|contradiction]. }
  split; [lia|]. split; [reflexivity|]. split; [reflexivity|].
  split; [reflexivity|]. split.
  - rewrite length_take, length_drop. lia.
  - rewrite matches_take. exact Hm.
Qed.

Lemma scanSingle_hit_is_a_match_witness :
  scanSingle 64 (example_scanner false) example_scan_pattern 0x400000 9
    empty_result =
    (true, mkPatternResult 0x400002 "mov" [0x8B; 0x05; 0x78]) /\
  matches example_scan_pattern [0x8B; 0x05; 0x78] = true.
Proof.
  assert (Hhit :
    scanSingle 64 (example_scanner false) example_scan_pattern 0x400000 9
      empty_result =
      (true, mkPatternResult 0x400002 "mov" [0x8B; 0x05; 0x78]))
    by reflexivity.
  split; [exact Hhit|].
  destruct (scanSingle_hit_is_a_match 64 _ _ _ _ _ _ Hhit)
    as (prov & i & _ & _ & _ & _ & _ & _ & _ & _ & Hm).
  exact Hm.
Defined.

(** ** Modules and several patterns *)

(** X9.  With a provider present, [scanModule] misses without scanning
    when the provider reports base [0] or size [0] for the module, and
    is otherwise [scanSingle] over the module; so a hit lies in a module
    the provider knows, at [base + i] with [i + size pattern] within the
    size of the module, and the pattern matches the bytes returned.
    [scanEntireProcess] is [scanModule] on ["supertux.exe"]. *)
Theorem scanModule_scans_known_modules
    (uintptr_bits : Z) (s : PatternScanner) (prov : IMemoryProvider)
    (pattern : Pattern) (moduleName : string) (result : PatternResult) :
  m_memoryProvider s = Some prov ->
  (getModuleBase prov moduleName = 0 \/ getModuleSize prov moduleName = 0%nat ->
   scanModule uintptr_bits s pattern moduleName result = Some (false, result))
  /\
  (getModuleBase prov moduleName <> 0 ->
   getModuleSize prov moduleName <> 0%nat ->
   scanModule uintptr_bits s pattern moduleName result =
   Some (scanSingle uintptr_bits s pattern (getModuleBase prov moduleName)
           (getModuleSize prov moduleName) result))
  /\
  (forall r,
     scanModule uintptr_bits s pattern moduleName result = Some (true, r) ->
     getModuleBase prov moduleName <> 0 /\
     exists i,
       (i + Memory.size pattern <= getModuleSize prov moduleName)%nat /\
       address r =
         (getModuleBase prov moduleName + Z.of_nat i) mod 2 ^ uintptr_bits /\
       matches pattern (matchedBytes r) = true)
  /\
  scanEntireProcess uintptr_bits s pattern result =
    scanModule uintptr_bits s pattern "supertux.exe" result.
Proof.
  intros Hprov. unfold scanEntireProcess, scanModule. rewrite Hprov.
  destruct (Z.eqb_spec (getModuleBase prov moduleName) 0) as [Hb|Hb].
  - split; [reflexivity|]. split; [contradiction|].
    split; [discriminate|reflexivity].
  - destruct (Nat.eqb_spec (getModuleSize prov moduleName) 0) as [Hs|Hs].
    + split; [reflexivity|]. split; [contradiction|].
      split; [discriminate|reflexivity].
    + split; [intros [?|?]; contradiction|]. split; [reflexivity|].
      split; [|reflexivity].
      intros r [= Hhit]. split; [exact Hb|].
      destruct (scanSingle uintptr_bits s pattern
                  (getModuleBase prov moduleName)
                  (getModuleSize prov moduleName) result)
        as [found r'] eqn:Hscan.
      simpl in Hhit. injection Hhit as -> ->.
      destruct (scanSingle_cases uintptr_bits s pattern
                  (getModuleBase prov moduleName)
                  (getModuleSize prov moduleName) result)
        as [Hmiss|(prov' & Hprov' & _ & Hsnap)]; [congruence|].
      rewrite Hscan in Hsnap. symmetry in Hsnap.
      apply scan_snapshot_hit in Hsnap as (i & Hi & Hne & Hm & _ & ->).
      pose proof (readMemoryRegion_nonempty _ _ _ Hne) as Hlen.
      exists i. simpl. split; [lia|]. split; [reflexivity|].
      rewrite matches_take. exact Hm.
Qed.

Lemma scanModule_scans_known_modules_witness :
  m_memoryProvider (example_scanner true) =
    Some (region_provider 0x400000 example_region) /\
  scanModule 64 (example_scanner true) example_scan_pattern "any" empty_result =
    Some (true, mkPatternResult 0x400002 "mov" [0x8B; 0x05; 0x78]).
Proof.
  split; [reflexivity|].
  destruct (scanModule_scans_known_modules 64 (example_scanner true)
              (region_provider 0x400000 example_region)
              example_scan_pattern "any" empty_result eq_refl)
    as (_ & Hscan & _).
  rewrite Hscan; [reflexivity | discriminate | discriminate].
Defined.

(** The hits of [scanMultiple], pattern by pattern. *)
Lemma scanMultiple_fold (bits : Z) (s : PatternScanner) (start : Z) (size : nat)
    (patterns : list Pattern) (results : list PatternResult) :
  fold_left (scanMultiple_step bits s start size) patterns results =
  results ++ fold_left (scanMultiple_step bits s start size) patterns [].
Proof.
  revert results. induction patterns as [|p patterns IH]; intros results; simpl.
  - rewrite app_nil_r. reflexivity.
  - rewrite IH, (IH (scanMultiple_step bits s start size [] p)).
    unfold scanMultiple_step.
    destruct (scanSingle bits s p start size PatternResult_new) as [[] r];
      simpl; rewrite <- ?app_assoc; reflexivity.
Qed.

Lemma scanMultiple_cons (bits : Z) (s : PatternScanner) (start : Z) (size : nat)
    (p : Pattern) (patterns : list Pattern) :
  scanMultiple bits s (p :: patterns) start size =
  (if fst (scanSingle bits s p start size PatternResult_new)
   then [snd (scanSingle bits s p start size PatternResult_new)]
   else [])
  ++ scanMultiple bits s patterns start size.
Proof.
  unfold scanMultiple. simpl. rewrite scanMultiple_fold.
  unfold scanMultiple_step.
  destruct (scanSingle bits s p start size PatternResult_new) as [[] r];
    reflexivity.
Qed.

Lemma scanSingle_hit_name (bits : Z) (s : PatternScanner) (p : Pattern)
    (start : Z) (size : nat) (result r : PatternResult) :
  scanSingle bits s p start size result = (true, r) ->
  patternName r = getName p.
Proof.
  intros Hhit.
  destruct (scanSingle_cases bits s p start size result)
    as [Hmiss|(prov & _ & _ & Hscan)]; [congruence|].
  rewrite Hscan in Hhit.
  apply scan_snapshot_hit in Hhit as (i & _ & _ & _ & _ & ->). reflexivity.
Qed.

(** X10.  [scanMultiple] returns the hits in the order of the patterns
    and leaves the misses out: the results of a concatenation are the
    concatenation of the results; the names of the results are a
    subsequence of the names of the patterns; every result is the hit
    of [scanSingle] for one of the patterns, and every such hit is
    among the results. *)
Theorem scanMultiple_keeps_order_and_omits_misses
    (uintptr_bits : Z) (s : PatternScanner) (patterns : list Pattern)
    (start : Z) (size : nat) :
  (forall more,
     scanMultiple uintptr_bits s (patterns ++ more) start size =
     scanMultiple uintptr_bits s patterns start size ++
     scanMultiple uintptr_bits s more start size)
  /\
  (patternName <$> scanMultiple uintptr_bits s patterns start size)
    `sublist_of` (getName <$> patterns)
  /\
  (forall r,
     r ∈ scanMultiple uintptr_bits s patterns start size <->
     exists p, p ∈ patterns /\
       scanSingle uintptr_bits s p start size PatternResult_new = (true, r))
  /\
  (m_memoryProvider s = None ->
   scanMultiple uintptr_bits s patterns start size = []).
Proof.
  split; [|split; [|split]].
  - intros more. unfold scanMultiple.
    rewrite fold_left_app, scanMultiple_fold. reflexivity.
  - induction patterns as [|p patterns IH]; [constructor|].
    rewrite scanMultiple_cons, fmap_app, fmap_cons.
    destruct (scanSingle uintptr_bits s p start size PatternResult_new)
      as [[] r] eqn:Hscan; simpl.
    + rewrite (scanSingle_hit_name _ _ _ _ _ _ _ Hscan).
      apply sublist_skip. exact IH.
    + apply sublist_cons. exact IH.
  - intros r. induction patterns as [|p patterns IH].
    + split; [intros H; apply elem_of_nil in H; contradiction|].
      intros (p & Hp & _). apply elem_of_nil in Hp. contradiction.
    + rewrite scanMultiple_cons, elem_of_app, IH. split.
      * intros [Hr|(q & Hq & Hhit)].
        -- exists p. split; [left|].
           destruct (scanSingle uintptr_bits s p start size PatternResult_new)
             as [[] r'] eqn:Hscan; simpl in Hr.
           ++ apply list_elem_of_singleton in Hr. congruence.
           ++ apply elem_of_nil in Hr. contradiction.
        -- exists q. split; [right; exact Hq|exact Hhit].
      * intros (q & Hq & Hhit). apply elem_of_cons in Hq as [->|Hq].
        -- left. rewrite Hhit. simpl. left.
        -- right. exists q. auto.
  - intros Hnull. induction patterns as [|p patterns IH]; [reflexivity|].
    rewrite scanMultiple_cons, IH. unfold scanSingle. rewrite Hnull.
    reflexivity.
Qed.

End ScannerFacts.

(* ===================================================================== *)
(** * Properties of [scanner::MockMemoryProvider] *)
(* ===================================================================== *)

Module MockFacts.
Import Memory Scanner Mock.

(** ** The ordered map *)

Lemma ordered_cons (k : Z) (d : list Z) (m : region_map) :
  ordered ((k, d) :: m) <->
  ordered m /\ Forall (fun entry => k < fst entry) m.
Proof.
  unfold ordered. rewrite fmap_cons, StronglySorted_cons.
  rewrite Forall_fmap. tauto.
Qed.

Lemma map_assign_elem_of (key : Z) (data : list Z) (m : region_map)
    (k : Z) (d : list Z) :
  ordered m ->
  ((k, d) ∈ map_assign key data m <->
   (k = key /\ d = data) \/ (k <> key /\ (k, d) ∈ m)).
Proof.
  induction m as [|[k0 d0] m IH]; intros Hord; simpl.
  - rewrite list_elem_of_singleton. split.
    + intros [= -> ->]. left. auto.
    + intros [[-> ->]|[_ H]]; [reflexivity|].
      apply elem_of_nil in H. contradiction.
  - apply ordered_cons in Hord as [Hord Hlt].
    rewrite Forall_forall in Hlt.
    destruct (Z.ltb_spec key k0) as [Hk|Hk].
    + rewrite elem_of_cons. split.
      * intros [[= -> ->]|H]; [left; auto|]. right. split; [|exact H].
        apply elem_of_cons in H as [[= -> ->]|H]; [lia|].
        specialize (Hlt _ H). simpl in Hlt. lia.
      * intros [[-> ->]|[_ H]]; [left; reflexivity|right; exact H].
    + destruct (Z.eqb_spec key k0) as [->|Hne].
      * rewrite !elem_of_cons. split.
        -- intros [[= -> ->]|H]; [left; auto|]. right.
           specialize (Hlt _ H). simpl in Hlt. split; [lia|right; exact H].
        -- intros [[-> ->]|[Hne' [[= -> ->]|H]]];
             [left; reflexivity | contradiction | right; exact H].
      * rewrite !elem_of_cons, (IH Hord). split.
        -- intros [[= -> ->]|[[-> ->]|[Hne' H]]].
           ++ right. split; [congruence|left; reflexivity].
           ++ left. auto.
           ++ right. split; [exact Hne'|right; exact H].
        -- intros [[-> ->]|[Hne' [[= -> ->]|H]]].
           ++ right. left. auto.
           ++ left. reflexivity.
           ++ right. right. auto.
Qed.

Lemma map_assign_ordered (key : Z) (data : list Z) (m : region_map) :
  ordered m -> ordered (map_assign key data m).
Proof.
  induction m as [|[k0 d0] m IH]; intros Hord; simpl.
  - apply ordered_cons. split; [constructor|constructor].
  - pose proof Hord as Hord0.
    apply ordered_cons in Hord as [Hord Hlt].
    destruct (Z.ltb_spec key k0) as [Hk|Hk].
    + apply ordered_cons. split; [exact Hord0|].
      constructor; [exact Hk|].
      eapply Forall_impl; [exact Hlt|]. simpl. intros entry H. lia.
    + destruct (Z.eqb_spec key k0) as [->|Hne].
      * apply ordered_cons. split; assumption.
      * apply ordered_cons. split; [apply IH; exact Hord|].
        apply Forall_forall. intros [k d] Hin. simpl.
        apply (map_assign_elem_of key data m k d Hord) in Hin
          as [[-> ->]|[_ Hin]]; [lia|].
        rewrite Forall_forall in Hlt. exact (Hlt _ Hin).
Qed.

(** In an ordered map, [lower_bound] at a key finds the entry of the
    key. *)
Lemma lower_bound_key (a : Z) (data : list Z) (m : region_map) :
  ordered m -> (a, data) ∈ m -> lower_bound a m = Some (a, data).
Proof.
  unfold lower_bound.
  induction m as [|[k0 d0] m IH]; intros Hord Hin.
  - apply elem_of_nil in Hin. contradiction.
  - apply ordered_cons in Hord as [Hord Hlt].
    rewrite Forall_forall in Hlt. simpl.
    apply elem_of_cons in Hin as [[= <- <-]|Hin].
    + rewrite (proj2 (Z.leb_le a a)) by lia. reflexivity.
    + specialize (Hlt _ Hin) as Hk. simpl in Hk.
      destruct (Z.leb_spec a k0); [lia|]. apply IH; assumption.
Qed.

Lemma lower_bound_Some (a : Z) (m : region_map) (k : Z) (d : list Z) :
  lower_bound a m = Some (k, d) -> (k, d) ∈ m /\ a <= k.
Proof.
  unfold lower_bound. intros H. apply find_some in H as [Hin Hle].
  split; [apply list_elem_of_In; exact Hin|]. apply Z.leb_le. exact Hle.
Qed.

Lemma wrap_small (bits v : Z) : 0 <= v < 2 ^ bits -> wrap bits v = v.
Proof. apply Z.mod_small. Qed.

(** ** Reading *)

Lemma readMemory_iff (bits : Z) (m : MockMemoryProvider) (address : Z)
    (size : nat) (bs : list Z) :
  ordered (m_memoryRegions m) ->
  regions_in_range bits (m_memoryRegions m) ->
  0 <= address ->
  address + Z.of_nat size < 2 ^ bits ->
  (readMemory bits m address size = Some bs <->
   exists data, (address, data) ∈ m_memoryRegions m /\
     (size <= length data)%nat /\ bs = take size data).
Proof.
  intros Hord Hrange Ha Hsize. unfold readMemory. split.
  - destruct (lower_bound address (m_memoryRegions m)) as [[k d]|] eqn:Hlb;
      [|discriminate].
    apply lower_bound_Some in Hlb as [Hin Hle].
    unfold regions_in_range in Hrange. rewrite Forall_forall in Hrange.
    destruct (Hrange _ Hin) as [Hk Hend]. simpl in Hk, Hend.
    destruct (Z.ltb_spec address k) as [Hlt|Hge]; [discriminate|].
    assert (k = address) as -> by lia.
    rewrite (wrap_small _ (address + Z.of_nat (length d))) by lia.
    rewrite (wrap_small _ (address + Z.of_nat size)) by lia.
    destruct (Z.ltb_spec (address + Z.of_nat (length d))
                (address + Z.of_nat size)); [discriminate|].
    simpl. intros [= <-]. exists d.
    split; [exact Hin|]. split; [lia|].
    rewrite Z.sub_diag. unfold wrap. rewrite Zmod_0_l. reflexivity.
  - intros (data & Hin & Hlen & ->).
    rewrite (lower_bound_key address data _ Hord Hin).
    unfold regions_in_range in Hrange. rewrite Forall_forall in Hrange.
    destruct (Hrange _ Hin) as [Hk Hend]. simpl in Hk, Hend.
    rewrite (wrap_small _ (address + Z.of_nat (length data))) by lia.
    rewrite (wrap_small _ (address + Z.of_nat size)) by lia.
    destruct (Z.ltb_spec address address); [lia|].
    destruct (Z.ltb_spec (address + Z.of_nat (length data))
                (address + Z.of_nat size)); [lia|].
    simpl. rewrite Z.sub_diag. unfold wrap. rewrite Zmod_0_l.
    reflexivity.
Qed.

Lemma readMemory_no_key (bits : Z) (m : MockMemoryProvider) (address : Z)
    (size : nat) :
  ordered (m_memoryRegions m) ->
  regions_in_range bits (m_memoryRegions m) ->
  0 <= address ->
  address + Z.of_nat size < 2 ^ bits ->
  (forall data, (address, data) ∉ m_memoryRegions m) ->
  readMemory bits m address size = None.
Proof.
  intros Hord Hrange Ha Hsize Hnokey.
  destruct (readMemory bits m address size) as [bs|] eqn:Hread; [|reflexivity].
  apply (readMemory_iff bits m address size bs Hord Hrange Ha Hsize) in Hread
    as (data & Hin & _).
  exfalso. exact (Hnokey data Hin).
Qed.

Lemma example_mock_ordered : ordered (m_memoryRegions example_mock).
Proof.
  unfold example_mock, addModule, addMemoryRegion. cbn [m_memoryRegions].
  apply map_assign_ordered, map_assign_ordered. constructor.
Qed.

Lemma example_mock_regions :
  m_memoryRegions example_mock =
  [(0x400000, [0x55; 0x8B; 0xEC; 0x90; 0x8B; 0x05; 0x78; 0xC3]);
   (0x500000, [100; 0; 0; 0; 50; 0; 0; 0])].
Proof. reflexivity. Qed.

Lemma example_mock_in_range : regions_in_range 64 (m_memoryRegions example_mock).
Proof.
  rewrite example_mock_regions. unfold regions_in_range.
  repeat constructor; simpl; lia.
Qed.

Lemma example_mock_no_key (a : Z) :
  a <> 0x400000 -> a <> 0x500000 ->
  forall data, (a, data) ∉ m_memoryRegions example_mock.
Proof.
  intros H1 H2 data Hin. rewrite example_mock_regions in Hin.
  repeat (apply elem_of_cons in Hin as [Hin|Hin]; [congruence|]).
  apply elem_of_nil in Hin. exact Hin.
Qed.

(** X11.  The mock reads at the base addresses of its regions only:
    for regions inside the address space and a request that does not
    wrap, [readMemory] succeeds exactly when [address] is the key of a
    region that has at least [size] bytes, and then returns the first
    [size] bytes of that region.  An address inside a region that is
    not itself the key of a region cannot be read, whatever the size. *)
Theorem mock_reads_only_at_region_bases
    (uintptr_bits : Z) (m : MockMemoryProvider) (address : Z) (size : nat) :
  ordered (m_memoryRegions m) ->
  regions_in_range uintptr_bits (m_memoryRegions m) ->
  0 <= address ->
  address + Z.of_nat size < 2 ^ uintptr_bits ->
  (forall bs,
     readMemory uintptr_bits m address size = Some bs <->
     exists data, (address, data) ∈ m_memoryRegions m /\
       (size <= length data)%nat /\ bs = take size data)
  /\
  ((forall data, (address, data) ∉ m_memoryRegions m) ->
   readMemory uintptr_bits m address size = None).
Proof.
  intros Hord Hrange Ha Hsize. split.
  - intros bs. apply readMemory_iff; assumption.
  - apply readMemory_no_key; assumption.
Qed.

Lemma mock_reads_only_at_region_bases_witness :
  ordered (m_memoryRegions example_mock) /\
  regions_in_range 64 (m_memoryRegions example_mock) /\
  readMemory 64 example_mock 0x400000 3 = Some [0x55; 0x8B; 0xEC] /\
  readMemory 64 example_mock 0x400004 3 = None.
Proof.
  split; [exact example_mock_ordered|].
  split; [exact example_mock_in_range|].
  split.
  - apply (proj1 (mock_reads_only_at_region_bases 64 example_mock 0x400000 3
                    example_mock_ordered example_mock_in_range
                    ltac:(lia) ltac:(simpl; lia))).
    exists [0x55; 0x8B; 0xEC; 0x90; 0x8B; 0x05; 0x78; 0xC3].
    split; [|split; [simpl; lia|reflexivity]].
    rewrite example_mock_regions. left.
  - apply (proj2 (mock_reads_only_at_region_bases 64 example_mock 0x400004 3
                    example_mock_ordered example_mock_in_range
                    ltac:(lia) ltac:(simpl; lia))).
    apply example_mock_no_key; discriminate.
Defined.



(** ** Adding regions and modules *)

Lemma constructed_ordered (m : MockMemoryProvider) :
  constructed m -> ordered (m_memoryRegions m).
Proof.
  induction 1 as [|baseAddress data m _ IH|name baseAddress size m _ IH].
  - unfold MockMemoryProvider_new, initializeMockMemory, addMemoryRegion,
      addModule.
    cbn [m_memoryRegions].
    apply map_assign_ordered, map_assign_ordered. constructor.
  - unfold addMemoryRegion. cbn [m_memoryRegions].
    apply map_assign_ordered. exact IH.
  - exact IH.
Qed.

Lemma isValidAddress_inside (bits : Z) (m : MockMemoryProvider)
    (k : Z) (d : list Z) (a : Z) :
  (k, d) ∈ m_memoryRegions m ->
  0 <= k -> k + Z.of_nat (length d) < 2 ^ bits ->
  k <= a < k + Z.of_nat (length d) ->
  isValidAddress bits m a = true.
Proof.
  intros Hin Hk Hend Ha. unfold isValidAddress.
  apply existsb_exists. exists (k, d).
  split; [apply list_elem_of_In; exact Hin|]. simpl.
  rewrite wrap_small by lia.
  apply andb_true_iff. split; [apply Z.leb_le|apply Z.ltb_lt]; lia.
Qed.

(** X13.  [addMemoryRegion] and reading back: the map stays ordered and
    inside the address space, the new region reads back from its base
    (all of it, or any prefix), every address of the region is valid,
    and the regions under other keys are the ones there were; a region
    already under the key is replaced. *)
Theorem addMemoryRegion_reads_back
    (uintptr_bits : Z) (m : MockMemoryProvider) (baseAddress : Z)
    (data : list Z) :
  ordered (m_memoryRegions m) ->
  regions_in_range uintptr_bits (m_memoryRegions m) ->
  0 <= baseAddress ->
  baseAddress + Z.of_nat (length data) < 2 ^ uintptr_bits ->
  ordered (m_memoryRegions (addMemoryRegion baseAddress data m)) /\
  regions_in_range uintptr_bits
    (m_memoryRegions (addMemoryRegion baseAddress data m)) /\
  (forall size, (size <= length data)%nat ->
     readMemory uintptr_bits (addMemoryRegion baseAddress data m)
       baseAddress size = Some (take size data)) /\
  readMemoryRegion (provider uintptr_bits (addMemoryRegion baseAddress data m))
    baseAddress (length data) = data /\
  (forall a, baseAddress <= a < baseAddress + Z.of_nat (length data) ->
     isValidAddress uintptr_bits (addMemoryRegion baseAddress data m) a = true) /\
  (forall k d,
     (k, d) ∈ m_memoryRegions (addMemoryRegion baseAddress data m) <->
     (k = baseAddress /\ d = data) \/
     (k <> baseAddress /\ (k, d) ∈ m_memoryRegions m)).
Proof.
  intros Hord Hrange Hbase Hend.
  assert (Helem : forall k d,
     (k, d) ∈ m_memoryRegions (addMemoryRegion baseAddress data m) <->
     (k = baseAddress /\ d = data) \/
     (k <> baseAddress /\ (k, d) ∈ m_memoryRegions m)).
  { intros k d. apply map_assign_elem_of. exact Hord. }
  assert (Hord' : ordered (m_memoryRegions (addMemoryRegion baseAddress data m)))
    by (apply map_assign_ordered; exact Hord).
  assert (Hrange' : regions_in_range uintptr_bits
            (m_memoryRegions (addMemoryRegion baseAddress data m))).
  { unfold regions_in_range in *. rewrite Forall_forall in *.
    intros [k d] Hin. apply Helem in Hin as [[-> ->]|[_ Hin]].
    - simpl. lia.
    - exact (Hrange _ Hin). }
  assert (Hread : forall size, (size <= length data)%nat ->
     readMemory uintptr_bits (addMemoryRegion baseAddress data m)
       baseAddress size = Some (take size data)).
  { intros size Hsize.
    apply (readMemory_iff uintptr_bits _ baseAddress size (take size data)
             Hord' Hrange' Hbase); [lia|].
    exists data. split; [apply Helem; left; auto|]. split; [exact Hsize|].
    reflexivity. }
  split; [exact Hord'|]. split; [exact Hrange'|]. split; [exact Hread|].
  split; [|split; [|exact Helem]].
  - unfold readMemoryRegion. simpl.
    rewrite (Hread (length data)) by lia.
    unfold store_at_start.
    rewrite repeat_length, !firstn_all.
    rewrite drop_ge by (rewrite repeat_length; lia).
    apply app_nil_r.
  - intros a Ha.
    apply (isValidAddress_inside uintptr_bits _ baseAddress data a);
      [apply Helem; left; auto | lia | lia | lia].
Qed.

Lemma addMemoryRegion_reads_back_witness :
  ordered (m_memoryRegions example_mock) /\
  regions_in_range 64 (m_memoryRegions example_mock) /\
  readMemory 64 (addMemoryRegion 0x600000 [1; 2; 3] example_mock) 0x600000 2
    = Some [1; 2].
Proof.
  split; [exact example_mock_ordered|].
  split; [exact example_mock_in_range|].
  destruct (addMemoryRegion_reads_back 64 example_mock 0x600000 [1; 2; 3]
              example_mock_ordered example_mock_in_range
              ltac:(lia) ltac:(simpl; lia))
    as (_ & _ & Hread & _).
  apply (Hread 2%nat). simpl. lia.
Defined.

(** X14.  [addModule] and the lookups: the module added is found with
    the base and the size given, the other names answer as before, a
    name never added answers the sentinel [0] for both, and the
    regions are not touched.  [scanModule] over the mock misses, without
    scanning, for a name that is missing from either map. *)
Theorem addModule_lookup (m : MockMemoryProvider) (name : string)
    (baseAddress : Z) (size : nat) :
  getModuleBase (addModule name baseAddress size m) name = baseAddress /\
  getModuleSize (addModule name baseAddress size m) name = size /\
  (forall other, other <> name ->
     getModuleBase (addModule name baseAddress size m) other
       = getModuleBase m other /\
     getModuleSize (addModule name baseAddress size m) other
       = getModuleSize m other) /\
  (forall other, getModuleBase empty_mock other = 0 /\
                 getModuleSize empty_mock other = 0%nat) /\
  m_memoryRegions (addModule name baseAddress size m) = m_memoryRegions m /\
  (forall uintptr_bits useBoyerMoore pattern other result,
     m_moduleBases m !! other = None \/ m_moduleSizes m !! other = None ->
     scanModule uintptr_bits
       (mkScanner (Some (provider uintptr_bits m)) useBoyerMoore)
       pattern other result = Some (false, result)).
Proof.
  unfold getModuleBase, getModuleSize, addModule. simpl.
  rewrite !lookup_insert_eq.
  split; [reflexivity|]. split; [reflexivity|]. split; [|split; [|split]].
  - intros other Hne. rewrite !lookup_insert_ne by congruence.
    split; reflexivity.
  - intros other. rewrite !lookup_empty. split; reflexivity.
  - reflexivity.
  - intros bits bm pattern other result Hmissing.
    unfold scanModule. simpl. unfold Mock.getModuleBase, Mock.getModuleSize.
    destruct Hmissing as [->| ->]; [reflexivity|].
    destruct (m_moduleBases m !! other) as [b|]; [|reflexivity].
    destruct (b =? 0); reflexivity.
Qed.

(** ** Scanning a region of the mock *)

Lemma mock_region_snapshot (bits : Z) (m : MockMemoryProvider)
    (baseAddress : Z) (data : list Z) :
  ordered (m_memoryRegions m) ->
  regions_in_range bits (m_memoryRegions m) ->
  (baseAddress, data) ∈ m_memoryRegions m ->
  readMemoryRegion (provider bits m) baseAddress (length data) = data.
Proof.
  intros Hord Hrange Hin.
  pose proof Hrange as Hrange'.
  unfold regions_in_range in Hrange'. rewrite Forall_forall in Hrange'.
  destruct (Hrange' _ Hin) as [Hbase Hend]. simpl in Hbase, Hend.
  assert (Hread : readMemory bits m baseAddress (length data) = Some data).
  { apply (readMemory_iff bits m baseAddress (length data) data
             Hord Hrange Hbase Hend).
    exists data. split; [exact Hin|]. split; [lia|].
    symmetry. apply firstn_all. }
  unfold readMemoryRegion. simpl. rewrite Hread.
  unfold store_at_start. rewrite repeat_length, firstn_all.
  rewrite drop_ge by (rewrite repeat_length; lia).
  apply app_nil_r.
Qed.

(** X27.  Scanning a whole region of the mock from its base address
    scans the bytes of that region: for a non-empty region and a
    pattern no longer than it, [scanSingle] returns the least offset of
    the region data at which the pattern matches, as [base + offset],
    with the bytes found there, and misses when the pattern matches at
    no offset. *)
Theorem mock_region_scan_finds_first_match
    (uintptr_bits : Z) (m : MockMemoryProvider) (useBoyerMoore : bool)
    (pattern : Pattern) (baseAddress : Z) (data : list Z)
    (result : PatternResult) :
  ordered (m_memoryRegions m) ->
  regions_in_range uintptr_bits (m_memoryRegions m) ->
  (baseAddress, data) ∈ m_memoryRegions m ->
  data <> [] ->
  (Memory.size pattern <= length data)%nat ->
  (forall i,
     (i <= length data - Memory.size pattern)%nat ->
     matches pattern (drop i data) = true ->
     (forall j, (j < i)%nat -> matches pattern (drop j data) = false) ->
     scanSingle uintptr_bits
       (mkScanner (Some (provider uintptr_bits m)) useBoyerMoore)
       pattern baseAddress (length data) result =
     (true,
      mkPatternResult (baseAddress + Z.of_nat i) (getName pattern)
        (take (Memory.size pattern) (drop i data))))
  /\
  ((forall i,
      (i <= length data - Memory.size pattern)%nat ->
      matches pattern (drop i data) = false) ->
   scanSingle uintptr_bits
     (mkScanner (Some (provider uintptr_bits m)) useBoyerMoore)
     pattern baseAddress (length data) result = (false, result)).
Proof.
  intros Hord Hrange Hin Hne Hlong.
  pose proof Hrange as Hrange'.
  unfold regions_in_range in Hrange'. rewrite Forall_forall in Hrange'.
  destruct (Hrange' _ Hin) as [Hbase Hend]. simpl in Hbase, Hend.
  assert (Hlen : (0 < length data)%nat)
    by (destruct data; [congruence|simpl; lia]).
  assert (Hvalid : isValidAddress uintptr_bits m baseAddress = true).
  { apply (isValidAddress_inside uintptr_bits m baseAddress data);
      [exact Hin | exact Hbase | exact Hend | lia]. }
  rewrite (ScannerFacts.scanSingle_snapshot uintptr_bits
             (provider uintptr_bits m) useBoyerMoore pattern baseAddress
             (length data) result Hvalid).
  rewrite (mock_region_snapshot uintptr_bits m baseAddress data Hord Hrange Hin).
  rewrite (ScannerFacts.scan_snapshot_long uintptr_bits pattern baseAddress
             data result (or_intror Hlen) Hlong).
  split.
  - intros i Hi Hm Hmin.
    assert (Hloop : naiveScan_loop pattern data 0
                      (length data - Memory.size pattern + 1) = Some i).
    { apply ScannerFacts.naiveScan_loop_Some.
      repeat split; [lia | lia | exact Hm |].
      intros j Hj. apply Hmin. lia. }
    rewrite Hloop. unfold uintptr_add.
    rewrite Z.mod_small by lia. reflexivity.
  - intros Hnone.
    assert (Hloop : naiveScan_loop pattern data 0
                      (length data - Memory.size pattern + 1) = None).
    { apply ScannerFacts.naiveScan_loop_None. intros j Hj. apply Hnone. lia. }
    rewrite Hloop. reflexivity.
Qed.

Lemma mock_region_scan_finds_first_match_witness :
  ordered (m_memoryRegions example_mock) /\
  regions_in_range 64 (m_memoryRegions example_mock) /\
  scanSingle 64 (mkScanner (Some (provider 64 example_mock)) true)
    (mkPattern [0x8B; 0x05] [true; true] "mov") 0x400000 8 empty_result =
    (true, mkPatternResult 0x400004 "mov" [0x8B; 0x05]).
Proof.
  split; [exact example_mock_ordered|].
  split; [exact example_mock_in_range|].
  destruct (mock_region_scan_finds_first_match 64 example_mock true
              (mkPattern [0x8B; 0x05] [true; true] "mov") 0x400000
              [0x55; 0x8B; 0xEC; 0x90; 0x8B; 0x05; 0x78; 0xC3] empty_result
              example_mock_ordered example_mock_in_range)
    as [Hhit _].
  - rewrite example_mock_regions. left.
  - discriminate.
  - vm_compute. lia.
  - apply (Hhit 4%nat).
    + vm_compute. lia.
    + reflexivity.
    + intros [|[|[|[|j]]]] Hj; try reflexivity. lia.
Defined.

End MockFacts.

(* ===================================================================== *)
(** * Properties of [hooks::MinHookWrapper] and [hooks::FunctionHook] *)
(* ===================================================================== *)

Module HooksFacts.
Import Hooks.

(** ** [find_hook] *)

Lemma find_hook_Some (t : Z) (l : list HookInfo) (i : nat) (h : HookInfo) :
  find_hook t l = Some (i, h) -> l !! i = Some h /\ targetAddress h = t.
Proof.
  unfold find_hook. intros H. apply list_find_Some in H as (Hi & Ht & _).
  split; assumption.
Qed.

Lemma find_hook_None (t : Z) (l : list HookInfo) :
  find_hook t l = None <-> t ∉ (targetAddress <$> l).
Proof.
  unfold find_hook. rewrite list_find_None, Forall_forall. split.
  - intros H Hin. apply list_elem_of_fmap in Hin as (h & -> & Hh).
    exact (H h Hh eq_refl).
  - intros H h Hh Ht. apply H. apply list_elem_of_fmap. exists h. auto.
Qed.

Lemma find_hook_unique (t : Z) (l : list HookInfo) (h : HookInfo) :
  NoDup (targetAddress <$> l) ->
  h ∈ l -> targetAddress h = t ->
  exists i, find_hook t l = Some (i, h).
Proof.
  intros Hnd Hin Ht.
  destruct (find_hook t l) as [[i h']|] eqn:Hfind.
  - exists i. apply find_hook_Some in Hfind as [Hi Ht'].
    apply list_elem_of_lookup in Hin as [j Hj].
    assert (i = j) as ->.
    { apply (NoDup_lookup (targetAddress <$> l) i j t Hnd);
        rewrite list_lookup_fmap; [rewrite Hi | rewrite Hj]; simpl; congruence. }
    congruence.
  - apply find_hook_None in Hfind. exfalso. apply Hfind.
    apply list_elem_of_fmap. exists h. auto.
Qed.

Lemma alter_set_enabled_targets (v : bool) (i : nat) (l : list HookInfo) :
  targetAddress <$> alter (set_enabled v) i l = targetAddress <$> l.
Proof.
  rewrite (list_fmap_alter targetAddress (set_enabled v) id).
  - apply list_alter_id. reflexivity.
  - apply Forall_forall. reflexivity.
Qed.

Lemma find_hook_alter (t : Z) (l : list HookInfo) (i : nat) (h : HookInfo)
    (v : bool) :
  find_hook t l = Some (i, h) ->
  find_hook t (alter (set_enabled v) i l) = Some (i, set_enabled v h).
Proof.
  unfold find_hook. intros H.
  apply list_find_Some in H as (Hi & Ht & Hmin).
  apply list_find_Some. split; [|split].
  - rewrite list_lookup_alter_eq, Hi. reflexivity.
  - exact Ht.
  - intros j y Hj Hlt. rewrite list_lookup_alter_ne in Hj by lia.
    exact (Hmin j y Hj Hlt).
Qed.

(** ** The records of a target *)

Lemma records_of_nil (t : Z) (st : State) :
  records_of t st = [] <-> t ∉ (targetAddress <$> s_hooks st).
Proof.
  unfold records_of. induction (s_hooks st) as [|h l IH].
  - split; [intros _; apply not_elem_of_nil | reflexivity].
  - rewrite filter_cons, fmap_cons, not_elem_of_cons.
    destruct (decide (targetAddress h = t)) as [Ht|Ht].
    + split; [discriminate | intros [Hne _]; congruence].
    + rewrite IH. split; [intros H; split; [congruence | exact H] | tauto].
Qed.

Lemma records_of_at_most_one (t : Z) (st : State) :
  NoDup (targetAddress <$> s_hooks st) ->
  (length (records_of t st) <= 1)%nat.
Proof.
  unfold records_of. induction (s_hooks st) as [|h l IH]; intros Hnd.
  - simpl. lia.
  - rewrite fmap_cons in Hnd. apply NoDup_cons in Hnd as [Hnotin Hnd].
    rewrite filter_cons.
    destruct (decide (targetAddress h = t)) as [Ht|Ht].
    + subst t.
      assert (Hnil : filter (fun h' => targetAddress h' = targetAddress h) l = []).
      { apply (records_of_nil (targetAddress h) (mkState true "" l)).
        exact Hnotin. }
      rewrite Hnil. simpl. lia.
    + apply IH. exact Hnd.
Qed.

(** With pairwise distinct targets, a record in the table is the only
    record of its target. *)
Lemma records_of_unique (t : Z) (st : State) (h : HookInfo) :
  NoDup (targetAddress <$> s_hooks st) ->
  h ∈ s_hooks st -> targetAddress h = t ->
  records_of t st = [h].
Proof.
  intros Hnd Hin Ht.
  assert (Hh : h ∈ records_of t st).
  { unfold records_of. apply list_elem_of_filter. auto. }
  pose proof (records_of_at_most_one t st Hnd) as Hlen.
  destruct (records_of t st) as [|x [|y l]]; simpl in Hlen.
  - apply elem_of_nil in Hh. contradiction.
  - apply list_elem_of_singleton in Hh. subst x. reflexivity.
  - lia.
Qed.

Lemma NoDup_delete_not_elem_of (l : list Z) (i : nat) (x : Z) :
  NoDup l -> l !! i = Some x -> x ∉ delete i l.
Proof.
  intros Hnd Hi.
  rewrite <- (take_drop_middle l i x Hi) in Hnd.
  rewrite delete_take_drop.
  apply NoDup_app in Hnd as (_ & Hdisj & Hnd2).
  apply NoDup_cons in Hnd2 as [Hnotin _].
  rewrite elem_of_app. intros [H|H].
  - apply (Hdisj x H). left.
  - exact (Hnotin H).
Qed.

(** ** The operations keep the invariant *)

Lemma set_lastError_invariant (msg : string) (st : State) :
  table_invariant st -> table_invariant (set_lastError msg st).
Proof. intros H. exact H. Qed.

Lemma disableHook_enabled (t : Z) (st : State) (i : nat) (h : HookInfo) :
  s_initialized st = true ->
  find_hook t (s_hooks st) = Some (i, h) ->
  enabled h = true ->
  disableHook t st =
  (MH_OK, mkState (s_initialized st) "Hook disabled successfully (mock)"
            (alter (set_enabled false) i (s_hooks st))).
Proof.
  intros Hinit Hfind Hen. unfold disableHook.
  rewrite Hinit, Hfind, Hen. reflexivity.
Qed.

Lemma initialize_invariant (st : State) :
  table_invariant st -> table_invariant (snd (initialize st)).
Proof.
  intros Hinv. unfold initialize.
  destruct (s_initialized st) eqn:Hinit; simpl; [exact Hinv|].
  split; simpl; [apply Hinv | discriminate].
Qed.

Lemma createHook_invariant (t hk : Z) (st : State) :
  table_invariant st -> table_invariant (snd (createHook t hk st)).
Proof.
  intros Hinv. unfold createHook.
  destruct (s_initialized st) eqn:Hinit; simpl; [|exact Hinv].
  destruct (find_hook t (s_hooks st)) as [[i h]|] eqn:Hfind; simpl;
    [exact Hinv|].
  split; simpl; [|congruence].
  rewrite fmap_app. apply NoDup_app. split; [apply Hinv|]. split.
  - intros x Hx Hx'. apply list_elem_of_singleton in Hx'. subst x.
    apply find_hook_None in Hfind. exact (Hfind Hx).
  - apply NoDup_singleton.
Qed.

Lemma enableHook_invariant (t : Z) (st : State) :
  table_invariant st -> table_invariant (snd (enableHook t st)).
Proof.
  intros Hinv. unfold enableHook.
  destruct (s_initialized st) eqn:Hinit; simpl; [|exact Hinv].
  destruct (find_hook t (s_hooks st)) as [[i h]|] eqn:Hfind; simpl;
    [|exact Hinv].
  destruct (enabled h); simpl; [exact Hinv|].
  split; simpl; [|congruence].
  rewrite alter_set_enabled_targets. apply Hinv.
Qed.

Lemma disableHook_invariant (t : Z) (st : State) :
  table_invariant st -> table_invariant (snd (disableHook t st)).
Proof.
  intros Hinv. unfold disableHook.
  destruct (s_initialized st) eqn:Hinit; simpl; [|exact Hinv].
  destruct (find_hook t (s_hooks st)) as [[i h]|] eqn:Hfind; simpl;
    [|exact Hinv].
  destruct (enabled h); simpl; [|exact Hinv].
  split; simpl; [|congruence].
  rewrite alter_set_enabled_targets. apply Hinv.
Qed.

(** The table [removeHook] leaves when it finds the record at [i]. *)
Lemma removeHook_found (t : Z) (st : State) (i : nat) (h : HookInfo) :
  s_initialized st = true ->
  find_hook t (s_hooks st) = Some (i, h) ->
  fst (removeHook t st) = MH_OK /\
  s_initialized (snd (removeHook t st)) = true /\
  targetAddress <$> s_hooks (snd (removeHook t st)) =
    delete i (targetAddress <$> s_hooks st).
Proof.
  intros Hinit Hfind. unfold removeHook, removeHook_lookup, removeHook_erase.
  rewrite Hinit, Hfind. simpl.
  destruct (enabled h) eqn:Hen.
  - rewrite (disableHook_enabled t st i h Hinit Hfind Hen). simpl.
    rewrite list_fmap_delete, alter_set_enabled_targets. auto.
  - simpl. rewrite list_fmap_delete. auto.
Qed.

Lemma removeHook_invariant (t : Z) (st : State) :
  table_invariant st -> table_invariant (snd (removeHook t st)).
Proof.
  intros Hinv.
  destruct (s_initialized st) eqn:Hinit.
  - destruct (find_hook t (s_hooks st)) as [[i h]|] eqn:Hfind.
    + destruct (removeHook_found t st i h Hinit Hfind) as (_ & Hi & Htargets).
      split; [|congruence].
      rewrite Htargets.
      eapply sublist_NoDup; [apply Hinv|apply sublist_delete].
    + unfold removeHook, removeHook_lookup, removeHook_erase.
      rewrite Hinit, Hfind. exact Hinv.
  - unfold removeHook, removeHook_lookup, removeHook_erase.
    rewrite Hinit. exact Hinv.
Qed.

Lemma uninitialize_invariant (st : State) :
  table_invariant st -> table_invariant (snd (uninitialize st)).
Proof.
  intros Hinv. unfold uninitialize.
  destruct (s_initialized st) eqn:Hinit; simpl; [|exact Hinv].
  split; simpl; [apply NoDup_nil_2 | reflexivity].
Qed.

Lemma run_invariant (o : operation) (st : State) :
  table_invariant st -> table_invariant (run o st).
Proof.
  destruct o; simpl;
    auto using initialize_invariant, uninitialize_invariant,
      createHook_invariant, enableHook_invariant, disableHook_invariant,
      removeHook_invariant.
Qed.

Lemma reachable_invariant (st : State) :
  reachable st -> table_invariant st.
Proof.
  induction 1 as [|o st _ IH].
  - split; [apply NoDup_nil_2 | reflexivity].
  - apply run_invariant. exact IH.
Qed.

(** The methods of [FunctionHook] write the static state through the
    operations only: they keep it reachable. *)
Lemma install_reachable (fh : FunctionHook) (st : State) :
  reachable st -> reachable (snd (install fh st)).
Proof.
  intros Hreach. unfold install.
  destruct (m_installed fh); [exact Hreach|].
  pose proof (reachable_step
                (OpCreateHook (m_targetAddress fh) (m_hookFunction fh))
                st Hreach) as Hstep.
  simpl in Hstep.
  destruct (createHook (m_targetAddress fh) (m_hookFunction fh) st)
    as [[status original] st'].
  destruct (decide (status = MH_OK)); exact Hstep.
Qed.

Lemma enable_reachable (fh : FunctionHook) (st : State) :
  reachable st -> reachable (snd (enable fh st)).
Proof.
  intros Hreach. unfold enable.
  destruct (negb (m_installed fh)); [exact Hreach|].
  destruct (m_enabled fh); [exact Hreach|].
  pose proof (reachable_step (OpEnableHook (m_targetAddress fh)) st Hreach)
    as Hstep.
  simpl in Hstep.
  destruct (enableHook (m_targetAddress fh) st) as [status st'].
  destruct (decide (status = MH_OK)); exact Hstep.
Qed.

Lemma disable_reachable (fh : FunctionHook) (st : State) :
  reachable st -> reachable (snd (disable fh st)).
Proof.
  intros Hreach. unfold disable.
  destruct (negb (m_installed fh) || negb (m_enabled fh)); [exact Hreach|].
  pose proof (reachable_step (OpDisableHook (m_targetAddress fh)) st Hreach)
    as Hstep.
  simpl in Hstep.
  destruct (disableHook (m_targetAddress fh) st) as [status st'].
  destruct (decide (status = MH_OK)); exact Hstep.
Qed.

Lemma remove_reachable (fh : FunctionHook) (st : State) :
  reachable st -> reachable (snd (remove fh st)).
Proof.
  intros Hreach. unfold remove.
  destruct (negb (m_installed fh)); [exact Hreach|].
  assert (Hstep : forall fh1 st1, reachable st1 ->
            reachable
              (snd (let '(status, st2) := removeHook (m_targetAddress fh1) st1 in
                    if decide (status = MH_OK)
                    then (true,
                          set_m_originalFunction 0 (set_m_installed false fh1),
                          st2)
                    else (false, fh1, st2)))).
  { intros fh1 st1 H1.
    pose proof (reachable_step (OpRemoveHook (m_targetAddress fh1)) st1 H1)
      as H2.
    simpl in H2.
    destruct (removeHook (m_targetAddress fh1) st1) as [status st2].
    destruct (decide (status = MH_OK)); exact H2. }
  destruct (m_enabled fh).
  - pose proof (disable_reachable fh st Hreach) as Hdis.
    destruct (disable fh st) as [[b fh1] st1]. apply Hstep. exact Hdis.
  - apply Hstep. exact Hreach.
Qed.

Lemma destroy_reachable (fh : FunctionHook) (st : State) :
  reachable st -> reachable (destroy fh st).
Proof.
  intros Hreach. unfold destroy.
  destruct (m_installed fh); [|exact Hreach].
  pose proof (remove_reachable fh st Hreach) as H.
  destruct (remove fh st) as [[b fh'] st']. exact H.
Qed.

(** A table with a record is the table of an initialized engine. *)
Lemma record_initialized (st : State) (h : HookInfo) :
  table_invariant st -> h ∈ s_hooks st -> s_initialized st = true.
Proof.
  intros [_ Hempty] Hin. destruct (s_initialized st); [reflexivity|].
  rewrite (Hempty eq_refl) in Hin. apply elem_of_nil in Hin. contradiction.
Qed.

(** ** The hook table *)

(** C5.  In every reachable state the table holds at most one record
    per target address; and [createHook] on a target that has a record
    returns [MH_ERROR_ALREADY_CREATED], stores no original address and
    leaves the table as it was: only the last-error message changes. *)
Theorem one_record_per_target (st : State) :
  reachable st ->
  (forall target, (length (records_of target st) <= 1)%nat)
  /\
  (forall target hook h,
     h ∈ s_hooks st -> targetAddress h = target ->
     createHook target hook st =
       (MH_ERROR_ALREADY_CREATED, None,
        set_lastError "Hook already exists for this address" st)
     /\ s_hooks (snd (createHook target hook st)) = s_hooks st
     /\ records_of target (snd (createHook target hook st)) = [h]).
Proof.
  intros Hreach. pose proof (reachable_invariant st Hreach) as Hinv.
  split.
  - intros target. apply records_of_at_most_one, Hinv.
  - intros target hook h Hin Ht.
    pose proof (record_initialized st h Hinv Hin) as Hinit.
    destruct (find_hook_unique target (s_hooks st) h (proj1 Hinv) Hin Ht)
      as [i Hfind].
    assert (Hcreate : createHook target hook st =
              (MH_ERROR_ALREADY_CREATED, None,
               set_lastError "Hook already exists for this address" st)).
    { unfold createHook. rewrite Hinit, Hfind. reflexivity. }
    rewrite Hcreate. simpl. split; [reflexivity|]. split; [reflexivity|].
    assert (Hh : h ∈ records_of target st).
    { unfold records_of. apply list_elem_of_filter. auto. }
    pose proof (records_of_at_most_one target st (proj1 Hinv)) as Hlen.
    unfold records_of, set_lastError in *. simpl.
    destruct (filter _ (s_hooks st)) as [|h1 [|h2 l]]; simpl in Hlen.
    + apply elem_of_nil in Hh. contradiction.
    + apply list_elem_of_singleton in Hh. congruence.
    + lia.
Qed.

Lemma one_record_per_target_witness :
  reachable created_state /\
  fst (fst (createHook 0x400000 0x402000 created_state))
    = MH_ERROR_ALREADY_CREATED /\
  records_of 0x400000 (snd (createHook 0x400000 0x402000 created_state)) =
    [mkHookInfo "" 0x400000 0x401000 0x400000 HOOK_JMP false].
Proof.
  assert (Hreach : reachable created_state).
  { apply reachable_step, reachable_step, reachable_initial. }
  split; [exact Hreach|].
  destruct (one_record_per_target created_state Hreach) as [_ Hsecond].
  destruct (Hsecond 0x400000 0x402000
              (mkHookInfo "" 0x400000 0x401000 0x400000 HOOK_JMP false))
    as (Hcreate & _ & Hrecords).
  - vm_compute. left.
  - reflexivity.
  - rewrite Hcreate. split; [reflexivity|].
    rewrite Hcreate in Hrecords. exact Hrecords.
Defined.

(** C6 (as amended).  In a reachable state where the record of the
    target is enabled, [MinHookWrapper::enableHook] returns
    [MH_ERROR_ENABLED] and changes nothing but the last-error message.
    [FunctionHook::enable] on an object that is already enabled returns
    [true] without calling the engine and changes nothing at all; on an
    installed object that is not marked enabled it returns [false] and
    the object stays as it was. *)
Theorem enable_on_enabled_hook (st : State) :
  reachable st ->
  forall target h,
    h ∈ s_hooks st -> targetAddress h = target -> enabled h = true ->
    enableHook target st =
      (MH_ERROR_ENABLED, set_lastError "Hook already enabled" st)
    /\
    (forall fh, m_targetAddress fh = target ->
       m_installed fh = true -> m_enabled fh = true ->
       enable fh st = (true, fh, st))
    /\
    (forall fh, m_targetAddress fh = target ->
       m_installed fh = true -> m_enabled fh = false ->
       enable fh st = (false, fh, set_lastError "Hook already enabled" st)).
Proof.
  intros Hreach target h Hin Ht Hen.
  pose proof (reachable_invariant st Hreach) as Hinv.
  pose proof (record_initialized st h Hinv Hin) as Hinit.
  destruct (find_hook_unique target (s_hooks st) h (proj1 Hinv) Hin Ht)
    as [i Hfind].
  assert (Hengine : enableHook target st =
            (MH_ERROR_ENABLED, set_lastError "Hook already enabled" st)).
  { unfold enableHook. rewrite Hinit, Hfind, Hen. reflexivity. }
  split; [exact Hengine|]. split.
  - intros fh _ Hinst Henab. unfold enable. rewrite Hinst, Henab. reflexivity.
  - intros fh Htarget Hinst Henab. unfold enable.
    rewrite Hinst, Henab, Htarget, Hengine. reflexivity.
Qed.

Lemma enable_on_enabled_hook_witness :
  reachable enabled_state /\
  enableHook 0x400000 enabled_state =
    (MH_ERROR_ENABLED, set_lastError "Hook already enabled" enabled_state).
Proof.
  assert (Hreach : reachable enabled_state).
  { apply reachable_step, reachable_step, reachable_step, reachable_initial. }
  split; [exact Hreach|].
  apply (enable_on_enabled_hook enabled_state Hreach 0x400000
           (mkHookInfo "" 0x400000 0x401000 0x400000 HOOK_JMP true)).
  - vm_compute. left.
  - reflexivity.
  - reflexivity.
Defined.

(** C6, the input that refutes the claim as first stated: after
    [install()] and [enable()] the record of the target is enabled, and
    a second [enable()] on the object returns [true]; no error is
    reported and the last-error message is still that of the success. *)
Lemma second_enable_reports_success :
  records_of 0x400000 (snd enabled_example) =
    [mkHookInfo "" 0x400000 0x401000 0x400000 HOOK_JMP true] /\
  enable (fst enabled_example) (snd enabled_example) =
    (true, fst enabled_example, snd enabled_example) /\
  getLastError (snd (enable (fst enabled_example) (snd enabled_example))) =
    "Hook enabled successfully (mock)"%string.
Proof. vm_compute. repeat split. Qed.

(** C10.  While the engine is not initialized, [createHook],
    [enableHook], [disableHook] and [removeHook] all return
    [MH_ERROR_NOT_INITIALIZED] and leave the table as it is; only the
    last-error message is written. *)
Theorem uninitialized_engine_rejects_operations
    (st : State) (target hook : Z) :
  s_initialized st = false ->
  createHook target hook st =
    (MH_ERROR_NOT_INITIALIZED, None, set_lastError "MinHook not initialized" st)
  /\ enableHook target st =
       (MH_ERROR_NOT_INITIALIZED, set_lastError "MinHook not initialized" st)
  /\ disableHook target st =
       (MH_ERROR_NOT_INITIALIZED, set_lastError "MinHook not initialized" st)
  /\ removeHook target st =
       (MH_ERROR_NOT_INITIALIZED, set_lastError "MinHook not initialized" st)
  /\ s_hooks (set_lastError "MinHook not initialized" st) = s_hooks st
  /\ s_initialized (set_lastError "MinHook not initialized" st) = false.
Proof.
  intros Hinit.
  unfold createHook, enableHook, disableHook,
    removeHook, removeHook_lookup, removeHook_erase.
  rewrite Hinit. simpl. repeat split. exact Hinit.
Qed.

Lemma uninitialized_engine_rejects_operations_witness :
  s_initialized initial_state = false /\
  createHook 0x400000 0x401000 initial_state =
    (MH_ERROR_NOT_INITIALIZED, None,
     set_lastError "MinHook not initialized" initial_state).
Proof.
  split; [reflexivity|].
  apply (uninitialized_engine_rejects_operations initial_state
           0x400000 0x401000 eq_refl).
Defined.

(** The engine is uninitialized before [initialize] and after
    [uninitialize]. *)
Lemma engine_uninitialized_states (st : State) :
  s_initialized initial_state = false /\
  s_initialized (snd (uninitialize st)) = false.
Proof.
  split; [reflexivity|]. unfold uninitialize.
  destruct (s_initialized st) eqn:Hinit; simpl; [reflexivity|exact Hinit].
Qed.

(** ** Removal and teardown *)

(** After [removeHook] the target has no record, whatever the call
    returned. *)
Lemma removeHook_clears (t : Z) (st : State) :
  table_invariant st -> records_of t (snd (removeHook t st)) = [].
Proof.
  intros Hinv. apply records_of_nil.
  destruct (s_initialized st) eqn:Hinit.
  - destruct (find_hook t (s_hooks st)) as [[i h]|] eqn:Hfind.
    + destruct (removeHook_found t st i h Hinit Hfind) as (_ & _ & ->).
      apply NoDup_delete_not_elem_of; [apply Hinv|].
      apply find_hook_Some in Hfind as [Hi Ht].
      rewrite list_lookup_fmap, Hi. simpl. congruence.
    + unfold removeHook, removeHook_lookup, removeHook_erase.
      rewrite Hinit, Hfind. simpl.
      apply find_hook_None. exact Hfind.
  - unfold removeHook, removeHook_lookup, removeHook_erase.
    rewrite Hinit. simpl.
    rewrite (proj2 Hinv Hinit). apply not_elem_of_nil.
Qed.

Lemma disable_target (fh : FunctionHook) (st : State) :
  m_targetAddress (snd (fst (disable fh st))) = m_targetAddress fh.
Proof.
  unfold disable.
  destruct (negb (m_installed fh) || negb (m_enabled fh)); [reflexivity|].
  destruct (disableHook (m_targetAddress fh) st) as [status st'].
  destruct (decide (status = MH_OK)); reflexivity.
Qed.

Lemma disable_invariant (fh : FunctionHook) (st : State) :
  table_invariant st -> table_invariant (snd (disable fh st)).
Proof.
  intros Hinv. unfold disable.
  destruct (negb (m_installed fh) || negb (m_enabled fh)); [exact Hinv|].
  pose proof (disableHook_invariant (m_targetAddress fh) st Hinv) as Hinv'.
  destruct (disableHook (m_targetAddress fh) st) as [status st'].
  destruct (decide (status = MH_OK)); exact Hinv'.
Qed.

Lemma remove_clears (fh : FunctionHook) (st : State) :
  table_invariant st -> m_installed fh = true ->
  records_of (m_targetAddress fh) (snd (remove fh st)) = [].
Proof.
  intros Hinv Hinst. unfold remove. rewrite Hinst. simpl.
  destruct (m_enabled fh).
  - pose proof (disable_target fh st) as Htarget.
    pose proof (disable_invariant fh st Hinv) as Hinv1.
    destruct (disable fh st) as [[b fh1] st1]. simpl in Htarget, Hinv1.
    pose proof (removeHook_clears (m_targetAddress fh1) st1 Hinv1) as Hclear.
    destruct (removeHook (m_targetAddress fh1) st1) as [status st2].
    rewrite Htarget in Hclear.
    destruct (decide (status = MH_OK)); exact Hclear.
  - pose proof (removeHook_clears (m_targetAddress fh) st Hinv) as Hclear.
    destruct (removeHook (m_targetAddress fh) st) as [status st2].
    destruct (decide (status = MH_OK)); exact Hclear.
Qed.

Lemma disableHook_table (t : Z) (st : State) :
  targetAddress <$> s_hooks (snd (disableHook t st)) =
    targetAddress <$> s_hooks st /\
  s_initialized (snd (disableHook t st)) = s_initialized st.
Proof.
  unfold disableHook.
  destruct (s_initialized st) eqn:Hinit; simpl; [|auto].
  destruct (find_hook t (s_hooks st)) as [[i h]|]; simpl; [|auto].
  destruct (enabled h); simpl; [|auto].
  rewrite alter_set_enabled_targets. auto.
Qed.

Lemma disable_table (fh : FunctionHook) (st : State) :
  targetAddress <$> s_hooks (snd (disable fh st)) =
    targetAddress <$> s_hooks st /\
  s_initialized (snd (disable fh st)) = s_initialized st.
Proof.
  unfold disable.
  destruct (negb (m_installed fh) || negb (m_enabled fh)); [auto|].
  pose proof (disableHook_table (m_targetAddress fh) st) as H.
  destruct (disableHook (m_targetAddress fh) st) as [status st'].
  destruct (decide (status = MH_OK)); exact H.
Qed.

Lemma removeHook_ok (t : Z) (st : State) :
  s_initialized st = true ->
  t ∈ (targetAddress <$> s_hooks st) ->
  fst (removeHook t st) = MH_OK.
Proof.
  intros Hinit Hin.
  destruct (find_hook t (s_hooks st)) as [[i h]|] eqn:Hfind.
  - apply (removeHook_found t st i h Hinit Hfind).
  - apply find_hook_None in Hfind. contradiction.
Qed.

(** [remove] on an installed object whose target has a record succeeds
    and marks the object uninstalled. *)
Lemma remove_succeeds (fh : FunctionHook) (st : State) :
  table_invariant st -> m_installed fh = true ->
  m_targetAddress fh ∈ (targetAddress <$> s_hooks st) ->
  fst (fst (remove fh st)) = true /\
  isInstalled (snd (fst (remove fh st))) = false.
Proof.
  intros Hinv Hinst Hin.
  assert (Hinit : s_initialized st = true).
  { destruct (s_initialized st) eqn:E; [reflexivity|].
    rewrite (proj2 Hinv E) in Hin. apply elem_of_nil in Hin. contradiction. }
  unfold remove. rewrite Hinst. simpl.
  destruct (m_enabled fh).
  - pose proof (disable_target fh st) as Htarget.
    destruct (disable_table fh st) as [Htargets Hinit1].
    destruct (disable fh st) as [[b fh1] st1].
    simpl in Htarget, Htargets, Hinit1.
    assert (Hok : fst (removeHook (m_targetAddress fh1) st1) = MH_OK).
    { apply removeHook_ok; [congruence|]. rewrite Htarget, Htargets. exact Hin. }
    destruct (removeHook (m_targetAddress fh1) st1) as [status st2].
    simpl in Hok. subst status.
    destruct (decide (MH_OK = MH_OK)); [|contradiction]. split; reflexivity.
  - pose proof (removeHook_ok (m_targetAddress fh) st Hinit Hin) as Hok.
    destruct (removeHook (m_targetAddress fh) st) as [status st2].
    simpl in Hok. subst status.
    destruct (decide (MH_OK = MH_OK)); [|contradiction]. split; reflexivity.
Qed.

(** C7.  In a reachable state, let the record [h] of a target be
    enabled.  [removeHook] then calls [disableHook], which succeeds and
    leaves the record disabled (the only record of the target, with its
    other fields as they were), and erases the record from that state:
    the call returns [MH_OK], leaves no record of the target, and is the
    same as [disableHook] followed by [removeHook], so that the caller
    need not disable first.  [FunctionHook::remove] on an installed and
    enabled object with such a record does the same through [disable]:
    it is [disable] followed by [remove], it returns [true], and the
    object is afterwards neither enabled nor installed.  And the
    destructor of a [FunctionHook] that is installed, enabled or not,
    leaves no record of its target in the table; it does so through
    [remove], which succeeds and marks the object uninstalled when the
    target has a record. *)
Theorem remove_disables_first_and_teardown_clears (st : State) :
  reachable st ->
  (forall target h,
     h ∈ s_hooks st -> targetAddress h = target -> enabled h = true ->
     exists i,
       find_hook target (s_hooks st) = Some (i, h) /\
       (* the call of [disableHook] inside [removeHook] *)
       removeHook_lookup target st = inr (i, snd (disableHook target st)) /\
       fst (disableHook target st) = MH_OK /\
       s_hooks (snd (disableHook target st)) !! i =
         Some (set_enabled false h) /\
       records_of target (snd (disableHook target st)) =
         [set_enabled false h] /\
       (* the record is erased from the state [disableHook] left *)
       removeHook target st =
         removeHook_erase i (snd (disableHook target st)) /\
       removeHook target st =
         removeHook target (snd (disableHook target st)) /\
       fst (removeHook target st) = MH_OK /\
       records_of target (snd (removeHook target st)) = [])
  /\
  (forall fh h,
     m_installed fh = true -> m_enabled fh = true ->
     h ∈ s_hooks st -> targetAddress h = m_targetAddress fh ->
     enabled h = true ->
     disable fh st =
       (true, set_m_enabled false fh,
        snd (disableHook (m_targetAddress fh) st)) /\
     records_of (m_targetAddress fh) (snd (disable fh st)) =
       [set_enabled false h] /\
     remove fh st =
       remove (set_m_enabled false fh) (snd (disable fh st)) /\
     fst (fst (remove fh st)) = true /\
     isEnabled (snd (fst (remove fh st))) = false /\
     isInstalled (snd (fst (remove fh st))) = false /\
     records_of (m_targetAddress fh) (snd (remove fh st)) = [])
  /\
  (forall fh,
     m_installed fh = true ->
     destroy fh st = snd (remove fh st) /\
     records_of (m_targetAddress fh) (destroy fh st) = [] /\
     (m_targetAddress fh ∈ (targetAddress <$> s_hooks st) ->
      fst (fst (remove fh st)) = true /\
      isInstalled (snd (fst (remove fh st))) = false)).
Proof.
  intros Hreach. pose proof (reachable_invariant st Hreach) as Hinv.
  assert (Hengine : forall target h,
    h ∈ s_hooks st -> targetAddress h = target -> enabled h = true ->
    exists i,
      find_hook target (s_hooks st) = Some (i, h) /\
      disableHook target st =
        (MH_OK, mkState true "Hook disabled successfully (mock)"
                  (alter (set_enabled false) i (s_hooks st))) /\
      removeHook_lookup target st = inr (i, snd (disableHook target st)) /\
      removeHook_lookup target (snd (disableHook target st)) =
        inr (i, snd (disableHook target st)) /\
      records_of target (snd (disableHook target st)) =
        [set_enabled false h]).
  { intros target h Hin Ht Hen.
    pose proof (record_initialized st h Hinv Hin) as Hinit.
    destruct (find_hook_unique target (s_hooks st) h (proj1 Hinv) Hin Ht)
      as [i Hfind].
    pose proof (disableHook_enabled target st i h Hinit Hfind Hen) as Hdis.
    rewrite Hinit in Hdis.
    pose proof (find_hook_alter target (s_hooks st) i h false Hfind) as Hfind'.
    exists i. split; [exact Hfind|]. split; [exact Hdis|].
    split; [|split].
    - unfold removeHook_lookup. rewrite Hinit, Hfind, Hen. reflexivity.
    - rewrite Hdis. unfold removeHook_lookup. simpl. rewrite Hfind'.
      reflexivity.
    - rewrite Hdis. simpl.
      destruct (find_hook_Some _ _ _ _ Hfind') as [Hlook Htarget].
      apply records_of_unique; simpl.
      + rewrite alter_set_enabled_targets. exact (proj1 Hinv).
      + apply (list_elem_of_lookup_2 _ i). exact Hlook.
      + exact Htarget. }
  split; [|split].
  - intros target h Hin Ht Hen.
    destruct (Hengine target h Hin Ht Hen)
      as (i & Hfind & Hdis & Hlookup & Hlookup' & Hrec).
    exists i. split; [exact Hfind|]. split; [exact Hlookup|].
    split; [rewrite Hdis; reflexivity|].
    split.
    { rewrite Hdis. simpl.
      exact (proj1 (find_hook_Some _ _ _ _
                      (find_hook_alter target (s_hooks st) i h false Hfind))). }
    split; [exact Hrec|].
    split; [unfold removeHook; rewrite Hlookup; reflexivity|].
    split.
    { unfold removeHook. rewrite Hlookup', Hlookup. reflexivity. }
    split.
    + unfold removeHook. rewrite Hlookup. reflexivity.
    + apply removeHook_clears. exact Hinv.
  - intros fh h Hinst Hen Hin Ht Henh.
    destruct (Hengine (m_targetAddress fh) h Hin Ht Henh)
      as (i & Hfind & Hdis & Hlookup & Hlookup' & Hrec).
    assert (Hdisable : disable fh st =
      (true, set_m_enabled false fh,
       snd (disableHook (m_targetAddress fh) st))).
    { unfold disable. rewrite Hinst, Hen, Hdis. reflexivity. }
    assert (Hremove : remove fh st =
      remove (set_m_enabled false fh) (snd (disable fh st))).
    { unfold remove at 1. rewrite Hinst, Hen, Hdisable. simpl.
      unfold remove. simpl. rewrite Hinst. reflexivity. }
    split; [exact Hdisable|].
    split; [rewrite Hdisable; exact Hrec|].
    split; [exact Hremove|].
    assert (Hresult : remove fh st =
      (true,
       set_m_originalFunction 0
         (set_m_installed false (set_m_enabled false fh)),
       snd (removeHook (m_targetAddress fh) st))).
    { unfold remove. rewrite Hinst, Hen, Hdisable. simpl.
      unfold removeHook. rewrite Hlookup', Hlookup. reflexivity. }
    rewrite Hresult. simpl.
    split; [reflexivity|]. split; [reflexivity|]. split; [reflexivity|].
    apply removeHook_clears. exact Hinv.
  - intros fh Hinst.
    assert (Hdestroy : destroy fh st = snd (remove fh st)).
    { unfold destroy. rewrite Hinst.
      destruct (remove fh st) as [[b fh'] st']. reflexivity. }
    split; [exact Hdestroy|]. split.
    + rewrite Hdestroy. apply remove_clears; assumption.
    + apply remove_succeeds; assumption.
Qed.

Lemma remove_disables_first_and_teardown_clears_witness :
  reachable enabled_state /\
  records_of 0x400000 (snd (disableHook 0x400000 enabled_state)) =
    [mkHookInfo "" 0x400000 0x401000 0x400000 HOOK_JMP false] /\
  fst (removeHook 0x400000 enabled_state) = MH_OK /\
  records_of 0x400000 (snd (removeHook 0x400000 enabled_state)) = [].
Proof.
  assert (Hreach : reachable enabled_state).
  { apply reachable_step, reachable_step, reachable_step, reachable_initial. }
  split; [exact Hreach|].
  destruct (remove_disables_first_and_teardown_clears enabled_state Hreach)
    as [Hremove _].
  destruct (Hremove 0x400000
              (mkHookInfo "" 0x400000 0x401000 0x400000 HOOK_JMP true))
    as (i & _ & _ & _ & _ & Hdisabled & _ & _ & Hok & Hnone).
  - vm_compute. left.
  - reflexivity.
  - reflexivity.
  - split; [exact Hdisabled|]. split; assumption.
Defined.

(** ** Installation *)

(** C8.  When [createHook] reports a status other than [MH_OK] during
    [install], the call returns [false], the object is as before (it
    stays uninstalled) and so is the static state, but for the
    last-error message: no record is created. *)
Theorem install_failure_creates_nothing (fh : FunctionHook) (st : State) :
  m_installed fh = false ->
  fst (fst (createHook (m_targetAddress fh) (m_hookFunction fh) st)) <> MH_OK ->
  (exists msg, install fh st = (false, fh, set_lastError msg st))
  /\ isInstalled (snd (fst (install fh st))) = false
  /\ s_hooks (snd (install fh st)) = s_hooks st
  /\ s_initialized (snd (install fh st)) = s_initialized st.
Proof.
  intros Hinst Hfail.
  assert (Hex : exists msg, install fh st = (false, fh, set_lastError msg st)).
  { unfold install. rewrite Hinst.
    unfold createHook in *.
    destruct (s_initialized st); simpl in *.
    - destruct (find_hook (m_targetAddress fh) (s_hooks st)) as [[i h]|];
        simpl in *; [eauto | contradiction].
    - eauto. }
  split; [exact Hex|].
  destruct Hex as [msg ->]. simpl. auto.
Qed.

Lemma install_failure_creates_nothing_witness :
  m_installed example_hook = false /\
  isInstalled (snd (fst (install example_hook initial_state))) = false /\
  s_hooks (snd (install example_hook initial_state)) = s_hooks initial_state.
Proof.
  split; [reflexivity|].
  destruct (install_failure_creates_nothing example_hook initial_state)
    as (_ & Hflag & Hhooks & _).
  - reflexivity.
  - vm_compute. discriminate.
  - split; assumption.
Defined.

(** ** Lists of records: lookups after the updates *)

Lemma find_hook_app_new (t : Z) (l : list HookInfo) (x : HookInfo) :
  t ∉ (targetAddress <$> l) -> targetAddress x = t ->
  find_hook t (l ++ [x]) = Some (length l, x).
Proof.
  intros Hnotin Hx. unfold find_hook. apply list_find_Some.
  split; [|split].
  - rewrite lookup_app_r by lia. rewrite Nat.sub_diag. reflexivity.
  - exact Hx.
  - intros j y Hj Hlt Hy. rewrite lookup_app_l in Hj by lia.
    apply Hnotin. apply list_elem_of_fmap. exists y.
    split; [congruence|]. apply list_elem_of_lookup. eauto.
Qed.

Lemma delete_app_last (l : list HookInfo) (x : HookInfo) :
  delete (length l) (l ++ [x]) = l.
Proof.
  induction l as [|y l IH]; simpl; [reflexivity|]. f_equal. exact IH.
Qed.

Lemma alter_app_last (f : HookInfo -> HookInfo) (l : list HookInfo)
    (x : HookInfo) :
  alter f (length l) (l ++ [x]) = l ++ [f x].
Proof.
  induction l as [|y l IH]; [reflexivity|].
  cbn. f_equal. exact IH.
Qed.

Lemma alter_fixpoint (f : HookInfo -> HookInfo) (l : list HookInfo) (i : nat)
    (h : HookInfo) :
  l !! i = Some h -> f h = h -> alter f i l = l.
Proof.
  revert i. induction l as [|y l IH]; intros [|i] Hi Hf; simpl in *;
    try discriminate.
  - injection Hi as ->. cbn. rewrite Hf. reflexivity.
  - cbn. f_equal. apply IH; assumption.
Qed.

Lemma delete_alter (f : HookInfo -> HookInfo) (l : list HookInfo) (i : nat) :
  delete i (alter f i l) = delete i l.
Proof.
  revert i. induction l as [|y l IH]; intros [|i]; cbn; try reflexivity.
  f_equal. apply IH.
Qed.

Lemma filter_alter_other (P : HookInfo -> Prop) `{!forall h, Decision (P h)}
    (f : HookInfo -> HookInfo) (l : list HookInfo) (i : nat) (h : HookInfo) :
  l !! i = Some h -> ~ P h -> ~ P (f h) ->
  filter P (alter f i l) = filter P l.
Proof.
  revert i. induction l as [|y l IH]; intros [|i] Hi Hh Hfh; simpl in Hi;
    try discriminate.
  - injection Hi as ->. change (alter f 0%nat (h :: l)) with (f h :: l).
    rewrite !filter_cons, !decide_False by assumption. reflexivity.
  - change (alter f (S i) (y :: l)) with (y :: alter f i l).
    rewrite !filter_cons. rewrite (IH i Hi Hh Hfh). reflexivity.
Qed.

Lemma filter_delete_other (P : HookInfo -> Prop) `{!forall h, Decision (P h)}
    (l : list HookInfo) (i : nat) (h : HookInfo) :
  l !! i = Some h -> ~ P h -> filter P (delete i l) = filter P l.
Proof.
  revert i. induction l as [|y l IH]; intros [|i] Hi Hh; simpl in Hi;
    try discriminate.
  - injection Hi as ->. change (delete 0%nat (h :: l)) with l.
    rewrite filter_cons, decide_False by assumption. reflexivity.
  - change (delete (S i) (y :: l)) with (y :: delete i l).
    rewrite !filter_cons. rewrite (IH i Hi Hh). reflexivity.
Qed.

Lemma filter_all (P : HookInfo -> Prop) `{!forall h, Decision (P h)}
    (l : list HookInfo) :
  (forall h, h ∈ l -> P h) -> filter P l = l.
Proof.
  induction l as [|y l IH]; intros Hall; [reflexivity|].
  rewrite filter_cons, decide_True by (apply Hall; left).
  f_equal. apply IH. intros h Hh. apply Hall. right. exact Hh.
Qed.

Lemma delete_is_filter (l : list HookInfo) (i : nat) (h : HookInfo) :
  NoDup (targetAddress <$> l) -> l !! i = Some h ->
  delete i l = filter (fun h' => targetAddress h' <> targetAddress h) l.
Proof.
  revert i. induction l as [|y l IH]; intros [|i] Hnd Hi; simpl in Hi;
    try discriminate.
  - injection Hi as ->. change (delete 0%nat (h :: l)) with l.
    rewrite fmap_cons in Hnd. apply NoDup_cons in Hnd as [Hnotin _].
    rewrite filter_cons, decide_False by (intros H; apply H; reflexivity).
    symmetry.
    apply (filter_all (fun h' => targetAddress h' <> targetAddress h)).
    intros h' Hh' Heq. apply Hnotin.
    apply list_elem_of_fmap. exists h'. auto.
  - change (delete (S i) (y :: l)) with (y :: delete i l).
    rewrite fmap_cons in Hnd. apply NoDup_cons in Hnd as [Hnotin Hnd].
    rewrite filter_cons, decide_True.
    + f_equal. apply IH; assumption.
    + intros Heq. apply Hnotin. apply list_elem_of_fmap. exists h.
      split; [exact Heq|]. apply list_elem_of_lookup. eauto.
Qed.

(** ** Creating, enabling, disabling and removing *)

Lemma createHook_fresh (target hook : Z) (st : State) :
  s_initialized st = true ->
  target ∉ (targetAddress <$> s_hooks st) ->
  createHook target hook st =
    (MH_OK, Some target,
     mkState true "Hook created successfully (mock)"
       (s_hooks st ++ [mkHookInfo "" target hook target HOOK_JMP false])).
Proof.
  intros Hinit Hnotin. unfold createHook.
  rewrite Hinit, (proj2 (find_hook_None target (s_hooks st)) Hnotin).
  reflexivity.
Qed.

(** X15.  [createHook] succeeds exactly when the engine is initialized
    and the target has no record.  It then reports the target itself as
    the original address and appends one record for the target: not
    enabled, with the routine given; that record is the only record of
    the target and the one later calls find. *)
Theorem createHook_adds_one_disabled_record (target hook : Z) (st : State) :
  (fst (fst (createHook target hook st)) = MH_OK <->
   s_initialized st = true /\ target ∉ (targetAddress <$> s_hooks st))
  /\
  (s_initialized st = true ->
   target ∉ (targetAddress <$> s_hooks st) ->
   createHook target hook st =
     (MH_OK, Some target,
      mkState true "Hook created successfully (mock)"
        (s_hooks st ++ [mkHookInfo "" target hook target HOOK_JMP false]))
   /\
   records_of target (snd (createHook target hook st)) =
     [mkHookInfo "" target hook target HOOK_JMP false]
   /\
   find_hook target (s_hooks (snd (createHook target hook st))) =
     Some (length (s_hooks st),
           mkHookInfo "" target hook target HOOK_JMP false)).
Proof.
  split.
  - unfold createHook.
    destruct (s_initialized st); simpl; [|split; [discriminate|intros [? _]; discriminate]].
    destruct (find_hook target (s_hooks st)) as [[i h]|] eqn:Hfind; simpl.
    + split; [discriminate|]. intros [_ Hnotin].
      apply find_hook_None in Hnotin. congruence.
    + split; [|reflexivity]. intros _. split; [reflexivity|].
      apply find_hook_None. exact Hfind.
  - intros Hinit Hnotin.
    rewrite (createHook_fresh target hook st Hinit Hnotin). simpl.
    split; [reflexivity|]. split.
    + unfold records_of. simpl. rewrite filter_app.
      pose proof (proj2 (records_of_nil target st) Hnotin) as Hnil.
      unfold records_of in Hnil. rewrite Hnil. simpl.
      rewrite filter_cons, decide_True by reflexivity. reflexivity.
    + apply find_hook_app_new; [exact Hnotin|reflexivity].
Qed.

Lemma createHook_adds_one_disabled_record_witness :
  s_initialized ready_state = true /\
  createHook 0x400000 0x401000 ready_state =
    (MH_OK, Some 0x400000,
     mkState true "Hook created successfully (mock)"
       [mkHookInfo "" 0x400000 0x401000 0x400000 HOOK_JMP false]).
Proof.
  split; [reflexivity|].
  destruct (createHook_adds_one_disabled_record 0x400000 0x401000 ready_state)
    as [_ Hfresh].
  apply Hfresh; [reflexivity|]. apply not_elem_of_nil.
Defined.

Lemma enableHook_disabled (t : Z) (st : State) (i : nat) (h : HookInfo) :
  s_initialized st = true ->
  find_hook t (s_hooks st) = Some (i, h) ->
  enabled h = false ->
  enableHook t st =
  (MH_OK, mkState (s_initialized st) "Hook enabled successfully (mock)"
            (alter (set_enabled true) i (s_hooks st))).
Proof.
  intros Hinit Hfind Hen. unfold enableHook.
  rewrite Hinit, Hfind, Hen. reflexivity.
Qed.

Lemma enableHook_ok_inv (t : Z) (st : State) :
  fst (enableHook t st) = MH_OK ->
  exists i h, s_initialized st = true /\
    find_hook t (s_hooks st) = Some (i, h) /\ enabled h = false.
Proof.
  unfold enableHook.
  destruct (s_initialized st); simpl; [|discriminate].
  destruct (find_hook t (s_hooks st)) as [[i h]|]; simpl; [|discriminate].
  destruct (enabled h) eqn:Hen; simpl; [discriminate|].
  intros _. exists i, h. auto.
Qed.

Lemma disableHook_ok_inv (t : Z) (st : State) :
  fst (disableHook t st) = MH_OK ->
  exists i h, s_initialized st = true /\
    find_hook t (s_hooks st) = Some (i, h) /\ enabled h = true.
Proof.
  unfold disableHook.
  destruct (s_initialized st); simpl; [|discriminate].
  destruct (find_hook t (s_hooks st)) as [[i h]|]; simpl; [|discriminate].
  destruct (enabled h) eqn:Hen; simpl; [|discriminate].
  intros _. exists i, h. auto.
Qed.

Lemma set_enabled_same (h : HookInfo) (v : bool) :
  enabled h = v -> set_enabled v h = h.
Proof. intros <-. destruct h. reflexivity. Qed.

(** X16.  Enabling and then disabling (or disabling and then enabling)
    a hook leaves the table exactly as it was: when the first call
    succeeds, so does the second, and the records are those before
    the first. *)
Theorem enable_disable_restore_table (target : Z) (st : State) :
  (fst (enableHook target st) = MH_OK ->
   fst (disableHook target (snd (enableHook target st))) = MH_OK /\
   s_hooks (snd (disableHook target (snd (enableHook target st)))) = s_hooks st /\
   s_initialized (snd (disableHook target (snd (enableHook target st))))
     = s_initialized st)
  /\
  (fst (disableHook target st) = MH_OK ->
   fst (enableHook target (snd (disableHook target st))) = MH_OK /\
   s_hooks (snd (enableHook target (snd (disableHook target st)))) = s_hooks st /\
   s_initialized (snd (enableHook target (snd (disableHook target st))))
     = s_initialized st).
Proof.
  split.
  - intros Hok.
    apply enableHook_ok_inv in Hok as (i & h & Hinit & Hfind & Hen).
    rewrite (enableHook_disabled target st i h Hinit Hfind Hen). simpl.
    rewrite (disableHook_enabled target _ i (set_enabled true h)); simpl;
      [|exact Hinit|apply find_hook_alter; exact Hfind|reflexivity].
    split; [reflexivity|]. split; [|reflexivity].
    rewrite list_alter_alter_eq.
    apply find_hook_Some in Hfind as [Hi _].
    apply (alter_fixpoint _ _ i h Hi). simpl.
    apply (set_enabled_same h false Hen).
  - intros Hok.
    apply disableHook_ok_inv in Hok as (i & h & Hinit & Hfind & Hen).
    rewrite (disableHook_enabled target st i h Hinit Hfind Hen). simpl.
    rewrite (enableHook_disabled target _ i (set_enabled false h)); simpl;
      [|exact Hinit|apply find_hook_alter; exact Hfind|reflexivity].
    split; [reflexivity|]. split; [|reflexivity].
    rewrite list_alter_alter_eq.
    apply find_hook_Some in Hfind as [Hi _].
    apply (alter_fixpoint _ _ i h Hi). simpl.
    apply (set_enabled_same h true Hen).
Qed.

Lemma enable_disable_restore_table_witness :
  fst (enableHook 0x400000 created_state) = MH_OK /\
  s_hooks (snd (disableHook 0x400000 (snd (enableHook 0x400000 created_state))))
    = s_hooks created_state.
Proof.
  assert (Hok : fst (enableHook 0x400000 created_state) = MH_OK) by reflexivity.
  split; [exact Hok|].
  destruct (enable_disable_restore_table 0x400000 created_state) as [Hen _].
  destruct (Hen Hok) as (_ & Hhooks & _). exact Hhooks.
Defined.

(** The records of another target after an update at [i]. *)
Lemma records_of_alter_other (t t' : Z) (st : State) (i : nat) (h : HookInfo)
    (v : bool) (init : bool) (msg : string) :
  t' <> t -> find_hook t (s_hooks st) = Some (i, h) ->
  records_of t' (mkState init msg (alter (set_enabled v) i (s_hooks st))) =
  records_of t' st.
Proof.
  intros Hne Hfind. apply find_hook_Some in Hfind as [Hi Ht].
  unfold records_of. simpl.
  apply (filter_alter_other _ _ _ i h Hi); simpl; congruence.
Qed.

Lemma removeHook_hooks (t : Z) (st : State) (i : nat) (h : HookInfo) :
  s_initialized st = true ->
  find_hook t (s_hooks st) = Some (i, h) ->
  s_hooks (snd (removeHook t st)) = delete i (s_hooks st).
Proof.
  intros Hinit Hfind. unfold removeHook, removeHook_lookup, removeHook_erase.
  rewrite Hinit, Hfind. simpl.
  destruct (enabled h) eqn:Hen; [|reflexivity].
  rewrite (disableHook_enabled t st i h Hinit Hfind Hen). simpl.
  apply delete_alter.
Qed.

(** X17.  An operation on one target never touches the records of
    another: after [createHook], [enableHook], [disableHook] or
    [removeHook] on [target], whatever they return, the records of
    every other target are the ones before, and [initialize] changes
    no record at all. *)
Theorem operations_leave_other_targets_alone
    (target other hook : Z) (st : State) :
  other <> target ->
  records_of other (snd (createHook target hook st)) = records_of other st /\
  records_of other (snd (enableHook target st)) = records_of other st /\
  records_of other (snd (disableHook target st)) = records_of other st /\
  records_of other (snd (removeHook target st)) = records_of other st /\
  s_hooks (snd (initialize st)) = s_hooks st.
Proof.
  intros Hne. split; [|split; [|split; [|split]]].
  - unfold createHook.
    destruct (s_initialized st); simpl; [|reflexivity].
    destruct (find_hook target (s_hooks st)) as [[i h]|]; simpl; [reflexivity|].
    unfold records_of. simpl. rewrite filter_app. simpl.
    rewrite filter_cons, decide_False by (simpl; congruence).
    rewrite filter_nil. apply app_nil_r.
  - unfold enableHook.
    destruct (s_initialized st); simpl; [|reflexivity].
    destruct (find_hook target (s_hooks st)) as [[i h]|] eqn:Hfind; simpl;
      [|reflexivity].
    destruct (enabled h); simpl; [reflexivity|].
    apply (records_of_alter_other target other st i h); assumption.
  - unfold disableHook.
    destruct (s_initialized st); simpl; [|reflexivity].
    destruct (find_hook target (s_hooks st)) as [[i h]|] eqn:Hfind; simpl;
      [|reflexivity].
    destruct (enabled h); simpl; [|reflexivity].
    apply (records_of_alter_other target other st i h); assumption.
  - destruct (s_initialized st) eqn:Hinit.
    + destruct (find_hook target (s_hooks st)) as [[i h]|] eqn:Hfind.
      * unfold records_of.
        rewrite (removeHook_hooks target st i h Hinit Hfind).
        apply find_hook_Some in Hfind as [Hi Ht].
        apply (filter_delete_other _ _ i h Hi). congruence.
      * unfold removeHook, removeHook_lookup, removeHook_erase.
        rewrite Hinit, Hfind. reflexivity.
    + unfold removeHook, removeHook_lookup, removeHook_erase.
      rewrite Hinit. reflexivity.
  - unfold initialize. destruct (s_initialized st); reflexivity.
Qed.

Lemma operations_leave_other_targets_alone_witness :
  0x400000 <> 0x400010 /\
  records_of 0x400000 (snd (createHook 0x400010 0x402000 enabled_state)) =
    records_of 0x400000 enabled_state /\
  records_of 0x400000 (snd (removeHook 0x400010 enabled_state)) =
    records_of 0x400000 enabled_state.
Proof.
  assert (Hne : 0x400000 <> 0x400010) by discriminate.
  split; [exact Hne|].
  destruct (operations_leave_other_targets_alone 0x400010 0x400000 0x402000
              enabled_state Hne) as (Hc & _ & _ & Hr & _).
  split; assumption.
Defined.

(** X18.  Creating a hook, enabling it and removing it, as the
    demonstration test does, leaves the table as it found it: on an
    initialized engine where the target has no record, the three calls
    return [MH_OK] and the records afterwards are those before. *)
Theorem create_enable_remove_restores_table (target hook : Z) (st : State) :
  s_initialized st = true ->
  target ∉ (targetAddress <$> s_hooks st) ->
  fst (fst (createHook target hook st)) = MH_OK /\
  fst (enableHook target (snd (createHook target hook st))) = MH_OK /\
  removeHook target (snd (enableHook target (snd (createHook target hook st))))
    = (MH_OK, mkState true "Hook removed successfully" (s_hooks st)) /\
  removeHook target (snd (createHook target hook st))
    = (MH_OK, mkState true "Hook removed successfully" (s_hooks st)).
Proof.
  intros Hinit Hnotin.
  rewrite (createHook_fresh target hook st Hinit Hnotin). simpl.
  set (record := mkHookInfo "" target hook target HOOK_JMP false).
  set (st1 := mkState true "Hook created successfully (mock)"
                (s_hooks st ++ [record])).
  assert (Hfind : find_hook target (s_hooks st1) =
                    Some (length (s_hooks st), record))
    by (apply find_hook_app_new; [exact Hnotin|reflexivity]).
  assert (Hen : enableHook target st1 =
            (MH_OK, mkState true "Hook enabled successfully (mock)"
                      (alter (set_enabled true) (length (s_hooks st))
                         (s_hooks st1))))
    by (apply (enableHook_disabled target st1 _ record); auto).
  split; [reflexivity|]. split; [rewrite Hen; reflexivity|].
  assert (Hremove : forall st2,
            s_initialized st2 = true ->
            (exists h, find_hook target (s_hooks st2)
                       = Some (length (s_hooks st), h)) ->
            delete (length (s_hooks st)) (s_hooks st2) = s_hooks st ->
            removeHook target st2 =
              (MH_OK, mkState true "Hook removed successfully" (s_hooks st))).
  { intros st2 Hinit2 [h Hfind2] Hdel.
    pose proof (removeHook_hooks target st2 _ h Hinit2 Hfind2) as Hhooks.
    destruct (removeHook_found target st2 _ h Hinit2 Hfind2) as (Hok & Hi & _).
    destruct (removeHook target st2) as [status st3] eqn:Hrem.
    simpl in *. subst status.
    assert (Hmsg : s_lastError st3 = "Hook removed successfully"%string).
    { unfold removeHook, removeHook_lookup, removeHook_erase in Hrem.
      rewrite Hinit2, Hfind2 in Hrem.
      simpl in Hrem. injection Hrem as <-. reflexivity. }
    destruct st3 as [init3 msg3 hooks3]. simpl in *. subst.
    rewrite Hdel. reflexivity. }
  split.
  - rewrite Hen. simpl. apply Hremove; [reflexivity| |].
    + exists (set_enabled true record). simpl.
      apply (find_hook_alter target (s_hooks st1) _ record true Hfind).
    + simpl. rewrite delete_alter. apply delete_app_last.
  - apply Hremove; [reflexivity | eauto | apply delete_app_last].
Qed.

Lemma create_enable_remove_restores_table_witness :
  s_initialized ready_state = true /\
  removeHook 0x400000
    (snd (enableHook 0x400000 (snd (createHook 0x400000 0x401000 ready_state))))
    = (MH_OK, mkState true "Hook removed successfully" []).
Proof.
  split; [reflexivity|].
  destruct (create_enable_remove_restores_table 0x400000 0x401000 ready_state)
    as (_ & _ & Hremove & _).
  - reflexivity.
  - apply not_elem_of_nil.
  - exact Hremove.
Defined.

(** X19.  What [removeHook] does to the table, in every reachable
    state: it returns [MH_OK] exactly when the target has a record, and
    the records afterwards are the records before without those of the
    target, in the same order and with their flags as they were. *)
Theorem removeHook_removes_exactly_the_target (target : Z) (st : State) :
  reachable st ->
  (fst (removeHook target st) = MH_OK <->
   target ∈ (targetAddress <$> s_hooks st))
  /\
  s_hooks (snd (removeHook target st)) =
    filter (fun h => targetAddress h <> target) (s_hooks st)
  /\
  s_initialized (snd (removeHook target st)) = s_initialized st.
Proof.
  intros Hreach. pose proof (reachable_invariant st Hreach) as Hinv.
  destruct (s_initialized st) eqn:Hinit.
  - destruct (find_hook target (s_hooks st)) as [[i h]|] eqn:Hfind.
    + destruct (removeHook_found target st i h Hinit Hfind) as (Hok & Hi & _).
      rewrite (removeHook_hooks target st i h Hinit Hfind).
      pose proof Hfind as Hfind'.
      apply find_hook_Some in Hfind' as [Hlook Ht].
      split; [|split; [|exact Hi]].
      * split; [intros _|intros _; exact Hok].
        apply list_elem_of_fmap. exists h.
        split; [congruence|]. apply list_elem_of_lookup. eauto.
      * rewrite (delete_is_filter _ i h (proj1 Hinv) Hlook), Ht. reflexivity.
    + unfold removeHook, removeHook_lookup, removeHook_erase.
      rewrite Hinit, Hfind. simpl.
      pose proof (proj1 (find_hook_None target (s_hooks st)) Hfind) as Hnotin.
      split; [split; [discriminate|contradiction]|].
      split; [|exact Hinit].
      symmetry. apply (filter_all (fun h => targetAddress h <> target)).
      intros h Hh Ht. apply Hnotin. apply list_elem_of_fmap. exists h. auto.
  - unfold removeHook, removeHook_lookup, removeHook_erase.
    rewrite Hinit. simpl.
    rewrite (proj2 Hinv Hinit).
    split; [split; [discriminate|]|split; [reflexivity|exact Hinit]].
    intros H. apply elem_of_nil in H. contradiction.
Qed.

Lemma removeHook_removes_exactly_the_target_witness :
  reachable enabled_state /\
  s_hooks (snd (removeHook 0x400000 enabled_state)) = [].
Proof.
  assert (Hreach : reachable enabled_state).
  { apply reachable_step, reachable_step, reachable_step, reachable_initial. }
  split; [exact Hreach|].
  destruct (removeHook_removes_exactly_the_target 0x400000 enabled_state Hreach)
    as (_ & Hhooks & _).
  rewrite Hhooks. reflexivity.
Defined.

(** X20.  Without a record: on an initialized engine, [enableHook],
    [disableHook] and [removeHook] on a target that has no record
    return [MH_ERROR_NOT_CREATED] and change only the last-error
    message; and [FunctionHook::enable] on an object that is not
    installed returns [false] without calling the engine. *)
Theorem operations_without_record_report_not_created
    (target : Z) (st : State) :
  s_initialized st = true ->
  target ∉ (targetAddress <$> s_hooks st) ->
  enableHook target st =
    (MH_ERROR_NOT_CREATED, set_lastError "Hook not found" st) /\
  disableHook target st =
    (MH_ERROR_NOT_CREATED, set_lastError "Hook not found" st) /\
  removeHook target st =
    (MH_ERROR_NOT_CREATED, set_lastError "Hook not found" st) /\
  (forall fh, m_installed fh = false -> enable fh st = (false, fh, st)).
Proof.
  intros Hinit Hnotin.
  apply find_hook_None in Hnotin.
  unfold enableHook, disableHook,
    removeHook, removeHook_lookup, removeHook_erase.
  rewrite Hinit, Hnotin. simpl.
  repeat split. intros fh Hinst. unfold enable. rewrite Hinst. reflexivity.
Qed.

Lemma operations_without_record_report_not_created_witness :
  s_initialized ready_state = true /\
  enableHook 0x400000 ready_state =
    (MH_ERROR_NOT_CREATED, set_lastError "Hook not found" ready_state).
Proof.
  split; [reflexivity|].
  destruct (operations_without_record_report_not_created 0x400000 ready_state)
    as (Hen & _).
  - reflexivity.
  - apply not_elem_of_nil.
  - exact Hen.
Defined.

(** ** The engine and the objects over time *)

(** X21.  [uninitialize] on an initialized engine returns [MH_OK],
    empties the table and leaves the engine uninitialized, whatever
    the table held.  A [FunctionHook] that was installed does not learn
    of it: its [remove] then returns [false] and the object stays
    marked installed, and after a new [initialize] its [install]
    returns [true] without creating a record. *)
Theorem uninitialize_clears_table_and_strands_objects (st : State) :
  s_initialized st = true ->
  uninitialize st = (MH_OK, mkState false "Uninitialized successfully" [])
  /\
  (forall fh, m_installed fh = true ->
     remove fh (snd (uninitialize st)) =
       (false, fh,
        set_lastError "MinHook not initialized" (snd (uninitialize st)))
     /\
     install fh (snd (initialize (snd (uninitialize st)))) =
       (true, fh, snd (initialize (snd (uninitialize st))))
     /\
     s_hooks (snd (install fh (snd (initialize (snd (uninitialize st)))))) = []).
Proof.
  intros Hinit.
  assert (Hun : uninitialize st =
                  (MH_OK, mkState false "Uninitialized successfully" [])).
  { unfold uninitialize. rewrite Hinit. reflexivity. }
  split; [exact Hun|].
  intros fh Hinst. rewrite Hun. simpl.
  split; [|split].
  - unfold remove. rewrite Hinst. simpl.
    destruct (m_enabled fh) eqn:Hen.
    + unfold disable. rewrite Hinst, Hen. reflexivity.
    + reflexivity.
  - unfold install. rewrite Hinst. reflexivity.
  - unfold install. rewrite Hinst. reflexivity.
Qed.

Lemma uninitialize_clears_table_and_strands_objects_witness :
  s_initialized enabled_state = true /\
  uninitialize enabled_state =
    (MH_OK, mkState false "Uninitialized successfully" []).
Proof.
  split; [reflexivity|].
  exact (proj1 (uninitialize_clears_table_and_strands_objects enabled_state
                  eq_refl)).
Defined.

Lemma install_true_inv (fh : FunctionHook) (st : State) :
  m_installed fh = false ->
  fst (fst (install fh st)) = true ->
  s_initialized st = true /\
  (m_targetAddress fh ∉ (targetAddress <$> s_hooks st)) /\
  install fh st =
    (true,
     set_m_installed true (set_m_originalFunction (m_targetAddress fh) fh),
     mkState true "Hook created successfully (mock)"
       (s_hooks st ++
        [mkHookInfo "" (m_targetAddress fh) (m_hookFunction fh)
           (m_targetAddress fh) HOOK_JMP false])).
Proof.
  intros Hinst Hok. unfold install in *. rewrite Hinst in *.
  unfold createHook in *.
  destruct (s_initialized st); simpl in *; [|discriminate].
  destruct (find_hook (m_targetAddress fh) (s_hooks st)) as [[i h]|] eqn:Hfind;
    simpl in *; [discriminate|].
  split; [reflexivity|]. split; [|reflexivity].
  apply find_hook_None. exact Hfind.
Qed.

(** X22.  After an [install] that succeeded, [enable] succeeds: for an
    object that was not installed, in any state, if [install] returns
    [true] then [enable] on its result returns [true], marks the object
    enabled and sets the flag of the new record.  (The caller's branch
    for a hook that was created but could not be enabled is never
    taken.) *)
Theorem enable_succeeds_after_install (fh : FunctionHook) (st : State) :
  m_installed fh = false ->
  m_enabled fh = false ->
  fst (fst (install fh st)) = true ->
  fst (fst (enable (snd (fst (install fh st))) (snd (install fh st)))) = true /\
  isEnabled (snd (fst (enable (snd (fst (install fh st)))
                         (snd (install fh st))))) = true /\
  records_of (m_targetAddress fh)
    (snd (enable (snd (fst (install fh st))) (snd (install fh st)))) =
    [mkHookInfo "" (m_targetAddress fh) (m_hookFunction fh)
       (m_targetAddress fh) HOOK_JMP true].
Proof.
  intros Hinst Hen Hok.
  destruct (install_true_inv fh st Hinst Hok) as (Hinit & Hnotin & Hinstall).
  rewrite Hinstall. cbn [fst snd].
  set (record := mkHookInfo "" (m_targetAddress fh) (m_hookFunction fh)
                   (m_targetAddress fh) HOOK_JMP false).
  set (st1 := mkState true "Hook created successfully (mock)"
                (s_hooks st ++ [record])).
  assert (Hfind : find_hook (m_targetAddress fh) (s_hooks st1) =
                    Some (length (s_hooks st), record))
    by (apply find_hook_app_new; [exact Hnotin|reflexivity]).
  unfold enable. simpl. rewrite Hen.
  rewrite (enableHook_disabled (m_targetAddress fh) st1 _ record eq_refl Hfind
             eq_refl).
  simpl. split; [reflexivity|]. split; [reflexivity|].
  unfold records_of. simpl.
  rewrite alter_app_last, filter_app.
  pose proof (proj2 (records_of_nil (m_targetAddress fh) st) Hnotin) as Hnil.
  unfold records_of in Hnil. rewrite Hnil. simpl.
  rewrite filter_cons, decide_True by reflexivity. reflexivity.
Qed.

Lemma enable_succeeds_after_install_witness :
  m_installed example_hook = false /\
  fst (fst (install example_hook ready_state)) = true /\
  isEnabled (snd (fst (enable (snd (fst (install example_hook ready_state)))
                         (snd (install example_hook ready_state))))) = true.
Proof.
  assert (Hok : fst (fst (install example_hook ready_state)) = true)
    by reflexivity.
  split; [reflexivity|]. split; [exact Hok|].
  destruct (enable_succeeds_after_install example_hook ready_state
              eq_refl eq_refl Hok) as (_ & Hflag & _).
  exact Hflag.
Defined.

(** The operations on a table whose last record is the record of the
    target. *)
Lemma enableHook_last (t : Z) (l : list HookInfo) (x : HookInfo) (msg : string) :
  t ∉ (targetAddress <$> l) -> targetAddress x = t -> enabled x = false ->
  enableHook t (mkState true msg (l ++ [x])) =
  (MH_OK, mkState true "Hook enabled successfully (mock)"
            (l ++ [set_enabled true x])).
Proof.
  intros Hnotin Hx Hen.
  rewrite (enableHook_disabled t (mkState true msg (l ++ [x])) (length l) x
             eq_refl (find_hook_app_new t l x Hnotin Hx) Hen).
  simpl. rewrite alter_app_last. reflexivity.
Qed.

Lemma disableHook_last (t : Z) (l : list HookInfo) (x : HookInfo) (msg : string) :
  t ∉ (targetAddress <$> l) -> targetAddress x = t -> enabled x = true ->
  disableHook t (mkState true msg (l ++ [x])) =
  (MH_OK, mkState true "Hook disabled successfully (mock)"
            (l ++ [set_enabled false x])).
Proof.
  intros Hnotin Hx Hen.
  rewrite (disableHook_enabled t (mkState true msg (l ++ [x])) (length l) x
             eq_refl (find_hook_app_new t l x Hnotin Hx) Hen).
  simpl. rewrite alter_app_last. reflexivity.
Qed.

Lemma removeHook_last (t : Z) (l : list HookInfo) (x : HookInfo) (msg : string) :
  t ∉ (targetAddress <$> l) -> targetAddress x = t -> enabled x = false ->
  removeHook t (mkState true msg (l ++ [x])) =
  (MH_OK, mkState true "Hook removed successfully" l).
Proof.
  intros Hnotin Hx Hen. unfold removeHook, removeHook_lookup, removeHook_erase.
  simpl.
  rewrite (find_hook_app_new t l x Hnotin Hx), Hen. simpl.
  rewrite delete_app_last. reflexivity.
Qed.

(** X23.  The life of a hook object: on an initialized engine where
    the target has no record, a new [FunctionHook] is installed,
    enabled, disabled and removed with every call returning [true];
    after [install] the original address is the target; after [remove]
    (also when it is called on the enabled hook, without [disable]) the
    object is again as the constructor built it and the table holds the
    records it held before. *)
Theorem FunctionHook_lifecycle_round_trip
    (n : string) (target hookFunction : Z) (ty : HookType) (st : State) :
  s_initialized st = true ->
  target ∉ (targetAddress <$> s_hooks st) ->
  exists fh1 st1 fh2 st2 fh3 st3 st4,
    install (FunctionHook_new n target hookFunction ty) st = (true, fh1, st1) /\
    isInstalled fh1 = true /\ getOriginal fh1 = target /\
    enable fh1 st1 = (true, fh2, st2) /\ isEnabled fh2 = true /\
    disable fh2 st2 = (true, fh3, st3) /\ isEnabled fh3 = false /\
    remove fh3 st3 = (true, FunctionHook_new n target hookFunction ty, st4) /\
    remove fh2 st2 = (true, FunctionHook_new n target hookFunction ty, st4) /\
    s_hooks st4 = s_hooks st /\ s_initialized st4 = true.
Proof.
  intros Hinit Hnotin.
  set (fh := FunctionHook_new n target hookFunction ty).
  set (record := mkHookInfo "" target hookFunction target HOOK_JMP false).
  assert (Hinstall : install fh st =
            (true, set_m_installed true (set_m_originalFunction target fh),
             mkState true "Hook created successfully (mock)"
               (s_hooks st ++ [record]))).
  { unfold install. simpl.
    rewrite (createHook_fresh target hookFunction st Hinit Hnotin).
    reflexivity. }
  assert (Henable :
    enable (set_m_installed true (set_m_originalFunction target fh))
      (mkState true "Hook created successfully (mock)" (s_hooks st ++ [record]))
    = (true,
       set_m_enabled true (set_m_installed true (set_m_originalFunction target fh)),
       mkState true "Hook enabled successfully (mock)"
         (s_hooks st ++ [set_enabled true record]))).
  { unfold enable. simpl.
    rewrite (enableHook_last target (s_hooks st) record _ Hnotin eq_refl eq_refl).
    reflexivity. }
  assert (Hdisable :
    disable
      (set_m_enabled true (set_m_installed true (set_m_originalFunction target fh)))
      (mkState true "Hook enabled successfully (mock)"
         (s_hooks st ++ [set_enabled true record]))
    = (true, set_m_installed true (set_m_originalFunction target fh),
       mkState true "Hook disabled successfully (mock)"
         (s_hooks st ++ [record]))).
  { unfold disable. simpl.
    rewrite (disableHook_last target (s_hooks st) (set_enabled true record) _
               Hnotin eq_refl eq_refl).
    reflexivity. }
  assert (Hremove :
    remove (set_m_installed true (set_m_originalFunction target fh))
      (mkState true "Hook disabled successfully (mock)" (s_hooks st ++ [record]))
    = (true, fh, mkState true "Hook removed successfully" (s_hooks st))).
  { unfold remove. simpl.
    rewrite (removeHook_last target (s_hooks st) record _ Hnotin eq_refl eq_refl).
    reflexivity. }
  assert (Hremove' :
    remove
      (set_m_enabled true (set_m_installed true (set_m_originalFunction target fh)))
      (mkState true "Hook enabled successfully (mock)"
         (s_hooks st ++ [set_enabled true record]))
    = (true, fh, mkState true "Hook removed successfully" (s_hooks st))).
  { unfold remove. cbn [m_installed m_enabled set_m_enabled negb].
    rewrite Hdisable. cbn [m_targetAddress set_m_installed
                            set_m_originalFunction fh FunctionHook_new].
    rewrite (removeHook_last target (s_hooks st) record _ Hnotin eq_refl eq_refl).
    reflexivity. }
  eexists _, _, _, _, _, _, _.
  split; [exact Hinstall|]. split; [reflexivity|]. split; [reflexivity|].
  split; [exact Henable|]. split; [reflexivity|].
  split; [exact Hdisable|]. split; [reflexivity|].
  split; [exact Hremove|]. split; [exact Hremove'|].
  split; reflexivity.
Qed.

Lemma FunctionHook_lifecycle_round_trip_witness :
  s_initialized ready_state = true /\
  exists fh1 st1,
    install (FunctionHook_new "health_hook" 0x400000 0x401000 HOOK_JMP)
      ready_state = (true, fh1, st1) /\
    getOriginal fh1 = 0x400000.
Proof.
  split; [reflexivity|].
  destruct (FunctionHook_lifecycle_round_trip "health_hook" 0x400000 0x401000
              HOOK_JMP ready_state eq_refl)
    as (fh1 & st1 & _ & _ & _ & _ & _ & Hinstall & _ & Horig & _).
  - apply not_elem_of_nil.
  - exists fh1, st1. split; assumption.
Defined.

(** X24.  The methods of [FunctionHook] are idempotent: calling
    [install], [enable], [disable] or [remove] a second time, right
    after the first, returns the same answer and leaves the same object
    and the same static state as the first call did. *)
Theorem FunctionHook_methods_are_idempotent (fh : FunctionHook) (st : State) :
  install (snd (fst (install fh st))) (snd (install fh st)) = install fh st /\
  enable (snd (fst (enable fh st))) (snd (enable fh st)) = enable fh st /\
  disable (snd (fst (disable fh st))) (snd (disable fh st)) = disable fh st /\
  remove (snd (fst (remove fh st))) (snd (remove fh st)) = remove fh st.
Proof.
  split; [|split; [|split]].
  - unfold install, createHook.
    destruct (m_installed fh) eqn:Hinst; simpl; rewrite ?Hinst; simpl;
      [reflexivity|].
    destruct (s_initialized st) eqn:Hinit; simpl; rewrite ?Hinst, ?Hinit; simpl;
      [|reflexivity].
    destruct (find_hook (m_targetAddress fh) (s_hooks st)) as [[i h]|] eqn:Hfind;
      simpl; rewrite ?Hinst, ?Hinit, ?Hfind; simpl; reflexivity.
  - unfold enable, enableHook.
    destruct (m_installed fh) eqn:Hinst; simpl; rewrite ?Hinst; simpl;
      [|reflexivity].
    destruct (m_enabled fh) eqn:Hen; simpl; rewrite ?Hinst, ?Hen; simpl;
      [reflexivity|].
    destruct (s_initialized st) eqn:Hinit; simpl;
      rewrite ?Hinst, ?Hen, ?Hinit; simpl; [|reflexivity].
    destruct (find_hook (m_targetAddress fh) (s_hooks st)) as [[i h]|] eqn:Hfind;
      simpl; rewrite ?Hinst, ?Hen, ?Hinit, ?Hfind; simpl; [|reflexivity].
    destruct (enabled h) eqn:Hh; simpl;
      rewrite ?Hinst, ?Hen, ?Hinit, ?Hfind, ?Hh; simpl; reflexivity.
  - unfold disable, disableHook.
    destruct (m_installed fh) eqn:Hinst; simpl; rewrite ?Hinst; simpl;
      [|reflexivity].
    destruct (m_enabled fh) eqn:Hen; simpl; rewrite ?Hinst, ?Hen; simpl;
      [|reflexivity].
    destruct (s_initialized st) eqn:Hinit; simpl;
      rewrite ?Hinst, ?Hen, ?Hinit; simpl; [|reflexivity].
    destruct (find_hook (m_targetAddress fh) (s_hooks st)) as [[i h]|] eqn:Hfind;
      simpl; rewrite ?Hinst, ?Hen, ?Hinit, ?Hfind; simpl; [|reflexivity].
    destruct (enabled h) eqn:Hh; simpl;
      rewrite ?Hinst, ?Hen, ?Hinit, ?Hfind, ?Hh; simpl; reflexivity.
  - unfold remove.
    destruct (m_installed fh) eqn:Hinst; simpl; rewrite ?Hinst; simpl;
      [|reflexivity].
    destruct (s_initialized st) eqn:Hinit.
    + destruct (find_hook (m_targetAddress fh) (s_hooks st)) as [[i h]|]
        eqn:Hfind.
      * (* the record exists: the first call succeeds *)
        assert (Hfirst : exists fh' st',
                  remove fh st = (true, fh', st') /\ m_installed fh' = false).
        { unfold remove. rewrite Hinst. simpl.
          destruct (m_enabled fh) eqn:Hen.
          - unfold disable. rewrite Hinst, Hen. simpl.
            destruct (enabled h) eqn:Hh.
            + rewrite (disableHook_enabled _ st i h Hinit Hfind Hh). simpl.
              unfold removeHook, removeHook_lookup, removeHook_erase.
              simpl. rewrite Hinit. simpl.
              rewrite (find_hook_alter _ _ i h false Hfind). simpl.
              eauto.
            + unfold disableHook. rewrite Hinit, Hfind, Hh. simpl.
              unfold removeHook, removeHook_lookup, removeHook_erase.
              simpl. rewrite Hinit, Hfind, Hh. simpl.
              eauto.
          - unfold removeHook, removeHook_lookup, removeHook_erase.
            rewrite Hinit, Hfind. simpl. eauto. }
        destruct Hfirst as (fh' & st' & Hfirst & Hinst').
        unfold remove in Hfirst. rewrite Hinst in Hfirst. simpl in Hfirst.
        rewrite Hfirst. simpl. unfold remove. rewrite Hinst'. reflexivity.
      * (* no record: both calls fail alike *)
        destruct (m_enabled fh) eqn:Hen;
          unfold disable, disableHook,
            removeHook, removeHook_lookup, removeHook_erase;
          repeat (progress (simpl; rewrite ?Hinst, ?Hen, ?Hinit, ?Hfind));
          reflexivity.
    + destruct (m_enabled fh) eqn:Hen;
        unfold disable, disableHook,
          removeHook, removeHook_lookup, removeHook_erase;
        repeat (progress (simpl; rewrite ?Hinst, ?Hen, ?Hinit));
        reflexivity.
Qed.

End HooksFacts.

(* ===================================================================== *)
(** * Properties of [ui::ConsoleUI] *)
(* ===================================================================== *)

Module UIFacts.
Import Memory Hooks UI HooksFacts.

Lemma install_false_inv (fh : FunctionHook) (st : State) :
  fst (fst (install fh st)) = false ->
  m_installed fh = false /\
  exists msg, install fh st = (false, fh, set_lastError msg st).
Proof.
  unfold install, createHook.
  destruct (m_installed fh); [discriminate|].
  destruct (s_initialized st); simpl; [|eauto].
  destruct (find_hook (m_targetAddress fh) (s_hooks st)) as [[i h]|]; simpl;
    [eauto|discriminate].
Qed.

Lemma enable_after_install (fh : FunctionHook) (st : State) :
  m_installed fh = false -> m_enabled fh = false ->
  fst (fst (install fh st)) = true ->
  enable (snd (fst (install fh st))) (snd (install fh st)) =
    (true,
     set_m_enabled true
       (set_m_installed true (set_m_originalFunction (m_targetAddress fh) fh)),
     mkState true "Hook enabled successfully (mock)"
       (s_hooks st ++
        [mkHookInfo "" (m_targetAddress fh) (m_hookFunction fh)
           (m_targetAddress fh) HOOK_JMP true])).
Proof.
  intros Hinst Hen Hok.
  destruct (install_true_inv fh st Hinst Hok) as (Hinit & Hnotin & Hinstall).
  rewrite Hinstall. cbn [fst snd]. unfold enable. simpl. rewrite Hen.
  rewrite (enableHook_last (m_targetAddress fh) (s_hooks st)
             (mkHookInfo "" (m_targetAddress fh) (m_hookFunction fh)
                (m_targetAddress fh) HOOK_JMP false) _ Hnotin eq_refl eq_refl).
  reflexivity.
Qed.

(** X25.  The hook command either changes nothing of the table and of
    the hooks the console owns, or it adds exactly one hook: an object
    that is installed and enabled is appended to [m_hooks] and one
    enabled record for its target is appended to the table, the
    routine being the target plus [0x1000].  The second happens exactly
    when the address token converts, the engine is initialized and the
    target has no record yet; a hook that was created is never left
    behind disabled.  The other members of the console are not
    touched. *)
Theorem hook_command_adds_one_enabled_hook_or_nothing
    (ULONG_MAX uintptr_bits : Z) (iss : list ascii) (ui : ConsoleUI)
    (st : State) :
  (m_scanner (snd (fst (processHookCommand ULONG_MAX uintptr_bits iss ui st)))
     = m_scanner ui /\
   m_scanResults (snd (fst (processHookCommand ULONG_MAX uintptr_bits iss ui st)))
     = m_scanResults ui /\
   m_running (snd (fst (processHookCommand ULONG_MAX uintptr_bits iss ui st)))
     = m_running ui)
  /\
  (forall value,
     (nth 0 (tokens iss) []) <> [] ->
     stoul ULONG_MAX (nth 0 (tokens iss) []) = inr value ->
     s_initialized st = true ->
     (value mod 2 ^ uintptr_bits) ∉ (targetAddress <$> s_hooks st) ->
     exists fh,
       m_hooks (snd (fst (processHookCommand ULONG_MAX uintptr_bits iss ui st)))
         = m_hooks ui ++ [fh] /\
       isInstalled fh = true /\ isEnabled fh = true /\
       m_targetAddress fh = (value mod 2 ^ uintptr_bits) /\
       m_hookFunction fh = ((value mod 2 ^ uintptr_bits) + 0x1000) mod 2 ^ uintptr_bits /\
       s_hooks (snd (processHookCommand ULONG_MAX uintptr_bits iss ui st)) =
         s_hooks st ++
         [mkHookInfo "" (value mod 2 ^ uintptr_bits)
            (((value mod 2 ^ uintptr_bits) + 0x1000) mod 2 ^ uintptr_bits)
            (value mod 2 ^ uintptr_bits) HOOK_JMP true])
  /\
  (((nth 0 (tokens iss) []) = [] \/
    (exists e, stoul ULONG_MAX (nth 0 (tokens iss) []) = inl e) \/
    s_initialized st = false \/
    (exists value, stoul ULONG_MAX (nth 0 (tokens iss) []) = inr value /\
       (value mod 2 ^ uintptr_bits) ∈ (targetAddress <$> s_hooks st))) ->
   m_hooks (snd (fst (processHookCommand ULONG_MAX uintptr_bits iss ui st)))
     = m_hooks ui /\
   s_hooks (snd (processHookCommand ULONG_MAX uintptr_bits iss ui st)) = s_hooks st /\
   s_initialized (snd (processHookCommand ULONG_MAX uintptr_bits iss ui st))
     = s_initialized st).
Proof.
  unfold processHookCommand.
  destruct (nth 0 (tokens iss) []) as [|c cs] eqn:Haddr.
  { simpl. split; [auto|]. split; [intros v Hne; congruence|]. auto. }
  destruct (stoul ULONG_MAX (c :: cs)) as [e|value] eqn:Hstoul.
  { simpl. split; [auto|]. split; [intros v _ Hv; discriminate|]. auto. }
  set (hook := FunctionHook_new _ (value mod 2 ^ uintptr_bits)
                 ((value mod 2 ^ uintptr_bits + 4096) mod 2 ^ uintptr_bits)
                 HOOK_JMP).
  destruct (install hook st) as [[installed hook1] st1] eqn:Hinstall.
  destruct installed.
  - (* installed: the hook is enabled as well *)
    assert (Hok : fst (fst (install hook st)) = true)
      by (rewrite Hinstall; reflexivity).
    destruct (install_true_inv hook st eq_refl Hok) as (Hinit & Hnotin & _).
    pose proof (enable_after_install hook st eq_refl eq_refl Hok) as Hen.
    rewrite Hinstall in Hen. cbn [fst snd] in Hen. rewrite Hen. simpl.
    split; [auto|]. split.
    + intros v _ [= <-] _ _. eexists. split; [reflexivity|].
      repeat split.
    + intros [Hempty|[[e He]|[Huninit|(v & [= <-] & Hin)]]];
        [discriminate | discriminate | congruence | contradiction].
  - (* not installed: nothing was created *)
    assert (Hfail : fst (fst (install hook st)) = false)
      by (rewrite Hinstall; reflexivity).
    destruct (install_false_inv hook st Hfail) as (_ & msg & Heq).
    rewrite Hinstall in Heq. injection Heq as -> ->.
    simpl. split; [auto|]. split; [|auto].
    intros v _ [= <-] Hinit Hnotin. exfalso.
    pose proof (createHook_fresh (m_targetAddress hook) (m_hookFunction hook)
                  st Hinit Hnotin) as Hcreate.
    unfold install in Hinstall. simpl in Hinstall.
    simpl in Hcreate. rewrite Hcreate in Hinstall. discriminate.
Qed.

Lemma hook_command_adds_one_enabled_hook_or_nothing_witness :
  s_initialized ready_state = true /\
  s_hooks (snd (processHookCommand ULONG_MAX_LP64 64
                  (list_ascii_of_string " 0x400000 health_hook")
                  (mkConsoleUI None [] [] true) ready_state)) =
    [mkHookInfo "" 0x400000 0x401000 0x400000 HOOK_JMP true].
Proof.
  split; [reflexivity|].
  destruct (hook_command_adds_one_enabled_hook_or_nothing ULONG_MAX_LP64 64
              (list_ascii_of_string " 0x400000 health_hook")
              (mkConsoleUI None [] [] true) ready_state)
    as (_ & Hadd & _).
  destruct (Hadd 0x400000) as (fh & _ & _ & _ & _ & _ & Hhooks).
  - discriminate.
  - reflexivity.
  - reflexivity.
  - apply not_elem_of_nil.
  - exact Hhooks.
Defined.

(** ** Teardown *)

Lemma remove_all_reachable (hooks : list FunctionHook) (st : State) :
  reachable st -> reachable (snd (remove_all hooks st)).
Proof.
  revert st. induction hooks as [|hook rest IH]; intros st Hreach; simpl.
  - exact Hreach.
  - pose proof (remove_reachable hook st Hreach) as H1.
    destruct (remove hook st) as [[b hook'] st1]. simpl in H1.
    specialize (IH st1 H1).
    destruct (remove_all rest st1) as [rest' st2]. exact IH.
Qed.

Lemma destroy_uninitialized (fh : FunctionHook) (st : State) :
  s_initialized st = false -> s_initialized (destroy fh st) = false.
Proof.
  intros Hinit. unfold destroy, remove, disable, disableHook,
    removeHook, removeHook_lookup, removeHook_erase.
  destruct (m_installed fh) eqn:Hinst; [|exact Hinit].
  simpl. rewrite ?Hinst. simpl.
  destruct (m_enabled fh) eqn:Hen;
    repeat (progress (simpl; rewrite ?Hinst, ?Hen, ?Hinit)); reflexivity.
Qed.

Lemma destroy_all_facts (hooks : list FunctionHook) (st : State) :
  reachable st -> s_initialized st = false ->
  reachable (destroy_all hooks st) /\
  s_initialized (destroy_all hooks st) = false.
Proof.
  revert st. induction hooks as [|hook rest IH]; intros st Hreach Hinit.
  - split; assumption.
  - simpl. apply IH.
    + apply destroy_reachable. exact Hreach.
    + apply destroy_uninitialized. exact Hinit.
Qed.

(** X26.  After the destructor of the console, whatever hooks it owned
    and whatever the table held, the engine is uninitialized and the
    table is empty. *)
Theorem console_teardown_leaves_no_hook (ui : ConsoleUI) (st : State) :
  reachable st ->
  s_hooks (ConsoleUI_destroy ui st) = [] /\
  s_initialized (ConsoleUI_destroy ui st) = false /\
  reachable (ConsoleUI_destroy ui st).
Proof.
  intros Hreach. unfold ConsoleUI_destroy.
  pose proof (remove_all_reachable (m_hooks ui) st Hreach) as H1.
  destruct (remove_all (m_hooks ui) st) as [hooks st1]. simpl in H1.
  assert (H2 : reachable (snd (uninitialize st1)))
    by exact (reachable_step OpUninitialize st1 H1).
  assert (Hinit : s_initialized (snd (uninitialize st1)) = false)
    by apply engine_uninitialized_states.
  destruct (destroy_all_facts hooks _ H2 Hinit) as [H3 Hinit3].
  split; [|split; assumption].
  apply (proj2 (reachable_invariant _ H3)). exact Hinit3.
Qed.

Lemma console_teardown_leaves_no_hook_witness :
  reachable enabled_state /\
  s_hooks (ConsoleUI_destroy
             (mkConsoleUI None [] [fst enabled_example] true) enabled_state)
    = [].
Proof.
  assert (Hreach : reachable enabled_state).
  { apply reachable_step, reachable_step, reachable_step, reachable_initial. }
  split; [exact Hreach|].
  exact (proj1 (console_teardown_leaves_no_hook _ enabled_state Hreach)).
Defined.

End UIFacts.
